(** * db2-postgres-replicate: the replication pipeline, embedded and verified

    The JavaScript sources (src/utils.js, src/db2.js, src/postgres.js,
    src/replicate.js) are embedded function by function.  Strings are
    ASCII text, JavaScript numbers are the integers they hold in this
    program (row counts, offsets, lengths), the two database clients are
    an abstract environment answering structured statements, and every
    asynchronous function is a computation in a small monad that threads
    the database state, records each statement it issues together with
    the answer, records the console output, and completes by returning,
    by throwing, or by running out of loop fuel. *)

From Stdlib Require Import String Ascii List ZArith Bool Lia DecimalString.
Import ListNotations.

Local Open Scope string_scope.
Local Open Scope Z_scope.

(** A JavaScript number as this program meets it: an integer, or NaN. *)
Inductive Number : Type :=
| Finite (z : Z)
| NaN.

(** [a === b] on numbers: NaN equals nothing. *)
Definition strict_equal (a b : Number) : bool :=
  match a, b with
  | Finite x, Finite y => x =? y
  | _, _ => false
  end.

(** [a > 0]. *)
Definition positive (a : Number) : bool :=
  match a with
  | Finite x => 0 <? x
  | NaN => false
  end.

(** ** JavaScript strings *)

Module JsString.

Definition dquote : string := String (ascii_of_nat 34) EmptyString.
Definition squote : ascii := ascii_of_nat 39.

(** The code units [String.prototype.trim] strips, below 128. *)
Definition is_whitespace (c : ascii) : bool :=
  let n := nat_of_ascii c in
  ((9 <=? n)%nat && (n <=? 13)%nat) || (n =? 32)%nat.

Fixpoint trimStart (s : string) : string :=
  match s with
  | EmptyString => EmptyString
  | String c r => if is_whitespace c then trimStart r else s
  end.

Fixpoint trimEnd (s : string) : string :=
  match s with
  | EmptyString => EmptyString
  | String c r =>
      match trimEnd r with
      | EmptyString => if is_whitespace c then EmptyString else String c EmptyString
      | r' => String c r'
      end
  end.

Definition trim (s : string) : string := trimEnd (trimStart s).

Definition upper_char (c : ascii) : ascii :=
  let n := nat_of_ascii c in
  if ((97 <=? n)%nat && (n <=? 122)%nat)%bool then ascii_of_nat (n - 32) else c.

Fixpoint toUpperCase (s : string) : string :=
  match s with
  | EmptyString => EmptyString
  | String c r => String (upper_char c) (toUpperCase r)
  end.

Fixpoint indexOf_from (needle s : string) (i : Z) : Z :=
  if prefix needle s then i
  else match s with
       | EmptyString => -1
       | String _ r => indexOf_from needle r (i + 1)
       end.

(** [s.indexOf(needle)]: position of the first occurrence, or -1. *)
Definition indexOf (s needle : string) : Z := indexOf_from needle s 0.

(** [s.includes(needle)]. *)
Definition includes (s needle : string) : bool := negb (indexOf s needle =? -1).

Fixpoint drop (n : nat) (s : string) : string :=
  match n, s with
  | O, _ => s
  | S k, String _ r => drop k r
  | S _, EmptyString => EmptyString
  end.

Fixpoint take (n : nat) (s : string) : string :=
  match n, s with
  | S k, String c r => String c (take k r)
  | _, _ => EmptyString
  end.

(** [s.substring(start)] for an integer [start]. *)
Definition substring_from (s : string) (start : Z) : string :=
  drop (Z.to_nat (Z.max start 0)) s.

(** [s.replace(/pat/g, rep)] for a literal, non-empty pattern: scan left
    to right, the [skip] counter steps over the rest of a match. *)
Fixpoint replaceAll_aux (pat rep s : string) (skip : nat) : string :=
  match s with
  | EmptyString => EmptyString
  | String c r =>
      match skip with
      | S k => replaceAll_aux pat rep r k
      | O =>
          if prefix pat s
          then rep ++ replaceAll_aux pat rep r (String.length pat - 1)
          else String c (replaceAll_aux pat rep r O)
      end
  end.

Definition replaceAll (s pat rep : string) : string := replaceAll_aux pat rep s O.

(** [s.replace(/pat/i, rep)] for a literal upper-case pattern: the first
    match only, letters compared without case. *)
Definition replaceFirst_ci (s pat rep : string) : string :=
  let i := indexOf (toUpperCase s) pat in
  if i =? -1 then s
  else take (Z.to_nat i) s ++ rep ++ drop (Z.to_nat i + String.length pat) s.

(** [s.replace(/'/g, "''")]. *)
Fixpoint doubleQuotes (s : string) : string :=
  match s with
  | EmptyString => EmptyString
  | String c r =>
      if Ascii.eqb c squote
      then String squote (String squote (doubleQuotes r))
      else String c (doubleQuotes r)
  end.

(** Reading a quote-doubled SQL literal body back: a pair of quotes is
    one quote. *)
Fixpoint undoubleQuotes (s : string) : string :=
  match s with
  | EmptyString => EmptyString
  | String c r =>
      if Ascii.eqb c squote
      then match r with
           | String c' r' => String squote (undoubleQuotes r')
           | EmptyString => String c EmptyString
           end
      else String c (undoubleQuotes r)
  end.

(** Decimal rendering of an integer, as a template literal does. *)
Definition of_Z (z : Z) : string := NilZero.string_of_int (Z.to_int z).

Fixpoint all_chars (p : ascii -> bool) (s : string) : bool :=
  match s with
  | EmptyString => true
  | String c r => p c && all_chars p r
  end.

Definition is_digit (c : ascii) : bool :=
  let n := nat_of_ascii c in ((48 <=? n)%nat && (n <=? 57)%nat)%bool.

Fixpoint leading_digits (s : string) (acc : Number) : Number :=
  match s with
  | EmptyString => acc
  | String c r =>
      if is_digit c
      then leading_digits r
             (Finite (10 * match acc with Finite a => a | NaN => 0 end
                      + Z.of_nat (nat_of_ascii c - 48)))
      else acc
  end.

Definition negate (n : Number) : Number :=
  match n with
  | Finite z => Finite (- z)
  | NaN => NaN
  end.

(** [parseInt(s, 10)]. *)
Definition parseInt10 (s : string) : Number :=
  match trimStart s with
  | String "-" r => negate (leading_digits r NaN)
  | String "+" r => leading_digits r NaN
  | r => leading_digits r NaN
  end.

End JsString.

(** ** JavaScript values held in rows *)

Inductive JsValue : Type :=
| JNull
| JUndefined
| JStr (s : string)
| JNum (z : Z).

(** [String(value)], also what a template literal interpolates. *)
Definition ToString (v : JsValue) : string :=
  match v with
  | JNull => "null"
  | JUndefined => "undefined"
  | JStr s => s
  | JNum z => JsString.of_Z z
  end.

Definition truthy (v : JsValue) : bool :=
  match v with
  | JNull | JUndefined => false
  | JStr s => negb (String.eqb s "")
  | JNum z => negb (z =? 0)
  end.

(** A row object as the drivers hand it over: [row_ref] is the identity of
    the object (what [===] and [indexOf] compare), [row_props] its
    properties in column order. *)
Record Row : Type := mkRow { row_ref : nat; row_props : list (string * JsValue) }.

(** [row[key]]. *)
Fixpoint get_prop (props : list (string * JsValue)) (key : string) : JsValue :=
  match props with
  | [] => JUndefined
  | (k, v) :: rest => if String.eqb k key then v else get_prop rest key
  end.

Definition row_get (row : Row) (key : string) : JsValue := get_prop (row_props row) key.

(** [array.slice(start, end)] on integers, negative indices counting from
    the end. *)
Definition js_slice {A : Type} (a : list A) (start end_ : Z) : list A :=
  let len := Z.of_nat (length a) in
  let k := if start <? 0 then Z.max (len + start) 0 else Z.min start len in
  let final := if end_ <? 0 then Z.max (len + end_) 0 else Z.min end_ len in
  firstn (Z.to_nat (final - k)) (skipn (Z.to_nat k) a).

(** Consecutive runs of [size] elements, the last one possibly shorter:
    the partition the chunking loops are compared with. *)
Fixpoint slices_aux {A : Type} (fuel size : nat) (l : list A) : list (list A) :=
  match fuel with
  | O => []
  | S fuel' =>
      match l with
      | [] => []
      | _ => firstn size l :: slices_aux fuel' size (skipn size l)
      end
  end.

Definition slices {A : Type} (size : nat) (l : list A) : list (list A) :=
  slices_aux (length l) size l.

(** [batch.indexOf(row)]: first position holding the same object, or -1. *)
Fixpoint row_indexOf_from (batch : list Row) (row : Row) (i : Z) : Z :=
  match batch with
  | [] => -1
  | r :: rest => if Nat.eqb (row_ref r) (row_ref row) then i
                 else row_indexOf_from rest row (i + 1)
  end.

Definition row_indexOf (batch : list Row) (row : Row) : Z := row_indexOf_from batch row 0.

(** [array.map((x, index) => f x index)]. *)
Fixpoint mapi_from {A B : Type} (f : A -> Z -> B) (l : list A) (i : Z) : list B :=
  match l with
  | [] => []
  | x :: rest => f x i :: mapi_from f rest (i + 1)
  end.

Definition mapi {A B : Type} (f : A -> Z -> B) (l : list A) : list B := mapi_from f l 0.

(** ** src/utils.js *)

Module Utils.
Import JsString.

(** The object literal of [mapDb2ToPostgresType]; the DECIMAL entry
    interpolates the length.  Only its own keys are listed: a type name
    that happens to be a property of [Object.prototype] is outside this
    embedding. *)
Definition typeMapping (length : JsValue) : list (string * string) :=
  [ ("INTEGER", "INTEGER");
    ("SMALLINT", "SMALLINT");
    ("BIGINT", "BIGINT");
    ("DECIMAL", "DECIMAL(" ++ ToString length ++ ",2)");
    ("DOUBLE", "DOUBLE PRECISION");
    ("REAL", "REAL");
    ("CHAR", "TEXT");
    ("VARCHAR", "TEXT");
    ("CLOB", "TEXT");
    ("DATE", "DATE");
    ("TIMESTAMP", "TIMESTAMP") ].

Fixpoint lookup_key (table : list (string * string)) (key : string) : option string :=
  match table with
  | [] => None
  | (k, v) :: rest => if String.eqb k key then Some v else lookup_key rest key
  end.

(** [typeMapping[db2Type] || "TEXT"]. *)
Definition mapDb2ToPostgresType (db2Type length : JsValue) : string :=
  match lookup_key (typeMapping length) (ToString db2Type) with
  | Some t => if String.eqb t "" then "TEXT" else t
  | None => "TEXT"
  end.

Definition quoted (s : string) : string := String squote (s ++ String squote EmptyString).

Definition formatValue (value : JsValue) (type : string) : JsValue :=
  match value with
  | JNull => JStr "NULL"
  | JStr EmptyString => JStr "NULL"
  | _ =>
      if includes type "TEXT" || includes type "CHAR"
      then JStr (quoted (doubleQuotes (trim (ToString value))))
      else if includes type "TIMESTAMP" || includes type "DATE"
      then JStr (quoted (ToString value))
      else if includes type "INTEGER" || includes type "SMALLINT"
              || includes type "BIGINT" || includes type "DECIMAL"
              || includes type "NUMERIC" || includes type "DOUBLE"
              || includes type "REAL"
      then value
      else JStr (quoted (ToString value))
  end.

(** The [for] loop of [chunkArray]: [i] is the loop index, [chunkedArr]
    the array built so far; [None] when the fuel is used up before the
    loop condition fails. *)
Fixpoint chunkArray_loop {A : Type} (fuel : nat) (array : list A) (size i : Z)
    (chunkedArr : list (list A)) : option (list (list A)) :=
  if i <? Z.of_nat (length array) then
    match fuel with
    | O => None
    | S fuel' =>
        chunkArray_loop fuel' array size (i + size)
          (chunkedArr ++ [js_slice array i (i + size)])%list
    end
  else Some chunkedArr.

Definition chunkArray {A : Type} (fuel : nat) (array : list A) (size : Z)
    : option (list (list A)) :=
  chunkArray_loop fuel array size 0 [].

End Utils.

(** ** Statements, answers and the environment *)

(** A column descriptor as [getColumnMetadata] builds it: [{name, type}]. *)
Record Column : Type := mkColumn { col_name : string; col_type : string }.

(** A configured table or view: [{schema, table}]. *)
Record Target : Type := mkTarget { tgt_schema : string; tgt_table : string }.

(** [config.replication]. *)
Record Config : Type := mkConfig {
  cfg_tables : list Target;
  cfg_views : list Target;
  chunkSize : Z;
  reset : bool
}.

(** The statements db2.js sends, with the parts it interpolates or binds. *)
Inductive Db2Stmt : Type :=
| SelectColumns (schema table : string)
| SelectKeyColumns (schema table : string)
| SelectChunk (schema table orderByClause : string) (offset size : Z)
| SelectCount (schema table : string)
| SelectViewText (schema viewName : string).

(** The statements postgres.js sends.  [Insert] keeps the quoted column
    names and the placeholder tuples as lists (the text joins them with
    commas) next to the bound values. *)
Inductive PgStmt : Type :=
| DropSchema (schema : string)
| CreateSchema (schema : string)
| CreateTable (schema table columnDefinitions : string)
| Insert (schema table : string) (columnNames : list string)
    (valuePlaceholders : list string) (values : list JsValue)
| CreateOrReplaceView (schema viewName definition : string)
| SelectCountPg (schema table : string)
| Truncate (schema table : string).

Module Sql.
Import JsString.

Definition qq (s : string) : string := dquote ++ s ++ dquote.

Definition db2_text (q : Db2Stmt) : string :=
  match q with
  | SelectColumns _ _ =>
      "SELECT COLNAME, TYPENAME, LENGTH FROM SYSCAT.COLUMNS WHERE TABSCHEMA = ? AND TABNAME = ?"
  | SelectKeyColumns _ _ =>
      "SELECT COLNAME FROM SYSCAT.KEYCOLUSE WHERE TABSCHEMA = ? AND TABNAME = ? ORDER BY COLSEQ"
  | SelectChunk schema table orderByClause offset size =>
      "SELECT * FROM " ++ schema ++ "." ++ table ++ " " ++ orderByClause
      ++ " OFFSET " ++ of_Z offset ++ " ROWS FETCH FIRST " ++ of_Z size ++ " ROWS ONLY"
  | SelectCount schema table =>
      "SELECT COUNT(*) AS COUNT FROM " ++ schema ++ "." ++ table
  | SelectViewText schema viewName =>
      "SELECT TEXT FROM SYSCAT.VIEWS WHERE VIEWSCHEMA = '" ++ schema
      ++ "' AND VIEWNAME = '" ++ viewName ++ "'"
  end.

Definition pg_text (q : PgStmt) : string :=
  match q with
  | DropSchema schema => "DROP SCHEMA IF EXISTS " ++ qq schema ++ " CASCADE"
  | CreateSchema schema => "CREATE SCHEMA IF NOT EXISTS " ++ qq schema
  | CreateTable schema table columnDefinitions =>
      "CREATE TABLE IF NOT EXISTS " ++ qq schema ++ "." ++ qq table
      ++ " (" ++ columnDefinitions ++ ")"
  | Insert schema table columnNames valuePlaceholders _ =>
      "INSERT INTO " ++ qq schema ++ "." ++ qq table
      ++ " (" ++ String.concat "," columnNames ++ ") VALUES "
      ++ String.concat "," valuePlaceholders
  | CreateOrReplaceView schema viewName definition =>
      "CREATE OR REPLACE VIEW " ++ qq schema ++ "." ++ qq viewName ++ " AS " ++ definition
  | SelectCountPg schema table => "SELECT COUNT(*) FROM " ++ qq schema ++ "." ++ qq table
  | Truncate schema table => "TRUNCATE TABLE " ++ qq schema ++ "." ++ qq table
  end.

End Sql.

Inductive JsError : Type :=
| DbError (msg : string)
| TypeError (msg : string)
| ReferenceError (ident : string).

(** [error.message]. *)
Definition message (e : JsError) : string :=
  match e with
  | DbError msg => msg
  | TypeError msg => msg
  | ReferenceError ident => ident ++ " is not defined"
  end.

(** What [pgClient.query] resolves to. *)
Record PgResult : Type := mkPgResult { pg_rows : list Row; rowCount : Z }.

(** Console and spinner output, one constructor per call site. *)
Inductive LogLine : Type :=
(* db2.js *)
| Db2Connecting
| Db2ConnectionError (msg : string)
| Db2Connected
| FailedColumnMetadata (schema table msg : string)
| FailedPrimaryKeys (schema table msg : string)
| ErrorFetchingChunk (schema table msg : string)
| ChunkQueryText (query : string)
| UnexpectedErrorFetchingChunk (schema table msg : string)
| ErrorRowCount (schema table msg : string)
| ViewDefinitionQuery (query : string)
| ErrorViewDefinition (schema viewName msg : string)
(* postgres.js *)
| SchemaDropped (schema : string)
| FailedDropSchema (schema msg : string)
| SchemaEnsured (schema : string)
| FailedEnsureSchema (schema msg : string)
| TableEnsured (schema table : string)
| FailedEnsureTable (schema table msg : string)
| SkippingEmptyChunk (schema table : string)
| SkippingEmptyValues (schema table : string)
| ValuesLengthMismatch (schema table : string)
| ValuesLengths (actual expected : Z)
| ErrorInsertingBatch (schema table msg : string)
| FailingQuery (query : string)
| ComposedQuery (query : string)
| ViewCreated (schema viewName : string)
| FailedCreateView (schema viewName msg : string)
| FailedPgRowCount (schema table msg : string)
| TableTruncated (schema table : string)
| FailedTruncate (schema table msg : string)
(* replicate.js *)
| StartingReplication
| DroppingSchema (schema : string)
| NoTablesSpecified
| StartingTableReplication
| ProcessingTable (schema table : string)
| NoViewsSpecified
| StartingViewReplication
| ProcessingView (schema viewName : string)
| ReplicationComplete
| ReplicatingTable (schema table : string)
| SkippingNoColumns (schema table : string)
| TotalRows (schema table : string) (count : Number)
| UnknownTotalRows (schema table : string)
| SkippingCountsMatch (schema table : string)
| CountsDiffer (schema table : string)
| SpinnerStart (schema table : string)
| SpinnerProgress (totalFetched : Z) (db2Count : Number)
| SpinnerProgressUnknown (totalFetched : Z)
| SpinnerFail (schema table msg : string)
| ConsoleError (error : JsError)
| SpinnerSucceed (schema table : string) (totalFetched : Z)
| CreatingView (schema viewName : string)
| ViewReplicated (schema viewName : string)
| FailedCreateViewFor (schema viewName msg : string).

(** What a run leaves behind, in order. *)
Inductive Event : Type :=
| Db2Open (answer : option JsError)
| Db2Close
| Db2Query (stmt : Db2Stmt) (answer : JsError + list Row)
| PgQuery (stmt : PgStmt) (answer : JsError + PgResult)
| Console (line : LogLine).

(** The two databases as the program sees them: a state, and an answer
    (error or result) with a next state for every statement. *)
Record Env : Type := mkEnv {
  DB : Type;
  db2_open : DB -> option JsError * DB;
  db2_query : Db2Stmt -> DB -> (JsError + list Row) * DB;
  pg_query : PgStmt -> DB -> (JsError + PgResult) * DB
}.

Inductive Completion (A : Type) : Type :=
| Returned (a : A)
| Thrown (e : JsError)
| Diverged.

Arguments Returned {A} a.
Arguments Thrown {A} e.
Arguments Diverged {A}.

(** ** The monad of asynchronous functions *)

Section Monad.
Variable E : Env.

Definition M (A : Type) : Type := DB E -> Completion A * DB E * list Event.

Definition ret {A : Type} (a : A) : M A := fun d => (Returned a, d, []).

Definition throw {A : Type} (e : JsError) : M A := fun d => (Thrown e, d, []).

Definition diverge {A : Type} : M A := fun d => (Diverged, d, []).

Definition bind {A B : Type} (m : M A) (k : A -> M B) : M B :=
  fun d =>
    match m d with
    | (Returned a, d1, ev1) =>
        match k a d1 with
        | (r, d2, ev2) => (r, d2, (ev1 ++ ev2)%list)
        end
    | (Thrown e, d1, ev1) => (Thrown e, d1, ev1)
    | (Diverged, d1, ev1) => (Diverged, d1, ev1)
    end.

(** [try { m } catch (error) { handler error }]. *)
Definition try_catch {A : Type} (m : M A) (handler : JsError -> M A) : M A :=
  fun d =>
    match m d with
    | (Thrown e, d1, ev1) =>
        match handler e d1 with
        | (r, d2, ev2) => (r, d2, (ev1 ++ ev2)%list)
        end
    | other => other
    end.

Definition log (line : LogLine) : M unit := fun d => (Returned tt, d, [Console line]).

(** [db2.query(stmt, cb)]: the callback's [(err, res)]. *)
Definition db2_call (stmt : Db2Stmt) : M (JsError + list Row) :=
  fun d =>
    match db2_query E stmt d with
    | (answer, d1) => (Returned answer, d1, [Db2Query stmt answer])
    end.

(** [await pgClient.query(stmt)]. *)
Definition pg_await (stmt : PgStmt) : M PgResult :=
  fun d =>
    match pg_query E stmt d with
    | (inl e, d1) => (Thrown e, d1, [PgQuery stmt (inl e)])
    | (inr res, d1) => (Returned res, d1, [PgQuery stmt (inr res)])
    end.

(** A synchronous step that returns or throws. *)
Definition lift {A : Type} (r : JsError + A) : M A :=
  match r with
  | inl e => throw e
  | inr a => ret a
  end.

End Monad.

Arguments ret {E A} a.
Arguments throw {E A} e.
Arguments diverge {E A}.
Arguments bind {E A B} m k.
Arguments try_catch {E A} m handler.
Arguments log {E} line.
Arguments db2_call {E} stmt.
Arguments pg_await {E} stmt.
Arguments lift {E A} r.

Notation "x <- m ;; k" := (bind m (fun x => k))
  (at level 61, m at next level, right associativity).
Notation "m ;; k" := (bind m (fun _ => k))
  (at level 61, right associativity).

(** [for (const x of l) { await body x }]. *)
Fixpoint for_each {E : Env} {A : Type} (l : list A) (body : A -> M E unit) : M E unit :=
  match l with
  | [] => ret tt
  | x :: rest => body x ;; for_each rest body
  end.

(** [array.map(f)] for an [f] that may throw. *)
Fixpoint map_or_throw {A B : Type} (f : A -> JsError + B) (l : list A) : JsError + list B :=
  match l with
  | [] => inr []
  | x :: rest =>
      match f x with
      | inl e => inl e
      | inr y =>
          match map_or_throw f rest with
          | inl e => inl e
          | inr ys => inr (y :: ys)
          end
      end
  end.

(** ** src/db2.js *)

Module Db2.
Import JsString.

Section WithEnv.
Variable E : Env.

(** The promise around [db2.query]: resolve with the rows or reject
    with the error. *)
Definition query (stmt : Db2Stmt) : M E (list Row) :=
  answer <- db2_call stmt ;; lift answer.

Definition connectDB2 : M E unit :=
  log Db2Connecting ;;
  fun d =>
    match db2_open E d with
    | (Some err, d1) =>
        (Thrown err, d1, [Db2Open (Some err); Console (Db2ConnectionError (message err))])
    | (None, d1) => (Returned tt, d1, [Db2Open None; Console Db2Connected])
    end.

(** [row.COLNAME.trim()]; calling [trim] on anything but a string is a
    TypeError. *)
Definition colname_trim (row : Row) : JsError + string :=
  match row_get row "COLNAME" with
  | JStr s => inr (trim s)
  | JNull => inl (TypeError "Cannot read properties of null (reading 'trim')")
  | JUndefined => inl (TypeError "Cannot read properties of undefined (reading 'trim')")
  | JNum _ => inl (TypeError "COLNAME.trim is not a function")
  end.

Definition column_of_row (col : Row) : JsError + Column :=
  match colname_trim col with
  | inl e => inl e
  | inr name =>
      inr (mkColumn name
             (Utils.mapDb2ToPostgresType (row_get col "TYPENAME") (row_get col "LENGTH")))
  end.

Definition getColumnMetadata (schema table : string) : M E (list Column) :=
  try_catch
    (result <- query (SelectColumns (toUpperCase schema) (toUpperCase table)) ;;
     lift (map_or_throw column_of_row result))
    (fun error =>
       log (FailedColumnMetadata schema table (message error)) ;;
       ret []).

Definition getPrimaryKeys (schema table : string) : M E (list string) :=
  try_catch
    (result <- query (SelectKeyColumns (toUpperCase schema) (toUpperCase table)) ;;
     lift (map_or_throw colname_trim result))
    (fun error =>
       log (FailedPrimaryKeys schema table (message error)) ;;
       ret []).

Definition orderByClause_of (primaryKeys : list string) : string :=
  match primaryKeys with
  | [] => ""
  | _ => "ORDER BY " ++ String.concat ", " (map (fun pk => Sql.qq pk ++ " ASC") primaryKeys)
  end.

Definition fetchChunk (schema table : string) (columns : list Column)
    (chunkSize offset : Z) : M E (list Row) :=
  primaryKeys <- getPrimaryKeys (toUpperCase schema) (toUpperCase table) ;;
  let orderByClause := orderByClause_of primaryKeys in
  let stmt := SelectChunk schema table orderByClause offset chunkSize in
  try_catch
    (answer <- db2_call stmt ;;
     match answer with
     | inl err =>
         log (ErrorFetchingChunk schema table (message err)) ;;
         log (ChunkQueryText (Sql.db2_text stmt)) ;;
         throw err
     | inr res => ret res
     end)
    (fun error =>
       log (UnexpectedErrorFetchingChunk schema table (message error)) ;;
       ret []).

(** [result.length && result[0].COUNT], then [parseInt(.., 10)]. *)
Definition count_of_rows (result : list Row) : Number :=
  match result with
  | [] => Finite 0
  | first :: _ =>
      if truthy (row_get first "COUNT")
      then parseInt10 (ToString (row_get first "COUNT"))
      else Finite 0
  end.

Definition getDb2RowCount (schema table : string) : M E Number :=
  try_catch
    (result <- query (SelectCount (toUpperCase schema) (toUpperCase table)) ;;
     ret (count_of_rows result))
    (fun error =>
       log (ErrorRowCount schema table (message error)) ;;
       ret (Finite 0)).

(** The text handling of [getViewDefinition] once the catalog row is
    there: cut after the first "AS" of the upper-cased text, trim,
    qualify the one known cross-schema reference. *)
Definition select_of_view_text (viewDefinition : string) : string :=
  let asIndex := indexOf (toUpperCase viewDefinition) "AS" in
  if negb (asIndex =? -1) then
    let selectStatement := trim (substring_from viewDefinition (asIndex + 2)) in
    replaceAll selectStatement "EDM_COMP.LOCN_COMPANY_XREF"
      (Sql.qq "EDM_COMP" ++ "." ++ Sql.qq "LOCN_COMPANY_XREF")
  else "".

Definition view_text_of_rows (result : list Row) : JsError + string :=
  match result with
  | [] => inr ""
  | first :: _ =>
      match row_get first "TEXT" with
      | JStr s => if String.eqb s "" then inr "" else inr (select_of_view_text s)
      | JNum z =>
          if z =? 0 then inr ""
          else inl (TypeError "viewDefinition.toUpperCase is not a function")
      | JNull | JUndefined => inr ""
      end
  end.

Definition getViewDefinition (schema viewName : string) : M E string :=
  try_catch
    (let stmt := SelectViewText schema viewName in
     log (ViewDefinitionQuery (Sql.db2_text stmt)) ;;
     result <- query stmt ;;
     lift (view_text_of_rows result))
    (fun error =>
       log (ErrorViewDefinition schema viewName (message error)) ;;
       ret "").

End WithEnv.
End Db2.

(** ** src/postgres.js *)

Module Postgres.
Import JsString.

Section WithEnv.
Variable E : Env.

Definition dropSchema (schema : string) : M E unit :=
  try_catch
    (pg_await (DropSchema schema) ;; log (SchemaDropped schema))
    (fun error => log (FailedDropSchema schema (message error)) ;; throw error).

Definition ensureSchemaExists (schema : string) : M E unit :=
  try_catch
    (pg_await (CreateSchema schema) ;; log (SchemaEnsured schema))
    (fun error => log (FailedEnsureSchema schema (message error)) ;; throw error).

Definition columnDefinitions_of (columns : list Column) : string :=
  String.concat ", " (map (fun col => Sql.qq (col_name col) ++ " " ++ col_type col) columns).

Definition ensureTableExists (schema table : string) (columns : list Column)
    (primaryKeys : list string) : M E unit :=
  let columnDefinitions := columnDefinitions_of columns in
  try_catch
    (pg_await (CreateTable schema table columnDefinitions) ;;
     log (TableEnsured schema table))
    (fun error => log (FailedEnsureTable schema table (message error)) ;; throw error).

Definition batchSize : Z := 1000.

(** The placeholder tuple of one row of a sub-batch. *)
Definition placeholders_of (columns : list Column) (batch : list Row) (row : Row) : string :=
  "(" ++ String.concat ","
           (mapi (fun (col : Column) index =>
                    "$" ++ of_Z (index + 1
                                 + Z.of_nat (length columns) * row_indexOf batch row))
                 columns)
      ++ ")".

(** [batch.flatMap((row) => columns.map((col) => row[col.name]))]. *)
Definition values_of (columns : list Column) (batch : list Row) : list JsValue :=
  flat_map (fun row => map (fun col => row_get row (col_name col)) columns) batch.

(** The [for] loop of [insertIntoPostgres], from index [i] with
    [totalInserted] so far. *)
Fixpoint insert_loop (fuel : nat) (schema table : string) (columns : list Column)
    (chunk : list Row) (i totalInserted : Z) : M E Z :=
  if i <? Z.of_nat (length chunk) then
    match fuel with
    | O => diverge
    | S fuel' =>
        let batch := js_slice chunk i (i + batchSize) in
        let columnNames := map (fun col => Sql.qq (col_name col)) columns in
        let valuePlaceholders := map (placeholders_of columns batch) batch in
        let values := values_of columns batch in
        let stmt := Insert schema table columnNames valuePlaceholders values in
        if (length values =? 0)%nat then
          log (SkippingEmptyValues schema table) ;;
          insert_loop fuel' schema table columns chunk (i + batchSize) totalInserted
        else if negb (length values =? length columns * length batch)%nat then
          log (ValuesLengthMismatch schema table) ;;
          log (FailingQuery (Sql.pg_text stmt)) ;;
          log (ValuesLengths (Z.of_nat (length values))
                 (Z.of_nat (length columns * length batch))) ;;
          insert_loop fuel' schema table columns chunk (i + batchSize) totalInserted
        else
          inserted <-
            try_catch
              (result <- pg_await stmt ;; ret (totalInserted + rowCount result))
              (fun error =>
                 log (ErrorInsertingBatch schema table (message error)) ;;
                 log (FailingQuery (Sql.pg_text stmt)) ;;
                 throw error) ;;
          insert_loop fuel' schema table columns chunk (i + batchSize) inserted
    end
  else ret totalInserted.

Definition insertIntoPostgres (schema table : string) (columns : list Column)
    (chunk : list Row) : M E Z :=
  match chunk with
  | [] => log (SkippingEmptyChunk schema table) ;; ret 0
  | _ => insert_loop (length chunk) schema table columns chunk 0 0
  end.

(** The bindings a template literal inside the [catch] block of
    [createView] can read: the caught error, the parameters, and the
    module's own bindings (no global of Node is named [query]).  The
    [const]s of the [try] block are not among them. *)
Definition createView_catch_scope (schema viewName viewDefinition : string)
    (error : JsError) : list (string * string) :=
  [ ("error", message error);
    ("pgClient", "[object Object]");
    ("schema", schema);
    ("viewName", viewName);
    ("viewDefinition", viewDefinition);
    ("pkg", "[object Object]");
    ("config", "[object Object]");
    ("chalk", "[object Object]");
    ("Client", "[function]");
    ("dropSchema", "[function]");
    ("ensureSchemaExists", "[function]");
    ("ensureTableExists", "[function]");
    ("getLastPrimaryKey", "[function]");
    ("insertIntoPostgres", "[function]");
    ("createView", "[function]");
    ("getPostgresRowCount", "[function]");
    ("truncateTable", "[function]") ].

(** Reading an identifier: its value, or a ReferenceError when no
    binding is in scope. *)
Definition read_identifier (scope : list (string * string)) (ident : string) : M E string :=
  match Utils.lookup_key scope ident with
  | Some v => ret v
  | None => throw (ReferenceError ident)
  end.

Definition createView (schema viewName viewDefinition : string) : M E unit :=
  try_catch
    (let postgresViewDefinition := replaceFirst_ci viewDefinition "WITH UR" "" in
     let query := CreateOrReplaceView schema viewName postgresViewDefinition in
     log (ComposedQuery (Sql.pg_text query)) ;;
     pg_await query ;;
     log (ViewCreated schema viewName))
    (fun error =>
       log (FailedCreateView schema viewName (message error)) ;;
       query <- read_identifier
                  (createView_catch_scope schema viewName viewDefinition error) "query" ;;
       log (FailingQuery query) ;;
       throw error).

(** [parseInt(result.rows[0].count, 10)]. *)
Definition count_of_result (result : PgResult) : JsError + Number :=
  match pg_rows result with
  | [] => inl (TypeError "Cannot read properties of undefined (reading 'count')")
  | first :: _ => inr (parseInt10 (ToString (row_get first "count")))
  end.

Definition getPostgresRowCount (schema table : string) : M E Number :=
  try_catch
    (result <- pg_await (SelectCountPg schema table) ;;
     lift (count_of_result result))
    (fun error =>
       log (FailedPgRowCount schema table (message error)) ;;
       ret (Finite (-1))).

Definition truncateTable (schema table : string) : M E unit :=
  try_catch
    (pg_await (Truncate schema table) ;; log (TableTruncated schema table))
    (fun error => log (FailedTruncate schema table (message error)) ;; throw error).

End WithEnv.
End Postgres.

(** ** src/replicate.js *)

Module Replicate.
Import JsString.

(** [[...new Set(list)]]: first occurrences, in order. *)
Fixpoint unique (l : list string) : list string :=
  match l with
  | [] => []
  | x :: rest => x :: filter (fun y => negb (String.eqb y x)) (unique rest)
  end.

Definition uniqueSchemas (config : Config) : list string :=
  unique (map tgt_schema (cfg_tables config ++ cfg_views config)).

Section WithEnv.
Variable E : Env.
Variable config : Config.

(** The [catch] block of the transfer loop: report and [break].
    [totalFetched] is the value the variable holds when the exception
    arrives. *)
Definition transfer_catch (schema table : string) (totalFetched : Z) (error : JsError)
    : M E (Z * option Z) :=
  log (SpinnerFail schema table (message error)) ;;
  log (ConsoleError error) ;;
  ret (totalFetched, None).

(** One pass through the body of [while (hasMoreData)]: the new
    [totalFetched], and the next [offset] or [None] after a [break].
    The one [try] block is written as two nested ones with the same
    handler, because [totalFetched] is assigned between the two calls
    that can throw and keeps its new value in the handler. *)
Definition transfer_step (schema table db2Schema db2Table : string)
    (columns : list Column) (db2Count : Number) (totalFetched offset : Z)
    : M E (Z * option Z) :=
  try_catch
    (chunk <- Db2.fetchChunk E db2Schema db2Table columns (chunkSize config) offset ;;
     match chunk with
     | [] => ret (totalFetched, None)
     | _ =>
         let totalFetched' := totalFetched + Z.of_nat (length chunk) in
         try_catch
           (insertedCount <- Postgres.insertIntoPostgres E schema table columns chunk ;;
            let offset' := offset + chunkSize config in
            (if positive db2Count
             then log (SpinnerProgress totalFetched' db2Count)
             else log (SpinnerProgressUnknown totalFetched')) ;;
            ret (totalFetched', Some offset'))
           (transfer_catch schema table totalFetched')
     end)
    (transfer_catch schema table totalFetched).

Fixpoint transfer_loop (fuel : nat) (schema table db2Schema db2Table : string)
    (columns : list Column) (db2Count : Number) (totalFetched offset : Z) : M E Z :=
  match fuel with
  | O => diverge
  | S fuel' =>
      step <- transfer_step schema table db2Schema db2Table columns db2Count
                totalFetched offset ;;
      match step with
      | (fetched, Some offset') =>
          transfer_loop fuel' schema table db2Schema db2Table columns db2Count
            fetched offset'
      | (fetched, None) => ret fetched
      end
  end.

(** The reconciliation of lines 100-109: [true] to go on to the reload,
    [false] for the early [return]. *)
Definition reconcile (schema table : string) (db2Count : Number) : M E bool :=
  if negb (reset config) then
    postgresCount <- Postgres.getPostgresRowCount E schema table ;;
    if strict_equal postgresCount db2Count then
      log (SkippingCountsMatch schema table) ;; ret false
    else
      log (CountsDiffer schema table) ;;
      Postgres.truncateTable E schema table ;;
      ret true
  else ret true.

Definition replicateTable (fuel : nat) (schema table : string) : M E unit :=
  let db2Schema := toUpperCase schema in
  let db2Table := toUpperCase table in
  log (ReplicatingTable schema table) ;;
  columns <- Db2.getColumnMetadata E db2Schema db2Table ;;
  primaryKeys <- Db2.getPrimaryKeys E db2Schema db2Table ;;
  match columns with
  | [] => log (SkippingNoColumns schema table)
  | _ =>
      Postgres.ensureTableExists E schema table columns primaryKeys ;;
      db2Count <- Db2.getDb2RowCount E db2Schema db2Table ;;
      (if positive db2Count
       then log (TotalRows schema table db2Count)
       else log (UnknownTotalRows schema table)) ;;
      reload <- reconcile schema table db2Count ;;
      if reload then
        log (SpinnerStart schema table) ;;
        totalFetched <- transfer_loop fuel schema table db2Schema db2Table
                          columns db2Count 0 0 ;;
        log (SpinnerSucceed schema table totalFetched)
      else ret tt
  end.

Definition replicateView (schema viewName : string) : M E unit :=
  log (CreatingView schema viewName) ;;
  try_catch
    (viewDefinition <- Db2.getViewDefinition E (toUpperCase schema) (toUpperCase viewName) ;;
     Postgres.createView E schema viewName viewDefinition ;;
     log (ViewReplicated schema viewName))
    (fun error => log (FailedCreateViewFor schema viewName (message error))).

Definition replicateTables (fuel : nat) (tables : list Target) : M E unit :=
  for_each tables
    (fun t =>
       log (ProcessingTable (tgt_schema t) (tgt_table t)) ;;
       replicateTable fuel (tgt_schema t) (tgt_table t)).

Definition replicateViews (views : list Target) : M E unit :=
  for_each views
    (fun v =>
       log (ProcessingView (tgt_schema v) (tgt_table v)) ;;
       replicateView (tgt_schema v) (tgt_table v)).

Definition close : M E unit := fun d => (Returned tt, d, [Db2Close]).

(** [fuel] bounds the passes of each table's transfer loop. *)
Definition replicateAll (fuel : nat) : M E unit :=
  log StartingReplication ;;
  Db2.connectDB2 E ;;
  (if reset config then
     for_each (uniqueSchemas config)
       (fun schema => log (DroppingSchema schema) ;; Postgres.dropSchema E schema)
   else ret tt) ;;
  for_each (uniqueSchemas config) (Postgres.ensureSchemaExists E) ;;
  match cfg_tables config with
  | [] => log NoTablesSpecified
  | tables => log StartingTableReplication ;; replicateTables fuel tables
  end ;;
  match cfg_views config with
  | [] => log NoViewsSpecified
  | views => log StartingViewReplication ;; replicateViews views
  end ;;
  log ReplicationComplete ;;
  close.

End WithEnv.
End Replicate.

(** ** A reference environment

    Two small in-memory databases that answer the statements above: the
    source holds catalog rows, key rows and table rows, the destination
    holds the rows inserted so far.  Either side can be told to reject a
    class of statements.  The general theorems below hold for every
    environment; this one supplies concrete runs. *)

Module Sim.

Record SourceTable : Type := mkSourceTable {
  st_schema : string;
  st_name : string;
  st_columns : list Row;
  st_keys : list Row;
  st_rows : list Row
}.

Record SourceView : Type := mkSourceView {
  sv_schema : string;
  sv_name : string;
  sv_text : string
}.

Record DestTable : Type := mkDestTable {
  dt_schema : string;
  dt_name : string;
  dt_rows : list (list JsValue)
}.

Record State : Type := mkState {
  dest_tables : list DestTable;
  dest_views : list (string * string * string)
}.

Record Setup : Type := mkSetup {
  source_tables : list SourceTable;
  source_views : list SourceView;
  db2_rejects : Db2Stmt -> bool;
  pg_rejects : PgStmt -> bool
}.

Definition is_table (schema table : string) (t : SourceTable) : bool :=
  String.eqb (st_schema t) schema && String.eqb (st_name t) table.

Definition is_dest (schema table : string) (t : DestTable) : bool :=
  String.eqb (dt_schema t) schema && String.eqb (dt_name t) table.

Definition count_row (n : nat) : Row := mkRow 0 [("COUNT", JNum (Z.of_nat n))].

Definition source_answer (s : Setup) (stmt : Db2Stmt) : JsError + list Row :=
  if db2_rejects s stmt then inl (DbError "SQL0901N") else
  match stmt with
  | SelectColumns schema table =>
      match find (is_table schema table) (source_tables s) with
      | Some t => inr (st_columns t)
      | None => inr []
      end
  | SelectKeyColumns schema table =>
      match find (is_table schema table) (source_tables s) with
      | Some t => inr (st_keys t)
      | None => inr []
      end
  | SelectChunk schema table _ offset size =>
      match find (is_table schema table) (source_tables s) with
      | Some t =>
          if (0 <=? offset) && (0 <? size)
          then inr (firstn (Z.to_nat size) (skipn (Z.to_nat offset) (st_rows t)))
          else inl (DbError "SQL0104N")
      | None => inl (DbError "SQL0204N")
      end
  | SelectCount schema table =>
      match find (is_table schema table) (source_tables s) with
      | Some t => inr [count_row (length (st_rows t))]
      | None => inl (DbError "SQL0204N")
      end
  | SelectViewText schema viewName =>
      match find (fun v => String.eqb (sv_schema v) schema && String.eqb (sv_name v) viewName)
              (source_views s) with
      | Some v => inr [mkRow 0 [("TEXT", JStr (sv_text v))]]
      | None => inr []
      end
  end.

(** The value tuples of an INSERT: [nrows] runs of [ncols] values. *)
Definition tuples_of (ncols nrows : nat) (values : list JsValue) : list (list JsValue) :=
  map (fun k => firstn ncols (skipn (k * ncols) values)) (seq 0 nrows).

Definition ok (rows : list Row) (n : Z) : JsError + PgResult := inr (mkPgResult rows n).

Definition dest_step (stmt : PgStmt) (st : State) : (JsError + PgResult) * State :=
  match stmt with
  | DropSchema schema =>
      (ok [] 0,
       mkState (filter (fun t => negb (String.eqb (dt_schema t) schema)) (dest_tables st))
               (dest_views st))
  | CreateSchema _ => (ok [] 0, st)
  | CreateTable schema table _ =>
      match find (is_dest schema table) (dest_tables st) with
      | Some _ => (ok [] 0, st)
      | None => (ok [] 0, mkState (dest_tables st ++ [mkDestTable schema table []])
                                  (dest_views st))
      end
  | Insert schema table columnNames valuePlaceholders values =>
      match find (is_dest schema table) (dest_tables st) with
      | Some _ =>
          let added := tuples_of (length columnNames) (length valuePlaceholders) values in
          (ok [] (Z.of_nat (length valuePlaceholders)),
           mkState (map (fun t => if is_dest schema table t
                                  then mkDestTable schema table (dt_rows t ++ added)
                                  else t) (dest_tables st))
                   (dest_views st))
      | None => (inl (DbError "relation does not exist"), st)
      end
  | CreateOrReplaceView schema viewName definition =>
      (ok [] 0, mkState (dest_tables st) (dest_views st ++ [(schema, viewName, definition)]))
  | SelectCountPg schema table =>
      match find (is_dest schema table) (dest_tables st) with
      | Some t =>
          (ok [mkRow 0 [("count", JStr (JsString.of_Z (Z.of_nat (length (dt_rows t)))))]] 1, st)
      | None => (inl (DbError "relation does not exist"), st)
      end
  | Truncate schema table =>
      match find (is_dest schema table) (dest_tables st) with
      | Some _ =>
          (ok [] 0,
           mkState (map (fun t => if is_dest schema table t
                                  then mkDestTable schema table [] else t) (dest_tables st))
                   (dest_views st))
      | None => (inl (DbError "relation does not exist"), st)
      end
  end.

Definition env (s : Setup) : Env :=
  mkEnv State
    (fun st => (None, st))
    (fun stmt st => (source_answer s stmt, st))
    (fun stmt st =>
       if pg_rejects s stmt then (inl (DbError "rejected"), st) else dest_step stmt st).

Definition empty : State := mkState [] [].

(** The rows of a destination table, none when it does not exist. *)
Definition rows_of (schema table : string) (st : State) : list (list JsValue) :=
  match find (is_dest schema table) (dest_tables st) with
  | Some t => dt_rows t
  | None => []
  end.

Definition nothing_rejected {A : Type} (_ : A) : bool := false.

(** A catalog row of SYSCAT.COLUMNS. *)
Definition catalog_row (name typename : string) (len : Z) : Row :=
  mkRow 0 [("COLNAME", JStr name); ("TYPENAME", JStr typename); ("LENGTH", JNum len)].

(** A two-column table (ID INTEGER, NAME VARCHAR), keyed by ID, with the
    given number of rows. *)
Definition order_row (k : nat) : Row :=
  mkRow (S k) [("ID", JNum (Z.of_nat k)); ("NAME", JStr "n")].

Definition keyed_table (schema name : string) (n : nat) : SourceTable :=
  mkSourceTable schema name
    [catalog_row "ID" "INTEGER" 4; catalog_row "NAME" "VARCHAR" 20]
    [mkRow 0 [("COLNAME", JStr "ID")]]
    (map order_row (seq 0 n)).

Definition orders (schema : string) (n : nat) : SourceTable :=
  keyed_table schema "ORDERS" n.

End Sim.

(** ** Definitions the statements below are phrased with *)

(** The source types [mapDb2ToPostgresType] sends to a numeric
    destination type. *)
Definition numeric_source_types : list string :=
  ["INTEGER"; "SMALLINT"; "BIGINT"; "DECIMAL"; "DOUBLE"; "REAL"].

(** Whether a character occurs in a string. *)
Fixpoint mem (c : ascii) (s : string) : bool :=
  match s with
  | EmptyString => false
  | String a r => Ascii.eqb a c || mem c r
  end.

Section InsertBatches.
Variable E : Env.
Variables schema table : string.
Variable columns : list Column.

(** The statement [insertIntoPostgres] composes for one sub-batch. *)
Definition insert_stmt (batch : list Row) : PgStmt :=
  Insert schema table
    (map (fun col => Sql.qq (col_name col)) columns)
    (map (Postgres.placeholders_of columns batch) batch)
    (Postgres.values_of columns batch).

(** What the loop of [insertIntoPostgres] comes to, sub-batch by
    sub-batch: with no column nothing is sent, otherwise one INSERT per
    sub-batch, the first failure being logged and thrown again. *)
Fixpoint insert_batches (batches : list (list Row)) (totalInserted : Z) : M E Z :=
  match batches with
  | [] => ret totalInserted
  | batch :: rest =>
      match columns with
      | [] =>
          log (SkippingEmptyValues schema table) ;;
          insert_batches rest totalInserted
      | _ =>
          inserted <-
            try_catch
              (result <- pg_await (insert_stmt batch) ;;
               ret (totalInserted + rowCount result))
              (fun error =>
                 log (ErrorInsertingBatch schema table (message error)) ;;
                 log (FailingQuery (Sql.pg_text (insert_stmt batch))) ;;
                 throw error) ;;
          insert_batches rest inserted
      end
  end.

End InsertBatches.

(** The destination statements among the events of a run, with their
    answers. *)
Fixpoint pg_issued (evs : list Event) : list (PgStmt * (JsError + PgResult)) :=
  match evs with
  | [] => []
  | PgQuery stmt answer :: rest => (stmt, answer) :: pg_issued rest
  | _ :: rest => pg_issued rest
  end.

Definition succeeded (results : list PgResult) : list (JsError + PgResult) :=
  map inr results.

(** Sum of [rowCount] over results. *)
Definition rows_affected (results : list PgResult) : Z :=
  fold_right (fun res acc => rowCount res + acc) 0 results.

(** The contract of [insertIntoPostgres] on one call: either every
    sub-batch of 1000 got its INSERT, in order, all succeeded, and the sum
    of their affected-row counts is returned; or the INSERTs went out in
    order up to the first one the database refused, and its error is
    thrown. *)
Definition insert_contract (E : Env) (schema table : string) (columns : list Column)
    (chunk : list Row) (d : DB E) : Prop :=
  let batches := slices 1000 chunk in
  match Postgres.insertIntoPostgres E schema table columns chunk d with
  | (r, _, evs) =>
      (exists results,
          length results = length batches
          /\ pg_issued evs
             = combine (map (insert_stmt schema table columns) batches) (succeeded results)
          /\ r = Returned (rows_affected results))
      \/ (exists k results err,
             (k < length batches)%nat
             /\ length results = k
             /\ pg_issued evs
                = (combine (map (insert_stmt schema table columns) (firstn k batches))
                     (succeeded results)
                   ++ [(insert_stmt schema table columns (nth k batches []), inl err)])%list
             /\ r = Thrown err)
  end.

(** The two lines only the parameter-count guard prints. *)
Definition is_mismatch_report (e : Event) : bool :=
  match e with
  | Console (ValuesLengthMismatch _ _) => true
  | Console (ValuesLengths _ _) => true
  | _ => false
  end.

(** ** Classes of events *)

Definition is_create_table (e : Event) : bool :=
  match e with
  | PgQuery (CreateTable _ _ _) _ => true
  | _ => false
  end.

Definition is_truncate (e : Event) : bool :=
  match e with
  | PgQuery (Truncate _ _) _ => true
  | _ => false
  end.

Definition is_insert (e : Event) : bool :=
  match e with
  | PgQuery (Insert _ _ _ _ _) _ => true
  | _ => false
  end.

Definition is_chunk_fetch (e : Event) : bool :=
  match e with
  | Db2Query (SelectChunk _ _ _ _ _) _ => true
  | _ => false
  end.

(** Console output and catalog reads of the source: what the metadata
    helpers of db2.js leave behind. *)
Definition is_catalog_read (e : Event) : bool :=
  match e with
  | Console _ => true
  | Db2Query (SelectColumns _ _) _ => true
  | Db2Query (SelectKeyColumns _ _) _ => true
  | Db2Query (SelectCount _ _) _ => true
  | _ => false
  end.

(** The destination statements that change the rows of a table. *)
Definition changes_rows (stmt : PgStmt) : bool :=
  match stmt with
  | Insert _ _ _ _ _ => true
  | Truncate _ _ => true
  | DropSchema _ => true
  | _ => false
  end.

(** An observation of the database state that no source statement and no
    destination statement other than INSERT, TRUNCATE and DROP SCHEMA can
    change: the rows of the destination tables, for one. *)
Definition rows_observation (E : Env) {X : Type} (obs : DB E -> X) : Prop :=
  (forall stmt d, obs (snd (db2_query E stmt d)) = obs d)
  /\ (forall stmt d, changes_rows stmt = false -> obs (snd (pg_query E stmt d)) = obs d).

(** What [getDb2RowCount] makes of the answer to its count query. *)
Definition source_count (answer : JsError + list Row) : Number :=
  match answer with
  | inl _ => Finite 0
  | inr result => Db2.count_of_rows result
  end.

(** What [getPostgresRowCount] makes of the answer to its count query. *)
Definition destination_count (answer : JsError + PgResult) : Number :=
  match answer with
  | inl _ => Finite (-1)
  | inr result =>
      match Postgres.count_of_result result with
      | inl _ => Finite (-1)
      | inr n => n
      end
  end.

(** ** Measures of a transfer *)

(** The answers to the chunk fetches among the events, in order. *)
Fixpoint fetched_chunks (evs : list Event) : list (JsError + list Row) :=
  match evs with
  | [] => []
  | Db2Query (SelectChunk _ _ _ _ _) answer :: rest => answer :: fetched_chunks rest
  | _ :: rest => fetched_chunks rest
  end.

(** The rows the destination reports as inserted, summed over the
    successful INSERTs among the events. *)
Fixpoint inserted_rows (evs : list Event) : Z :=
  match evs with
  | [] => 0
  | PgQuery (Insert _ _ _ _ _) (inr result) :: rest => rowCount result + inserted_rows rest
  | _ :: rest => inserted_rows rest
  end.

(** [ceil(n / c)] for a positive [c]. *)
Definition ceil_div (n c : Z) : Z := (n + c - 1) / c.

(** The page OFFSET [offset] ROWS FETCH FIRST [size] ROWS ONLY of a
    table. *)
Definition page (rows : list Row) (offset size : Z) : list Row :=
  firstn (Z.to_nat size) (skipn (Z.to_nat offset) rows).

(** Every fetch and every insert of a table's transfer succeeds: on the
    states satisfying [Inv] (which the source statements and these
    INSERTs preserve), a chunk query on the source table answers with the
    page of [rows] it asks for, and an INSERT into the destination table
    answers with as many affected rows as it has value tuples. *)
Record transfer_succeeds (E : Env) (Inv : DB E -> Prop) (schema table db2Schema db2Table : string)
    (size : Z) (rows : list Row) : Prop := {
  source_keeps :
    forall stmt d, Inv d -> Inv (snd (db2_query E stmt d));
  fetch_answers :
    forall orderBy offset d,
      0 <= offset -> Inv d ->
      fst (db2_query E (SelectChunk db2Schema db2Table orderBy offset size) d)
      = inr (page rows offset size);
  insert_answers :
    forall names placeholders values d,
      Inv d ->
      exists result d1,
        pg_query E (Insert schema table names placeholders values) d = (inr result, d1)
        /\ rowCount result = Z.of_nat (length placeholders)
        /\ Inv d1
}.

(** No TRUNCATE, no chunk fetch, no INSERT. *)
Definition no_reload (e : Event) : Prop :=
  is_truncate e = false /\ is_chunk_fetch e = false /\ is_insert e = false.

(** ** Concrete set-ups for the reference environment *)

Module Scenario.


(** A source with SALES.ORDERS (five rows) and the view SALES.BASE;
    nothing is rejected. *)
Definition shop : Sim.Setup :=
  Sim.mkSetup
    [Sim.orders "SALES" 5]
    [Sim.mkSourceView "SALES" "BASE" "CREATE VIEW SALES.BASE AS SELECT ID FROM SALES.ORDERS"]
    Sim.nothing_rejected
    Sim.nothing_rejected.

Definition order_columns : list Column :=
  [mkColumn "ID" "INTEGER"; mkColumn "NAME" "TEXT"].

(** A destination that already holds an empty sales.orders. *)
Definition provisioned : Sim.State :=
  Sim.mkState [Sim.mkDestTable "sales" "orders" []] [].


(** A source whose destination refuses to create views. *)
Definition views_refused : Sim.Setup :=
  Sim.mkSetup
    [Sim.orders "SALES" 5]
    [Sim.mkSourceView "SALES" "BASE" "CREATE VIEW SALES.RECENT AS SELECT ID FROM SALES.ORDERS"]
    Sim.nothing_rejected
    (fun stmt => match stmt with CreateOrReplaceView _ _ _ => true | _ => false end).

(** A source whose catalog cannot be read. *)
Definition catalog_down : Sim.Setup :=
  Sim.mkSetup
    [Sim.orders "SALES" 5]
    []
    (fun stmt => match stmt with SelectColumns _ _ => true | _ => false end)
    Sim.nothing_rejected.

(** Replicate sales.orders and the view sales.base, two rows at a time,
    without reset. *)
Definition one_table : Config :=
  mkConfig [mkTarget "sales" "orders"] [mkTarget "sales" "base"] 2 false.

(** A destination whose sales.orders already holds the five rows. *)
Definition in_sync : Sim.State :=
  Sim.mkState
    [Sim.mkDestTable "sales" "orders"
       (map (fun k => [JNum (Z.of_nat k); JStr "n"]) (seq 0 5))]
    [].


(** Two tables and a view to replicate. *)
Definition two_tables : Config :=
  mkConfig [mkTarget "sales" "orders"; mkTarget "sales" "items"]
    [mkTarget "sales" "base"] 2 false.

Definition source_tables : list Sim.SourceTable :=
  [Sim.orders "SALES" 5; Sim.keyed_table "SALES" "ITEMS" 3].

Definition source_views : list Sim.SourceView :=
  [Sim.mkSourceView "SALES" "BASE" "CREATE VIEW SALES.RECENT AS SELECT ID FROM SALES.ORDERS"].

(** The destination refuses CREATE TABLE for orders. *)
Definition create_refused : Sim.Setup :=
  Sim.mkSetup source_tables source_views Sim.nothing_rejected
    (fun stmt => match stmt with
                 | CreateTable _ table _ => String.eqb table "orders"
                 | _ => false
                 end).

(** The destination refuses TRUNCATE for orders. *)
Definition truncate_refused : Sim.Setup :=
  Sim.mkSetup source_tables source_views Sim.nothing_rejected
    (fun stmt => match stmt with
                 | Truncate _ table => String.eqb table "orders"
                 | _ => false
                 end).

(** The destination refuses every INSERT into orders. *)
Definition insert_refused : Sim.Setup :=
  Sim.mkSetup source_tables source_views Sim.nothing_rejected
    (fun stmt => match stmt with
                 | Insert _ table _ _ _ => String.eqb table "orders"
                 | _ => false
                 end).

(** A destination whose sales.orders holds one stale row. *)
Definition stale : Sim.State :=
  Sim.mkState [Sim.mkDestTable "sales" "orders" [[JNum 9; JStr "old"]]] [].

(** The shop with an empty SALES.ORDERS. *)
Definition empty_shop : Sim.Setup :=
  Sim.mkSetup [Sim.orders "SALES" 0] [] Sim.nothing_rejected Sim.nothing_rejected.

(** The destination holds sales.orders. *)
Definition has_orders (st : Sim.State) : Prop :=
  exists t, find (Sim.is_dest "sales" "orders") (Sim.dest_tables st) = Some t.

End Scenario.

From Stdlib Require DecimalPos.

(** ** src/utils.js: the remaining helpers *)

Module UtilsRest.
Import JsString.

(** [acc[key] = value] on an object: an existing property takes the
    value, a new one is added.  Only lookups are made on the result, the
    order of its properties is not observed. *)
Fixpoint set_prop (props : list (string * JsValue)) (key : string) (value : JsValue)
    : list (string * JsValue) :=
  match props with
  | [] => [(key, value)]
  | (k, v) :: rest =>
      if String.eqb k key then (k, value) :: rest
      else (k, v) :: set_prop rest key value
  end.

(** [primaryKeys.reduce((acc, key) => { acc[key] = lastRow[key]; return acc; }, acc)]. *)
Fixpoint reduce_keys (lastRow : Row) (primaryKeys : list string)
    (acc : list (string * JsValue)) : list (string * JsValue) :=
  match primaryKeys with
  | [] => acc
  | key :: rest => reduce_keys lastRow rest (set_prop acc key (row_get lastRow key))
  end.

(** [getLastPrimaryKeyFromChunk]; [None] is [null]. *)
Definition getLastPrimaryKeyFromChunk (chunk : list Row) (primaryKeys : list string)
    : option (list (string * JsValue)) :=
  match chunk, primaryKeys with
  | [], _ => None
  | _, [] => None
  | first :: _, _ => Some (reduce_keys (last chunk first) primaryKeys [])
  end.

(** What [formatTimestampForDB2] reads of a [Date]: the values of its six
    getters. *)
Record JsDate : Type := mkDate {
  getFullYear : Z;
  getMonth : Z;
  getDate : Z;
  getHours : Z;
  getMinutes : Z;
  getSeconds : Z
}.

Fixpoint repeat_char (c : ascii) (n : nat) : string :=
  match n with
  | O => EmptyString
  | S k => String c (repeat_char c k)
  end.

(** [s.padStart(targetLength, c)] for a one-character filler. *)
Definition padStart (s : string) (targetLength : nat) (c : ascii) : string :=
  repeat_char c (targetLength - String.length s) ++ s.

(** [pad = (num) => num.toString().padStart(2, '0')]. *)
Definition pad (num : Z) : string := padStart (of_Z num) 2 "0".

Definition formatTimestampForDB2 (date : JsDate) : string :=
  let year := getFullYear date in
  let month := pad (getMonth date + 1) in
  let day := pad (getDate date) in
  let hours := pad (getHours date) in
  let minutes := pad (getMinutes date) in
  let seconds := pad (getSeconds date) in
  of_Z year ++ "-" ++ month ++ "-" ++ day ++ " " ++ hours ++ ":" ++ minutes ++ ":" ++ seconds.

(** A calendar date as [Date] reports it, in the years written with four
    digits. *)
Definition four_digit_date (date : JsDate) : Prop :=
  1000 <= getFullYear date <= 9999
  /\ 0 <= getMonth date <= 11
  /\ 1 <= getDate date <= 31
  /\ 0 <= getHours date <= 23
  /\ 0 <= getMinutes date <= 59
  /\ 0 <= getSeconds date <= 59.

(** Equality of numbers as values (NaN is NaN). *)
Definition number_eqb (a b : Number) : bool :=
  match a, b with
  | Finite x, Finite y => x =? y
  | NaN, NaN => true
  | _, _ => false
  end.

(** A field of [width] digits that reads back as [n]. *)
Definition field_ok (width : nat) (text : string) (n : Z) : bool :=
  (String.length text =? width)%nat && all_chars is_digit text
  && number_eqb (parseInt10 text) (Finite n).

End UtilsRest.

(** ** src/config.js *)

Module Configuration.
Import JsString.

(** [s.split(c)] for a one-character separator: at least one piece, the
    empty string splits into one empty piece. *)
Fixpoint split (c : ascii) (s : string) : list string :=
  match s with
  | EmptyString => [EmptyString]
  | String a r =>
      if Ascii.eqb a c then EmptyString :: split c r
      else match split c r with
           | piece :: pieces => String a piece :: pieces
           | [] => [String a EmptyString]
           end
  end.

(** The callback of the second [map] of [parseEnvList]:
    [const [schema, table] = entry.split('.')], then the test
    [!schema || !table]; [None] is the [null] of an invalid entry. *)
Definition parseEntry (entry : string) : option Target :=
  match split "." entry with
  | schema :: table :: _ =>
      if String.eqb schema "" || String.eqb table "" then None
      else Some (mkTarget schema table)
  | _ => None
  end.

(** The entries that reach the second [map]: pieces between commas,
    trimmed, the empty ones dropped. *)
Definition entries (value : option string) : list string :=
  filter (fun entry => negb (String.length entry =? 0)%nat)
    (map trim (split "," (match value with Some s => s | None => "" end))).

Fixpoint keep_some {A : Type} (l : list (option A)) : list A :=
  match l with
  | [] => []
  | Some x :: rest => x :: keep_some rest
  | None :: rest => keep_some rest
  end.

(** [parseEnvList(envVar)], given [process.env[envVar]] ([None] when
    unset). *)
Definition parseEnvList (value : option string) : list Target :=
  keep_some (map parseEntry (entries value)).

(** The entries [parseEnvList] reports as invalid on the console. *)
Definition invalidEntries (value : option string) : list string :=
  filter (fun entry => match parseEntry entry with None => true | Some _ => false end)
    (entries value).

(** [parseInt(process.env.CHUNK_SIZE, 10) || 1000]. *)
Definition parseChunkSize (value : option string) : Z :=
  match value with
  | None => 1000
  | Some s =>
      match parseInt10 s with
      | Finite 0 => 1000
      | Finite n => n
      | NaN => 1000
      end
  end.

(** [process.env.RESET === 'true']. *)
Definition parseReset (value : option string) : bool :=
  match value with
  | Some s => String.eqb s "true"
  | None => false
  end.

(** [config.replication], given the process environment. *)
Definition replication (env : string -> option string) : Config :=
  mkConfig
    (parseEnvList (env "REPLICATED_TABLES"))
    (parseEnvList (env "REPLICATED_VIEWS"))
    (parseChunkSize (env "CHUNK_SIZE"))
    (parseReset (env "RESET")).

(** How a target is written in REPLICATED_TABLES. *)
Definition entry_of (t : Target) : string := tgt_schema t ++ "." ++ tgt_table t.

(** A name that survives the parsing: not empty, without comma or dot. *)
Definition plain_name (s : string) : Prop :=
  s <> "" /\ mem "," s = false /\ mem "." s = false.

(** A target written so that trimming the entry leaves it alone: plain
    names, no whitespace before the schema or after the table. *)
Definition plain_target (t : Target) : Prop :=
  plain_name (tgt_schema t) /\ plain_name (tgt_table t)
  /\ trimStart (tgt_schema t) = tgt_schema t
  /\ trimEnd (tgt_table t) = tgt_table t.

End Configuration.

(** ** Further measures of a run *)

(** The offsets of the chunk queries among the events, in order. *)
Fixpoint fetch_offsets (evs : list Event) : list Z :=
  match evs with
  | [] => []
  | Db2Query (SelectChunk _ _ _ offset _) _ :: rest => offset :: fetch_offsets rest
  | _ :: rest => fetch_offsets rest
  end.

(** The source statements among the events, in order. *)
Fixpoint db2_issued (evs : list Event) : list Db2Stmt :=
  match evs with
  | [] => []
  | Db2Query stmt _ :: rest => stmt :: db2_issued rest
  | _ :: rest => db2_issued rest
  end.

(** The destination statements [replicateTable] may send for a table. *)
Definition table_statement (schema table : string) (stmt : PgStmt) : Prop :=
  match stmt with
  | CreateTable s t _ => s = schema /\ t = table
  | SelectCountPg s t => s = schema /\ t = table
  | Truncate s t => s = schema /\ t = table
  | Insert s t _ _ _ => s = schema /\ t = table
  | _ => False
  end.

(** The destination statements of the transfer loop: INSERTs into the
    table. *)
Definition insert_statement (schema table : string) (stmt : PgStmt) : Prop :=
  match stmt with
  | Insert s t _ _ _ => s = schema /\ t = table
  | _ => False
  end.

Definition is_pg_count (e : Event) : bool :=
  match e with
  | PgQuery (SelectCountPg _ _) _ => true
  | _ => false
  end.

Definition is_spinner_fail (e : Event) : bool :=
  match e with
  | Console (SpinnerFail _ _ _) => true
  | _ => false
  end.

(** The placeholder tuple of the row at position [i] of a sub-batch when
    numbering runs through the rows: [$(i*m+1), ..., $(i*m+m)] for [m]
    columns. *)
Definition numbered_placeholders (columns : list Column) (i : Z) : string :=
  "(" ++ String.concat ","
           (mapi (fun (col : Column) index =>
                    "$" ++ JsString.of_Z (index + 1 + Z.of_nat (length columns) * i))
                 columns)
      ++ ")".


(** An event that, if it is a destination statement, is one of those [P]
    allows. *)
Definition pg_only (P : PgStmt -> Prop) (e : Event) : Prop :=
  match e with
  | PgQuery stmt _ => P stmt
  | _ => True
  end.

Definition no_statement (stmt : PgStmt) : Prop := False.

(** The primary keys [getPrimaryKeys] makes of the answer to its query. *)
Definition keys_of_answer (answer : JsError + list Row) : list string :=
  match answer with
  | inl _ => []
  | inr rows =>
      match map_or_throw Db2.colname_trim rows with
      | inl _ => []
      | inr keys => keys
      end
  end.

(** The chunk [fetchChunk] makes of the answer to its page query. *)
Definition chunk_of_answer (answer : JsError + list Row) : list Row :=
  match answer with
  | inl _ => []
  | inr rows => rows
  end.

(** The column [getColumnMetadata] makes of a catalog row whose COLNAME is
    the string [name]. *)
Definition column_named (name : string) (row : Row) : Column :=
  mkColumn (JsString.trim name)
    (Utils.mapDb2ToPostgresType (row_get row "TYPENAME") (row_get row "LENGTH")).

(** A catalog row whose COLNAME is a string. *)
Definition named_row (row : Row) : Prop := exists name, row_get row "COLNAME" = JStr name.

(** The reads of the source about one table. *)
Definition source_read (db2Schema db2Table : string) (stmt : Db2Stmt) : Prop :=
  match stmt with
  | SelectColumns s t => s = db2Schema /\ t = db2Table
  | SelectKeyColumns s t => s = db2Schema /\ t = db2Table
  | SelectCount s t => s = db2Schema /\ t = db2Table
  | SelectChunk s t _ _ _ => s = db2Schema /\ t = db2Table
  | SelectViewText _ _ => False
  end.

(** What the replication of one table may leave behind: console lines,
    reads of the source about the upper-cased table, destination
    statements about the table. *)
Definition table_event (schema table : string) (e : Event) : Prop :=
  match e with
  | Console _ => True
  | Db2Query stmt _ =>
      source_read (JsString.toUpperCase schema) (JsString.toUpperCase table) stmt
  | PgQuery stmt _ => table_statement schema table stmt
  | Db2Open _ => False
  | Db2Close => False
  end.

(** Console lines and INSERTs into one table. *)
Definition insert_event (schema table : string) (e : Event) : Prop :=
  match e with
  | Console _ => True
  | PgQuery stmt _ => insert_statement schema table stmt
  | _ => False
  end.

(** What a pass of the transfer loop may leave behind. *)
Definition transfer_event (schema table db2Schema db2Table : string) (e : Event) : Prop :=
  match e with
  | Console _ => True
  | Db2Query (SelectKeyColumns s t) _ =>
      s = JsString.toUpperCase db2Schema /\ t = JsString.toUpperCase db2Table
  | Db2Query (SelectChunk s t _ _ _) _ => s = db2Schema /\ t = db2Table
  | PgQuery stmt _ => insert_statement schema table stmt
  | _ => False
  end.

(** An INSERT the destination refused. *)
Definition is_failed_insert (e : Event) : bool :=
  match e with
  | PgQuery (Insert _ _ _ _ _) (inl _) => true
  | _ => false
  end.

(** The rows of the chunks fetched, counted over the page queries among
    the events. *)
Definition rows_fetched (evs : list Event) : Z :=
  fold_right (fun answer acc => Z.of_nat (length (chunk_of_answer answer)) + acc) 0
    (fetched_chunks evs).

(** What [replicateTable] may leave behind before its transfer loop: no
    page query and no INSERT, and with reset neither the count nor the
    TRUNCATE of the destination table. *)
Definition before_loop (config : Config) (schema table : string) (e : Event) : Prop :=
  table_event schema table e
  /\ is_chunk_fetch e = false
  /\ is_insert e = false
  /\ is_failed_insert e = false
  /\ (reset config = true -> is_pg_count e = false /\ is_truncate e = false).

(** The lines that close a transfer loop whose INSERT [stmt] failed with
    [err], up to the spinner's last line. *)
Definition failure_report (schema table : string) (stmt : PgStmt) (err : JsError)
    : list Event :=
  [PgQuery stmt (inl err);
   Console (ErrorInsertingBatch schema table (message err));
   Console (FailingQuery (Sql.pg_text stmt));
   Console (SpinnerFail schema table (message err));
   Console (ConsoleError err)].

(** What the replication of the views may leave behind. *)
Definition view_event (e : Event) : Prop :=
  match e with
  | Console _ => True
  | Db2Query (SelectViewText _ _) _ => True
  | PgQuery (CreateOrReplaceView _ _ _) _ => True
  | _ => False
  end.

(** The offsets [start], [start + step], ... of [n] passes. *)
Definition offsets_from (start step : Z) (n : nat) : list Z :=
  map (fun i => start + Z.of_nat i * step) (seq 0 n).

(** The view a destination statement creates, if it creates one. *)
Definition view_created (stmt : PgStmt) : option Target :=
  match stmt with
  | CreateOrReplaceView schema viewName _ => Some (mkTarget schema viewName)
  | _ => None
  end.

(** The catalog read [replicateView] sends for a view. *)
Definition view_read (v : Target) : Db2Stmt :=
  SelectViewText (JsString.toUpperCase (tgt_schema v)) (JsString.toUpperCase (tgt_table v)).

(** What the replication of a list of tables may leave behind: what the
    replication of one of them may. *)
Definition tables_event (tables : list Target) (e : Event) : Prop :=
  match e with
  | Console _ => True
  | _ => exists t, In t tables /\ table_event (tgt_schema t) (tgt_table t) e
  end.

(** What a run leaves behind while its schemas are dropped and created
    without a failure. *)
Definition provisioning_event (e : Event) : Prop :=
  match e with
  | Console _ => True
  | Db2Open None => True
  | PgQuery (DropSchema _) (inr _) => True
  | PgQuery (CreateSchema _) (inr _) => True
  | _ => False
  end.

(** A DROP SCHEMA or CREATE SCHEMA the destination refused. *)
Definition is_failed_provisioning (e : Event) : bool :=
  match e with
  | PgQuery (DropSchema _) (inl _) => true
  | PgQuery (CreateSchema _) (inl _) => true
  | _ => false
  end.

(** The two outcomes of a provisioning step: done, or stopped by the
    first statement the destination refused. *)
Definition provision_outcome {E : Env} (run : Completion unit * DB E * list Event) : Prop :=
  match run with
  | (r, _, evs) =>
      (r = Returned tt /\ Forall provisioning_event evs)
      \/ (exists front stmt err line,
             r = Thrown err
             /\ evs = (front ++ [PgQuery stmt (inl err); Console line])%list
             /\ Forall provisioning_event front)
  end.

(** The reference environment behind a source that cannot be reached. *)
Definition unreachable (s : Sim.Setup) : Env :=
  mkEnv Sim.State
    (fun st => (Some (DbError "SQL30081N"), st))
    (db2_query (Sim.env s))
    (pg_query (Sim.env s)).

(** The phases of [replicateAll] after the connection: the schemas are
    dropped (with reset), the schemas are created, the tables and the
    views are replicated and the connection is closed. *)
Definition drop_schemas (E : Env) (config : Config) : M E unit :=
  if reset config then
    for_each (Replicate.uniqueSchemas config)
      (fun schema => log (DroppingSchema schema) ;; Postgres.dropSchema E schema)
  else ret tt.

Definition ensure_schemas (E : Env) (config : Config) : M E unit :=
  for_each (Replicate.uniqueSchemas config) (Postgres.ensureSchemaExists E).

Definition replicate_targets (E : Env) (config : Config) (fuel : nat) : M E unit :=
  match cfg_tables config with
  | [] => log NoTablesSpecified
  | tables => log StartingTableReplication ;; Replicate.replicateTables E config fuel tables
  end ;;
  match cfg_views config with
  | [] => log NoViewsSpecified
  | views => log StartingViewReplication ;; Replicate.replicateViews E views
  end ;;
  log ReplicationComplete ;;
  Replicate.close E.
(** * Verification *)

(** ** The embedding at work *)

Example of_Z_examples :
  (JsString.of_Z 0, JsString.of_Z 1200, JsString.of_Z (-7)) = ("0", "1200", "-7").
Proof. reflexivity. Qed.

Example parseInt10_examples :
  (JsString.parseInt10 " 42abc", JsString.parseInt10 "x", JsString.parseInt10 "-3")
  = (Finite 42, NaN, Finite (-3)).
Proof. reflexivity. Qed.

Example trim_example : JsString.trim "  a b  " = "a b".
Proof. reflexivity. Qed.

Example mapDb2ToPostgresType_examples :
  (Utils.mapDb2ToPostgresType (JStr "VARCHAR") (JNum 20),
   Utils.mapDb2ToPostgresType (JStr "DECIMAL") (JNum 9),
   Utils.mapDb2ToPostgresType (JStr "XML") (JNum 0))
  = ("TEXT", "DECIMAL(9,2)", "TEXT").
Proof. reflexivity. Qed.

Example insert_text_example :
  Sql.pg_text (insert_stmt "sales" "orders" Scenario.order_columns
                 [Sim.order_row 0; Sim.order_row 1])
  = "INSERT INTO " ++ Sql.qq "sales" ++ "." ++ Sql.qq "orders"
    ++ " (" ++ Sql.qq "ID" ++ "," ++ Sql.qq "NAME" ++ ") VALUES ($1,$2),($3,$4)".
Proof. reflexivity. Qed.

Example select_of_view_text_examples :
  (Db2.select_of_view_text "CREATE VIEW S.V AS SELECT ID FROM S.T",
   Db2.select_of_view_text "create view s.v as  select 1 from EDM_COMP.LOCN_COMPANY_XREF ",
   Db2.select_of_view_text "CREATE VIEW S.V")
  = ("SELECT ID FROM S.T",
     "select 1 from " ++ Sql.qq "EDM_COMP" ++ "." ++ Sql.qq "LOCN_COMPANY_XREF",
     "").
Proof. reflexivity. Qed.

(** A full run on the shop: five rows in chunks of two, then the view. *)
Example replicateAll_shop :
  let run := Replicate.replicateAll (Sim.env Scenario.shop) Scenario.one_table 10 Sim.empty in
  fst (fst run) = Returned tt
  /\ Sim.rows_of "sales" "orders" (snd (fst run))
     = map (fun k => [JNum (Z.of_nat k); JStr "n"]) (seq 0 5)
  /\ length (fetched_chunks (snd run)) = 4%nat
  /\ inserted_rows (snd run) = 5.
Proof. vm_compute. repeat split. Qed.

(** ** Lists: slices *)

Section Slices.
Context {A : Type}.

Lemma firstn_min_length (n : nat) (l : list A) :
  firstn (Nat.min n (length l)) l = firstn n l.
Proof.
  destruct (Nat.le_gt_cases n (length l)) as [Hle | Hgt].
  - now rewrite Nat.min_l.
  - rewrite Nat.min_r by lia. rewrite !firstn_all2; auto; lia.
Qed.

Lemma js_slice_window (a : list A) (i n : Z) :
  0 <= i -> 0 <= n ->
  js_slice a i (i + n) = firstn (Z.to_nat n) (skipn (Z.to_nat i) a).
Proof.
  intros Hi Hn. unfold js_slice.
  replace (i <? 0) with false by (symmetry; apply Z.ltb_ge; lia).
  replace (i + n <? 0) with false by (symmetry; apply Z.ltb_ge; lia).
  destruct (Z.le_gt_cases i (Z.of_nat (length a))) as [Hle | Hgt].
  - rewrite (Z.min_l i) by lia.
    rewrite <- (firstn_min_length (Z.to_nat n)).
    f_equal. rewrite length_skipn. lia.
  - rewrite (Z.min_r i) by lia. rewrite (Z.min_r (i + n)) by lia.
    rewrite Z.sub_diag. simpl.
    rewrite (skipn_all2 a) by lia. now rewrite firstn_nil.
Qed.

Lemma slices_aux_enough (size : nat) (fuel1 fuel2 : nat) (l : list A) :
  (0 < size)%nat -> (length l <= fuel1)%nat -> (length l <= fuel2)%nat ->
  slices_aux fuel1 size l = slices_aux fuel2 size l.
Proof.
  intros Hsize. revert fuel2 l.
  induction fuel1 as [| f1 IH]; intros fuel2 l H1 H2.
  - destruct l; [| simpl in H1; lia]. now destruct fuel2.
  - destruct l as [| x l'].
    + now destruct fuel2.
    + destruct fuel2 as [| f2]; [simpl in H2; lia |].
      cbn [slices_aux]. f_equal.
      apply IH; rewrite length_skipn; cbn [length] in *; lia.
Qed.

Lemma slices_nil (size : nat) : slices size (@nil A) = [].
Proof. reflexivity. Qed.

Lemma slices_cons (size : nat) (l : list A) :
  (0 < size)%nat -> l <> [] ->
  slices size l = firstn size l :: slices size (skipn size l).
Proof.
  intros Hsize Hl. unfold slices.
  destruct l as [| x l']; [congruence |].
  cbn [length slices_aux]. f_equal.
  apply slices_aux_enough; auto; rewrite length_skipn; cbn [length]; lia.
Qed.

(** Induction along the slices of a list. *)
Lemma slices_ind (size : nat) (P : list A -> Prop) :
  (0 < size)%nat ->
  P [] ->
  (forall l, l <> [] -> P (skipn size l) -> P l) ->
  forall l, P l.
Proof.
  intros Hsize Hnil Hstep l.
  remember (length l) as n eqn:Hn.
  revert l Hn. induction n as [n IH] using lt_wf_ind. intros l Hn.
  destruct l as [| x l']; [exact Hnil |].
  apply Hstep; [discriminate |].
  apply (IH (length (skipn size (x :: l')))); [| reflexivity].
  rewrite length_skipn. subst n. cbn [length]. lia.
Qed.

Lemma concat_slices (size : nat) (l : list A) :
  (0 < size)%nat -> concat (slices size l) = l.
Proof.
  intros Hsize. pattern l. apply (slices_ind size); [exact Hsize | reflexivity |].
  clear l. intros l Hl IH.
  rewrite slices_cons by auto. simpl. rewrite IH. apply firstn_skipn.
Qed.

Lemma slices_bounds (size : nat) (l : list A) :
  (0 < size)%nat ->
  Forall (fun c => (0 < length c <= size)%nat) (slices size l).
Proof.
  intros Hsize. pattern l. apply (slices_ind size); [exact Hsize | |]; clear l.
  - constructor.
  - intros l Hl IH.
    rewrite slices_cons by auto. constructor; [| exact IH].
    rewrite length_firstn. destruct l; [congruence | simpl; lia].
Qed.

(** Every slice but the last one is full. *)
Lemma slices_full (size : nat) (l : list A) :
  (0 < size)%nat ->
  forall k, (S k < length (slices size l))%nat ->
            length (nth k (slices size l) []) = size.
Proof.
  intros Hsize. pattern l. apply (slices_ind size); [exact Hsize | |]; clear l.
  - intros k Hk. simpl in Hk. lia.
  - intros l Hl IH k. rewrite slices_cons by auto. intros Hk.
    destruct k as [| k'].
    + simpl in *. rewrite length_firstn.
      destruct (Nat.le_gt_cases size (length l)) as [Hle | Hgt]; [lia |].
      rewrite (skipn_all2 l) in Hk by lia. simpl in Hk. lia.
    + simpl in *. apply IH. lia.
Qed.

Lemma length_slices (size : nat) (l : list A) :
  (0 < size)%nat ->
  Z.of_nat (length (slices size l)) = (Z.of_nat (length l) + Z.of_nat size - 1) / Z.of_nat size.
Proof.
  intros Hsize. pattern l. apply (slices_ind size); [exact Hsize | |]; clear l.
  - simpl. symmetry. apply Z.div_small. lia.
  - intros l Hl IH.
    rewrite slices_cons by auto. cbn [length]. rewrite Nat2Z.inj_succ, IH.
    rewrite length_skipn.
    destruct (Nat.le_gt_cases size (length l)) as [Hle | Hgt].
    + replace (Z.of_nat (length l) + Z.of_nat size - 1)
        with (Z.of_nat (length l - size) + Z.of_nat size - 1 + 1 * Z.of_nat size) by lia.
      rewrite Z.div_add by lia. lia.
    + replace (length l - size)%nat with O by lia. simpl.
      rewrite (Z.div_small (Z.of_nat size - 1)) by lia.
      assert (0 < length l)%nat by (destruct l; [congruence | simpl; lia]).
      replace (Z.of_nat (length l) + Z.of_nat size - 1)
        with (Z.of_nat (length l) - 1 + 1 * Z.of_nat size) by lia.
      rewrite Z.div_add by lia. rewrite Z.div_small by lia. lia.
Qed.

End Slices.

(** ** utils.js: chunkArray *)

Lemma chunkArray_loop_slices {A : Type} (size : Z) (array : list A) :
  0 < size ->
  forall fuel i chunkedArr,
    0 <= i ->
    (length (skipn (Z.to_nat i) array) <= fuel)%nat ->
    Utils.chunkArray_loop fuel array size i chunkedArr
    = Some (chunkedArr ++ slices (Z.to_nat size) (skipn (Z.to_nat i) array))%list.
Proof.
  intros Hsize fuel.
  induction fuel as [| fuel IH]; intros i acc Hi Hfuel.
  - assert (Hnil : skipn (Z.to_nat i) array = [])
      by (destruct (skipn (Z.to_nat i) array); [reflexivity | simpl in Hfuel; lia]).
    rewrite Hnil, slices_nil, app_nil_r.
    rewrite length_skipn in Hfuel.
    cbn [Utils.chunkArray_loop].
    replace (i <? Z.of_nat (length array)) with false
      by (symmetry; apply Z.ltb_ge; lia).
    reflexivity.
  - cbn [Utils.chunkArray_loop].
    destruct (i <? Z.of_nat (length array)) eqn:Hlt.
    + apply Z.ltb_lt in Hlt.
      rewrite IH; [| lia |].
      * rewrite <- app_assoc. do 2 f_equal. cbn [app].
        rewrite (slices_cons _ (skipn (Z.to_nat i) array)); try lia.
        -- rewrite js_slice_window by lia.
           rewrite skipn_skipn. do 3 f_equal. lia.
        -- intros Hnil. apply (f_equal (@length A)) in Hnil.
           rewrite length_skipn in Hnil. simpl in Hnil. lia.
      * rewrite length_skipn in *. lia.
    + apply Z.ltb_ge in Hlt.
      rewrite (skipn_all2 array) by lia. now rewrite slices_nil, app_nil_r.
Qed.

(** C10.  For a positive [size], [chunkArray] (with fuel for at least one
    pass per element) returns consecutive slices whose concatenation is the
    input: each holds between 1 and [size] elements, all but the last hold
    exactly [size]; [chunk([1..10], 3)] is [[1,2,3],[4,5,6],[7,8,9],[10]],
    and an empty input gives no slice at all. *)
Theorem chunkArray_partitions :
  (forall (A : Type) (s : list A) (size : Z) (fuel : nat),
      0 < size -> (length s <= fuel)%nat ->
      exists chunks,
        Utils.chunkArray fuel s size = Some chunks
        /\ concat chunks = s
        /\ Forall (fun c => 0 < Z.of_nat (length c) <= size) chunks
        /\ (forall k, (S k < length chunks)%nat -> Z.of_nat (length (nth k chunks [])) = size))
  /\ Utils.chunkArray 10 [1; 2; 3; 4; 5; 6; 7; 8; 9; 10] 3
     = Some [[1; 2; 3]; [4; 5; 6]; [7; 8; 9]; [10]]
  /\ (forall (A : Type) (n : Z) (fuel : nat),
         0 < n -> Utils.chunkArray fuel (@nil A) n = Some []).
Proof.
  split; [| split].
  - intros A s size fuel Hsize Hfuel.
    exists (slices (Z.to_nat size) s).
    assert (Hs : (0 < Z.to_nat size)%nat) by lia.
    split; [| split; [| split]].
    + unfold Utils.chunkArray. rewrite chunkArray_loop_slices; auto; try lia.
    + now apply concat_slices.
    + eapply Forall_impl; [| apply (slices_bounds _ s Hs)].
      intros c Hc. cbv beta in Hc. lia.
    + intros k Hk. rewrite slices_full; auto. lia.
  - reflexivity.
  - intros A n fuel Hn. unfold Utils.chunkArray.
    destruct fuel; reflexivity.
Qed.

(** ** Strings: trimming, quote doubling, searching *)

Module StringFacts.
Import JsString.

Lemma append_nil_r (s : string) : s ++ "" = s.
Proof. induction s as [| c s IH]; simpl; congruence. Qed.

Lemma append_assoc (a b c : string) : (a ++ b) ++ c = a ++ b ++ c.
Proof. induction a as [| x a IH]; simpl; congruence. Qed.

Lemma trimStart_split (s : string) :
  exists l, all_chars is_whitespace l = true /\ s = l ++ trimStart s.
Proof.
  induction s as [| c s [l [Hl Hs]]].
  - exists "". auto.
  - simpl. destruct (is_whitespace c) eqn:Hc.
    + exists (String c l). split; [simpl; now rewrite Hc | simpl; now f_equal].
    + exists "". auto.
Qed.

Lemma trimEnd_split (s : string) :
  exists r, all_chars is_whitespace r = true /\ s = trimEnd s ++ r.
Proof.
  induction s as [| c s [r [Hr Hs]]].
  - exists "". auto.
  - simpl. destruct (trimEnd s) as [| b t] eqn:Ht.
    + simpl in Hs. subst s. destruct (is_whitespace c) eqn:Hc.
      * exists (String c r). simpl. now rewrite Hc, Hr.
      * exists r. auto.
    + exists r. split; [exact Hr |]. simpl. simpl in Hs. congruence.
Qed.

Lemma trimStart_head (s : string) (c : ascii) (r : string) :
  trimStart s = String c r -> is_whitespace c = false.
Proof.
  induction s as [| a s IH]; simpl; [discriminate |].
  destruct (is_whitespace a) eqn:Ha; [exact IH |].
  intros H. injection H as -> _. exact Ha.
Qed.

Lemma trimEnd_head (s : string) (c : ascii) (r : string) :
  trimEnd s = String c r -> exists r', s = String c r'.
Proof.
  destruct s as [| a s]; simpl; [discriminate |].
  destruct (trimEnd s); [destruct (is_whitespace a) |];
    intros H; try discriminate; injection H as -> _; eauto.
Qed.

Lemma trimEnd_last (s r : string) (c : ascii) :
  trimEnd s = r ++ String c "" -> is_whitespace c = false.
Proof.
  revert r. induction s as [| a s IH]; intros r.
  - simpl. destruct r; discriminate.
  - simpl. destruct (trimEnd s) as [| b t] eqn:Ht.
    + destruct (is_whitespace a) eqn:Ha.
      * destruct r; discriminate.
      * destruct r as [| x r]; simpl; intros H.
        -- injection H as ->. exact Ha.
        -- injection H as _ H. destruct r; discriminate.
    + destruct r as [| x r]; simpl; intros H.
      * discriminate.
      * injection H as _ H. apply (IH r). exact H.
Qed.

(** [trim] removes whitespace from both ends and only that. *)
Lemma trim_spec (s : string) :
  (exists l r, all_chars is_whitespace l = true
               /\ all_chars is_whitespace r = true
               /\ s = l ++ trim s ++ r)
  /\ (forall c t, trim s = String c t -> is_whitespace c = false)
  /\ (forall t c, trim s = t ++ String c "" -> is_whitespace c = false).
Proof.
  unfold trim. split; [| split].
  - destruct (trimStart_split s) as [l [Hl Hs]].
    destruct (trimEnd_split (trimStart s)) as [r [Hr Ht]].
    exists l, r. repeat split; auto. rewrite <- Ht. exact Hs.
  - intros c t H. destruct (trimEnd_head _ _ _ H) as [r' Hr'].
    eapply trimStart_head; eauto.
  - intros t c H. eapply trimEnd_last; eauto.
Qed.

(** Doubling the quotes loses nothing: reading pairs back gives the
    string. *)
Lemma undouble_double (s : string) : undoubleQuotes (doubleQuotes s) = s.
Proof.
  induction s as [| c s IH]; [reflexivity |].
  simpl. destruct (Ascii.eqb c squote) eqn:Hc.
  - apply Ascii.eqb_eq in Hc. subst c. simpl. now rewrite IH.
  - simpl. rewrite Hc. now rewrite IH.
Qed.


Lemma mem_append (c : ascii) (a b : string) : mem c (a ++ b) = mem c a || mem c b.
Proof. induction a as [| x a IH]; simpl; [reflexivity |]. now rewrite IH, orb_assoc. Qed.

Lemma prefix_mem (needle s : string) (c : ascii) :
  prefix needle s = true -> mem c needle = true -> mem c s = true.
Proof.
  revert s. induction needle as [| a needle IH]; intros s Hp Hm; [discriminate |].
  destruct s as [| b s]; [discriminate |].
  simpl in Hp. destruct (ascii_dec a b) as [-> | Hne]; [| discriminate].
  simpl in *. destruct (Ascii.eqb b c); [reflexivity |].
  simpl in *. eauto.
Qed.

Lemma indexOf_from_mem (needle s : string) (c : ascii) :
  forall i, 0 <= i -> indexOf_from needle s i <> -1 ->
            mem c needle = true -> mem c s = true.
Proof.
  induction s as [| a s IH]; intros i Hi Hfound Hm.
  - cbn [indexOf_from] in Hfound.
    destruct (prefix needle "") eqn:Hp; [| now contradiction Hfound].
    eapply prefix_mem; eauto.
  - cbn [indexOf_from] in Hfound.
    destruct (prefix needle (String a s)) eqn:Hp.
    + eapply prefix_mem; eauto.
    + simpl. rewrite (IH (i + 1)); auto; [apply orb_true_r | lia].
Qed.

(** A needle holding a character the text lacks is not included. *)
Lemma includes_absent (s needle : string) (c : ascii) :
  mem c needle = true -> mem c s = false -> includes s needle = false.
Proof.
  intros Hn Hs. unfold includes, indexOf.
  destruct (indexOf_from needle s 0 =? -1) eqn:Hi; [reflexivity |].
  apply Z.eqb_neq in Hi.
  assert (Hin : mem c s = true) by (apply (indexOf_from_mem needle s c 0); auto; lia).
  congruence.
Qed.

Lemma includes_prefix (s needle : string) :
  prefix needle s = true -> includes s needle = true.
Proof.
  intros Hp. unfold includes, indexOf.
  destruct s; cbn [indexOf_from]; now rewrite Hp.
Qed.

Lemma uint_digits (d : Decimal.uint) (c : ascii) :
  is_digit c = false -> mem c (NilEmpty.string_of_uint d) = false.
Proof.
  intros Hc. induction d; cbn [NilEmpty.string_of_uint mem]; auto;
    rewrite IHd, orb_false_r; apply Ascii.eqb_neq; intros <-;
    cbv in Hc; discriminate.
Qed.

Lemma nilzero_uint_digits (d : Decimal.uint) (c : ascii) :
  is_digit c = false -> mem c (NilZero.string_of_uint d) = false.
Proof.
  intros Hc. destruct d; try exact (uint_digits _ c Hc).
  cbn [NilZero.string_of_uint mem]. rewrite orb_false_r.
  apply Ascii.eqb_neq. intros <-. cbv in Hc. discriminate.
Qed.

(** The decimal rendering of an integer holds digits and at most a
    minus sign. *)
Lemma of_Z_chars (z : Z) (c : ascii) :
  is_digit c = false -> c <> "-"%char -> mem c (of_Z z) = false.
Proof.
  intros Hc Hminus. unfold of_Z, NilZero.string_of_int.
  destruct (Z.to_int z) as [d | d].
  - now apply nilzero_uint_digits.
  - cbn [mem]. rewrite nilzero_uint_digits by exact Hc.
    rewrite orb_false_r. apply Ascii.eqb_neq. congruence.
Qed.

End StringFacts.

(** ** utils.js: formatValue *)


Lemma decimal_type (len : Z) :
  Utils.mapDb2ToPostgresType (JStr "DECIMAL") (JNum len)
  = "DECIMAL(" ++ JsString.of_Z len ++ ",2)".
Proof. reflexivity. Qed.

Lemma decimal_type_includes (len : Z) :
  let t := "DECIMAL(" ++ JsString.of_Z len ++ ",2)" in
  JsString.includes t "TEXT" = false
  /\ JsString.includes t "CHAR" = false
  /\ JsString.includes t "TIMESTAMP" = false
  /\ JsString.includes t "DATE" = false
  /\ JsString.includes t "DECIMAL" = true.
Proof.
  intros t.
  assert (HT : mem "T" t = false).
  { unfold t. rewrite !StringFacts.mem_append.
    rewrite StringFacts.of_Z_chars; [reflexivity | reflexivity | discriminate]. }
  assert (HH : mem "H" t = false).
  { unfold t. rewrite !StringFacts.mem_append.
    rewrite StringFacts.of_Z_chars; [reflexivity | reflexivity | discriminate]. }
  split; [| split; [| split; [| split]]].
  - apply (StringFacts.includes_absent _ _ "T"); auto.
  - apply (StringFacts.includes_absent _ _ "H"); auto.
  - apply (StringFacts.includes_absent _ _ "T"); auto.
  - apply (StringFacts.includes_absent _ _ "T"); auto.
  - apply StringFacts.includes_prefix. reflexivity.
Qed.

Lemma formatValue_numeric (value : JsValue) (db2Type : string) (len : Z) :
  In db2Type numeric_source_types ->
  value <> JNull -> value <> JStr "" ->
  Utils.formatValue value (Utils.mapDb2ToPostgresType (JStr db2Type) (JNum len)) = value.
Proof.
  intros Hin Hnull Hempty.
  assert (Hfixed : forall t,
             JsString.includes t "TEXT" || JsString.includes t "CHAR" = false ->
             JsString.includes t "TIMESTAMP" || JsString.includes t "DATE" = false ->
             JsString.includes t "INTEGER" || JsString.includes t "SMALLINT"
             || JsString.includes t "BIGINT" || JsString.includes t "DECIMAL"
             || JsString.includes t "NUMERIC" || JsString.includes t "DOUBLE"
             || JsString.includes t "REAL" = true ->
             Utils.formatValue value t = value).
  { intros t H1 H2 H3. unfold Utils.formatValue.
    destruct value as [| | s | z]; try congruence; [| destruct s; try congruence |];
      now rewrite H1, H2, H3. }
  unfold numeric_source_types in Hin. cbn [In] in Hin.
  destruct Hin as [<- | [<- | [<- | [<- | [<- | [<- | []]]]]]];
    try (apply Hfixed; reflexivity).
  rewrite decimal_type.
  destruct (decimal_type_includes len) as (H1 & H2 & H3 & H4 & H5).
  apply Hfixed.
  - now rewrite H1, H2.
  - now rewrite H3, H4.
  - rewrite H5. now rewrite !orb_true_r.
Qed.

(** C9.  [formatValue] gives the literal NULL for null and for the empty
    string whatever the destination type; for a type naming TEXT or CHAR it
    gives the trimmed input between single quotes with every quote doubled
    (reading the pairs back restores the trimmed input), so that O'Brien
    becomes 'O''Brien'; and for the numeric destination types of the type
    translator it gives the value back unquoted. *)
Theorem formatValue_rules :
  (forall type,
      Utils.formatValue JNull type = JStr "NULL"
      /\ Utils.formatValue (JStr "") type = JStr "NULL")
  /\ (forall value type,
         value <> JNull -> value <> JStr "" ->
         JsString.includes type "TEXT" || JsString.includes type "CHAR" = true ->
         Utils.formatValue value type
         = JStr (Utils.quoted (JsString.doubleQuotes (JsString.trim (ToString value))))
         /\ JsString.undoubleQuotes (JsString.doubleQuotes (JsString.trim (ToString value)))
            = JsString.trim (ToString value))
  /\ Utils.formatValue (JStr "O'Brien") "TEXT" = JStr "'O''Brien'"
  /\ (forall value db2Type len,
         In db2Type numeric_source_types ->
         value <> JNull -> value <> JStr "" ->
         Utils.formatValue value (Utils.mapDb2ToPostgresType (JStr db2Type) (JNum len))
         = value).
Proof.
  split; [| split; [| split]].
  - intros type. split; reflexivity.
  - intros value type Hnull Hempty Htext. split.
    + unfold Utils.formatValue.
      destruct value as [| | s | z]; try congruence; [| destruct s; try congruence |];
        now rewrite Htext.
    + apply StringFacts.undouble_double.
  - reflexivity.
  - exact formatValue_numeric.
Qed.

(** The rules at work on a padded name and on a DECIMAL(9,2) amount. *)
Lemma formatValue_rules_witness :
  Utils.formatValue (JStr "  O'Brien ") "TEXT" = JStr "'O''Brien'"
  /\ Utils.formatValue (JNum 1250) "DECIMAL(9,2)" = JNum 1250.
Proof.
  split.
  - apply (proj1 (proj1 (proj2 formatValue_rules) (JStr "  O'Brien ") "TEXT"
                    ltac:(discriminate) ltac:(discriminate) eq_refl)).
  - apply (proj2 (proj2 (proj2 formatValue_rules)) (JNum 1250) "DECIMAL" 9);
      [simpl; tauto | discriminate | discriminate].
Defined.

Lemma chunkArray_partitions_witness :
  exists chunks,
    Utils.chunkArray 5 [1; 2; 3; 4; 5] 2 = Some chunks
    /\ concat chunks = [1; 2; 3; 4; 5]
    /\ Forall (fun c => 0 < Z.of_nat (length c) <= 2) chunks
    /\ (forall k, (S k < length chunks)%nat -> Z.of_nat (length (nth k chunks [])) = 2).
Proof.
  apply (proj1 chunkArray_partitions); [lia | simpl; lia].
Defined.

(** ** The monad: unfolding equations *)

Lemma bind_unfold {E : Env} {A B : Type} (m : M E A) (k : A -> M E B) (d : DB E) :
  bind m k d
  = match m d with
    | (Returned a, d1, ev1) =>
        match k a d1 with
        | (r, d2, ev2) => (r, d2, (ev1 ++ ev2)%list)
        end
    | (Thrown e, d1, ev1) => (Thrown e, d1, ev1)
    | (Diverged, d1, ev1) => (Diverged, d1, ev1)
    end.
Proof. reflexivity. Qed.

Lemma try_catch_unfold {E : Env} {A : Type} (m : M E A) (h : JsError -> M E A) (d : DB E) :
  try_catch m h d
  = match m d with
    | (Thrown e, d1, ev1) =>
        match h e d1 with
        | (r, d2, ev2) => (r, d2, (ev1 ++ ev2)%list)
        end
    | other => other
    end.
Proof. reflexivity. Qed.

Lemma log_bind {E : Env} {B : Type} (line : LogLine) (k : M E B) (d : DB E) :
  (log line ;; k) d
  = match k d with
    | (r, d2, ev2) => (r, d2, Console line :: ev2)
    end.
Proof. reflexivity. Qed.

(** ** postgres.js: insertIntoPostgres *)

Lemma values_of_length (columns : list Column) (batch : list Row) :
  length (Postgres.values_of columns batch) = (length columns * length batch)%nat.
Proof.
  unfold Postgres.values_of.
  induction batch as [| row batch IH]; cbn [flat_map length].
  - lia.
  - rewrite length_app, length_map, IH. lia.
Qed.

Lemma insert_batches_cons (E : Env) (schema table : string) (columns : list Column)
    (batch : list Row) (rest : list (list Row)) (totalInserted : Z) :
  columns <> [] ->
  insert_batches E schema table columns (batch :: rest) totalInserted
  = (inserted <-
       try_catch
         (result <- pg_await (insert_stmt schema table columns batch) ;;
          ret (totalInserted + rowCount result))
         (fun error =>
            log (ErrorInsertingBatch schema table (message error)) ;;
            log (FailingQuery (Sql.pg_text (insert_stmt schema table columns batch))) ;;
            throw error) ;;
     insert_batches E schema table columns rest inserted).
Proof. destruct columns; [congruence | reflexivity]. Qed.

Lemma insert_loop_batches (E : Env) (schema table : string) (columns : list Column)
    (chunk : list Row) :
  forall fuel i totalInserted d,
    0 <= i ->
    (length (skipn (Z.to_nat i) chunk) <= fuel)%nat ->
    Postgres.insert_loop E fuel schema table columns chunk i totalInserted d
    = insert_batches E schema table columns
        (slices 1000 (skipn (Z.to_nat i) chunk)) totalInserted d.
Proof.
  induction fuel as [| fuel IH]; intros i total d Hi Hfuel.
  - rewrite length_skipn in Hfuel.
    rewrite (skipn_all2 chunk) by lia. rewrite slices_nil.
    cbn [Postgres.insert_loop insert_batches].
    replace (i <? Z.of_nat (length chunk)) with false
      by (symmetry; apply Z.ltb_ge; lia).
    reflexivity.
  - cbn [Postgres.insert_loop].
    destruct (i <? Z.of_nat (length chunk)) eqn:Hlt.
    + apply Z.ltb_lt in Hlt.
      assert (Hne : skipn (Z.to_nat i) chunk <> []).
      { intros Hnil. apply (f_equal (@length Row)) in Hnil.
        rewrite length_skipn in Hnil. simpl in Hnil. lia. }
      rewrite (slices_cons 1000 (skipn (Z.to_nat i) chunk)) by (auto; lia).
      unfold Postgres.batchSize.
      rewrite js_slice_window by lia.
      change (Z.to_nat 1000) with 1000%nat.
      set (batch := firstn 1000 (skipn (Z.to_nat i) chunk)).
      assert (Hbatch : (0 < length batch)%nat).
      { unfold batch. rewrite length_firstn.
        destruct (skipn (Z.to_nat i) chunk); [congruence | simpl; lia]. }
      assert (Hnext : forall total' d',
                 Postgres.insert_loop E fuel schema table columns chunk (i + 1000) total' d'
                 = insert_batches E schema table columns
                     (slices 1000 (skipn 1000 (skipn (Z.to_nat i) chunk))) total' d').
      { intros total' d'. rewrite IH.
        - rewrite skipn_skipn. do 3 f_equal. lia.
        - lia.
        - rewrite length_skipn in *. lia. }
      rewrite values_of_length.
      destruct (list_eq_dec (fun a b : Column => ltac:(decide equality; apply string_dec))
                  columns []) as [Hcols | Hcols].
      * rewrite Hcols in *. cbn [length Nat.mul Nat.eqb bind log insert_batches].
        rewrite Hnext. reflexivity.
      * rewrite insert_batches_cons by exact Hcols.
        assert (Hlen : (0 < length columns)%nat)
          by (destruct columns; [congruence | simpl; lia]).
        replace (length columns * length batch =? 0)%nat with false
          by (symmetry; apply Nat.eqb_neq; nia).
        rewrite Nat.eqb_refl. cbn [negb].
        fold (insert_stmt schema table columns batch).
        rewrite !bind_unfold.
        destruct (try_catch _ _ d) as [[[inserted | err |] d1] ev1]; auto.
        rewrite Hnext. reflexivity.
    + apply Z.ltb_ge in Hlt.
      rewrite (skipn_all2 chunk) by lia. now rewrite slices_nil.
Qed.

Lemma insertIntoPostgres_batches (E : Env) (schema table : string)
    (columns : list Column) (chunk : list Row) (d : DB E) :
  Postgres.insertIntoPostgres E schema table columns chunk d
  = match chunk with
    | [] => (Returned 0, d, [Console (SkippingEmptyChunk schema table)])
    | _ => insert_batches E schema table columns (slices 1000 chunk) 0 d
    end.
Proof.
  unfold Postgres.insertIntoPostgres. destruct chunk as [| row chunk]; [reflexivity |].
  rewrite insert_loop_batches; [reflexivity | lia | simpl; lia].
Qed.

Lemma pg_issued_app (a b : list Event) :
  pg_issued (a ++ b) = (pg_issued a ++ pg_issued b)%list.
Proof.
  induction a as [| e a IH]; [reflexivity |].
  destruct e; cbn [app pg_issued]; rewrite IH; reflexivity.
Qed.

(** One sub-batch: the INSERT either succeeds and adds its count, or fails
    and the error comes back out after two log lines. *)
Lemma insert_one_run (E : Env) (schema table : string) (columns : list Column)
    (batch : list Row) (totalInserted : Z) (d : DB E) :
  let stmt := insert_stmt schema table columns batch in
  try_catch
    (result <- pg_await stmt ;; ret (totalInserted + rowCount result))
    (fun error =>
       log (ErrorInsertingBatch schema table (message error)) ;;
       log (FailingQuery (Sql.pg_text stmt)) ;;
       throw error) d
  = match pg_query E stmt d with
    | (inl err, d1) =>
        (Thrown err, d1,
         [PgQuery stmt (inl err);
          Console (ErrorInsertingBatch schema table (message err));
          Console (FailingQuery (Sql.pg_text stmt))])
    | (inr res, d1) =>
        (Returned (totalInserted + rowCount res), d1, [PgQuery stmt (inr res)])
    end.
Proof.
  intros stmt. rewrite try_catch_unfold, bind_unfold. unfold pg_await.
  destruct (pg_query E stmt d) as [[err | res] d1]; reflexivity.
Qed.

Lemma insert_batches_run (E : Env) (schema table : string) (columns : list Column) :
  columns <> [] ->
  forall batches totalInserted d,
    match insert_batches E schema table columns batches totalInserted d with
    | (r, _, evs) =>
        (exists results,
            length results = length batches
            /\ pg_issued evs
               = combine (map (insert_stmt schema table columns) batches) (succeeded results)
            /\ r = Returned (totalInserted + rows_affected results))
        \/ (exists k results err,
               (k < length batches)%nat
               /\ length results = k
               /\ pg_issued evs
                  = (combine (map (insert_stmt schema table columns) (firstn k batches))
                       (succeeded results)
                     ++ [(insert_stmt schema table columns (nth k batches []), inl err)])%list
               /\ r = Thrown err)
    end.
Proof.
  intros Hcols batches.
  induction batches as [| batch rest IH]; intros total d.
  - left. exists []. cbn. repeat split. f_equal. lia.
  - rewrite insert_batches_cons by exact Hcols.
    rewrite bind_unfold, insert_one_run.
    destruct (pg_query E _ d) as [[err | res] d1].
    + right. exists O, [], err. cbn. repeat split. lia.
    + specialize (IH (total + rowCount res) d1).
      destruct (insert_batches E schema table columns rest _ d1) as [[r d2] evs].
      destruct IH as [(results & Hlen & Hev & Hr) | (k & results & err & Hk & Hlen & Hev & Hr)].
      * left. exists (res :: results).
        cbn [app pg_issued length map combine succeeded]. rewrite Hev.
        split; [now rewrite Hlen | split; [reflexivity |]].
        rewrite Hr. unfold rows_affected. cbn [fold_right]. f_equal. lia.
      * right. exists (S k), (res :: results), err.
        cbn [app pg_issued length map combine succeeded firstn nth]. rewrite Hev.
        split; [lia | split; [now rewrite Hlen | split; [reflexivity | exact Hr]]].
Qed.

Lemma insert_batches_no_columns (E : Env) (schema table : string) :
  forall batches totalInserted d,
  exists evs,
    insert_batches E schema table [] batches totalInserted d = (Returned totalInserted, d, evs)
    /\ pg_issued evs = []
    /\ Forall (fun e => e = Console (SkippingEmptyValues schema table)) evs.
Proof.
  induction batches as [| batch rest IH]; intros total d.
  - exists []. repeat split. constructor.
  - cbn [insert_batches]. rewrite log_bind.
    destruct (IH total d) as (evs & -> & Hpg & Hall).
    exists (Console (SkippingEmptyValues schema table) :: evs).
    repeat split; auto.
Qed.

Lemma insert_batches_events (E : Env) (schema table : string) (columns : list Column) :
  forall batches totalInserted d,
    match insert_batches E schema table columns batches totalInserted d with
    | (_, _, evs) =>
        Forall (fun e => is_mismatch_report e = false
                         /\ (e = Console (SkippingEmptyValues schema table) -> columns = []))
          evs
    end.
Proof.
  destruct columns as [| col columns'].
  - intros batches total d.
    destruct (insert_batches_no_columns E schema table batches total d) as (evs & -> & _ & Hall).
    eapply Forall_impl; [| exact Hall]. intros e ->. auto.
  - set (columns := col :: columns').
    assert (Hcols : columns <> []) by discriminate.
    induction batches as [| batch rest IH]; intros total d.
    + constructor.
    + rewrite insert_batches_cons by exact Hcols.
      rewrite bind_unfold, insert_one_run.
      destruct (pg_query E _ d) as [[err | res] d1].
      * repeat constructor; discriminate.
      * specialize (IH (total + rowCount res) d1).
        destruct (insert_batches E schema table columns rest _ d1) as [[r d2] evs].
        constructor; [split; [reflexivity | discriminate] | exact IH].
Qed.

(** C7.  The flattened values of a sub-batch always number
    [columns.length * batch.length]; so no run of [insertIntoPostgres]
    prints the parameter-count report (that branch is never taken), and
    the empty-values skip is printed only when there is no column. *)
Theorem insertIntoPostgres_guards :
  forall (E : Env) (schema table : string) (columns : list Column) (chunk : list Row)
         (d : DB E),
    (forall batch,
        length (Postgres.values_of columns batch) = (length columns * length batch)%nat)
    /\ match Postgres.insertIntoPostgres E schema table columns chunk d with
       | (_, _, evs) =>
           (forall e, In e evs -> is_mismatch_report e = false)
           /\ (In (Console (SkippingEmptyValues schema table)) evs -> columns = [])
       end.
Proof.
  intros E schema table columns chunk d. split.
  - apply values_of_length.
  - rewrite insertIntoPostgres_batches.
    destruct chunk as [| row chunk].
    + split.
      * intros e [<- | []]. reflexivity.
      * intros [H | []]. discriminate.
    + pose proof (insert_batches_events E schema table columns
                    (slices 1000 (row :: chunk)) 0 d) as Hall.
      destruct (insert_batches E schema table columns _ 0 d) as [[r d'] evs].
      rewrite Forall_forall in Hall. split.
      * intros e He. apply (Hall e He).
      * intros He. now apply (Hall _ He).
Qed.

(** C6, as amended.  The chunk splits into consecutive sub-batches of 1 to
    1000 rows; with at least one column, [insertIntoPostgres] sends one
    INSERT per sub-batch, binding the row values in column order, and
    returns the sum of the affected-row counts, or throws the error of the
    first INSERT the database refuses; an empty chunk returns 0 after a
    warning only; with no column every sub-batch is skipped, nothing is
    sent and 0 is returned. *)
Theorem insertIntoPostgres_contract :
  forall (E : Env) (schema table : string) (columns : list Column) (chunk : list Row)
         (d : DB E),
    (concat (slices 1000 chunk) = chunk
     /\ Forall (fun batch => (0 < length batch <= 1000)%nat) (slices 1000 chunk))
    /\ (columns <> [] -> insert_contract E schema table columns chunk d)
    /\ (chunk = [] ->
        Postgres.insertIntoPostgres E schema table columns chunk d
        = (Returned 0, d, [Console (SkippingEmptyChunk schema table)]))
    /\ (columns = [] ->
        exists evs,
          Postgres.insertIntoPostgres E schema table columns chunk d = (Returned 0, d, evs)
          /\ pg_issued evs = []).
Proof.
  intros E schema table columns chunk d.
  split; [| split; [| split]].
  - split; [apply concat_slices | apply slices_bounds]; lia.
  - intros Hcols. unfold insert_contract. rewrite insertIntoPostgres_batches.
    destruct chunk as [| row chunk].
    + left. exists []. repeat split.
    + pose proof (insert_batches_run E schema table columns Hcols
                    (slices 1000 (row :: chunk)) 0 d) as Hrun.
      destruct (insert_batches E schema table columns _ 0 d) as [[r d'] evs].
      exact Hrun.
  - intros ->. reflexivity.
  - intros ->. rewrite insertIntoPostgres_batches.
    destruct chunk as [| row chunk].
    + eexists. split; reflexivity.
    + destruct (insert_batches_no_columns E schema table (slices 1000 (row :: chunk)) 0 d)
        as (evs & Hrun & Hpg & _).
      exists evs. auto.
Qed.

(** C6 as stated fails with an empty column list: a chunk of one row has
    one sub-batch, yet no INSERT is sent and 0 is returned. *)
Lemma insertIntoPostgres_no_columns_counterexample :
  ~ insert_contract (Sim.env Scenario.shop) "sales" "orders" []
      [Sim.order_row 0] Scenario.provisioned.
Proof.
  unfold insert_contract. rewrite insertIntoPostgres_batches.
  cbn.
  intros [(results & Hlen & Hev & _) | (k & results & err & _ & _ & Hev & _)].
  - destruct results as [| res results]; [discriminate Hlen | discriminate Hev].
  - symmetry in Hev. apply app_eq_nil in Hev. destruct Hev as [_ Hev]. discriminate Hev.
Qed.

(** The contract on three rows of SALES.ORDERS and two columns. *)
Lemma insertIntoPostgres_contract_witness :
  insert_contract (Sim.env Scenario.shop) "sales" "orders" Scenario.order_columns
    [Sim.order_row 0; Sim.order_row 1; Sim.order_row 2] Scenario.provisioned.
Proof.
  apply (proj1 (proj2 (insertIntoPostgres_contract (Sim.env Scenario.shop) "sales" "orders"
                         Scenario.order_columns
                         [Sim.order_row 0; Sim.order_row 1; Sim.order_row 2]
                         Scenario.provisioned))).
  discriminate.
Defined.

(** With no column the skip line is printed, and the guard theorem then
    gives back that the column list is empty. *)
Lemma insertIntoPostgres_guards_witness :
  In (Console (SkippingEmptyValues "sales" "orders"))
     (snd (Postgres.insertIntoPostgres (Sim.env Scenario.shop) "sales" "orders" []
             [Sim.order_row 0] Scenario.provisioned))
  /\ @nil Column = [].
Proof.
  split.
  - simpl. left. reflexivity.
  - apply (proj2 (proj2 (insertIntoPostgres_guards (Sim.env Scenario.shop) "sales" "orders" []
                           [Sim.order_row 0] Scenario.provisioned))).
    simpl. left. reflexivity.
Defined.

(** ** Runs of the helpers, by the answer of the environment *)

Lemma upper_char_idem (c : ascii) :
  JsString.upper_char (JsString.upper_char c) = JsString.upper_char c.
Proof. destruct c as [[] [] [] [] [] [] [] []]; reflexivity. Qed.

Lemma toUpperCase_idem (s : string) :
  JsString.toUpperCase (JsString.toUpperCase s) = JsString.toUpperCase s.
Proof.
  induction s as [| c s IH]; [reflexivity |].
  cbn [JsString.toUpperCase]. now rewrite upper_char_idem, IH.
Qed.

Section HelperRuns.
Variable E : Env.

Lemma query_run (stmt : Db2Stmt) (d : DB E) :
  Db2.query E stmt d
  = match db2_query E stmt d with
    | (inl err, d1) => (Thrown err, d1, [Db2Query stmt (inl err)])
    | (inr rows, d1) => (Returned rows, d1, [Db2Query stmt (inr rows)])
    end.
Proof.
  unfold Db2.query. rewrite bind_unfold. unfold db2_call.
  destruct (db2_query E stmt d) as [[err | rows] d1]; reflexivity.
Qed.

Lemma getColumnMetadata_run (schema table : string) (d : DB E) :
  let stmt := SelectColumns (JsString.toUpperCase schema) (JsString.toUpperCase table) in
  Db2.getColumnMetadata E schema table d
  = match db2_query E stmt d with
    | (inl err, d1) =>
        (Returned [], d1,
         [Db2Query stmt (inl err); Console (FailedColumnMetadata schema table (message err))])
    | (inr rows, d1) =>
        match map_or_throw Db2.column_of_row rows with
        | inl err =>
            (Returned [], d1,
             [Db2Query stmt (inr rows);
              Console (FailedColumnMetadata schema table (message err))])
        | inr columns => (Returned columns, d1, [Db2Query stmt (inr rows)])
        end
    end.
Proof.
  intros stmt. unfold Db2.getColumnMetadata.
  rewrite try_catch_unfold, bind_unfold, query_run. fold stmt.
  destruct (db2_query E stmt d) as [[err | rows] d1]; [reflexivity |].
  destruct (map_or_throw Db2.column_of_row rows); reflexivity.
Qed.

Lemma getPrimaryKeys_run (schema table : string) (d : DB E) :
  let stmt := SelectKeyColumns (JsString.toUpperCase schema) (JsString.toUpperCase table) in
  Db2.getPrimaryKeys E schema table d
  = match db2_query E stmt d with
    | (inl err, d1) =>
        (Returned [], d1,
         [Db2Query stmt (inl err); Console (FailedPrimaryKeys schema table (message err))])
    | (inr rows, d1) =>
        match map_or_throw Db2.colname_trim rows with
        | inl err =>
            (Returned [], d1,
             [Db2Query stmt (inr rows);
              Console (FailedPrimaryKeys schema table (message err))])
        | inr keys => (Returned keys, d1, [Db2Query stmt (inr rows)])
        end
    end.
Proof.
  intros stmt. unfold Db2.getPrimaryKeys.
  rewrite try_catch_unfold, bind_unfold, query_run. fold stmt.
  destruct (db2_query E stmt d) as [[err | rows] d1]; [reflexivity |].
  destruct (map_or_throw Db2.colname_trim rows); reflexivity.
Qed.

Lemma getDb2RowCount_run (schema table : string) (d : DB E) :
  let stmt := SelectCount (JsString.toUpperCase schema) (JsString.toUpperCase table) in
  Db2.getDb2RowCount E schema table d
  = match db2_query E stmt d with
    | (inl err, d1) =>
        (Returned (source_count (inl err)), d1,
         [Db2Query stmt (inl err); Console (ErrorRowCount schema table (message err))])
    | (inr rows, d1) =>
        (Returned (source_count (inr rows)), d1, [Db2Query stmt (inr rows)])
    end.
Proof.
  intros stmt. unfold Db2.getDb2RowCount.
  rewrite try_catch_unfold, bind_unfold, query_run. fold stmt.
  destruct (db2_query E stmt d) as [[err | rows] d1]; reflexivity.
Qed.

Lemma getPostgresRowCount_run (schema table : string) (d : DB E) :
  let stmt := SelectCountPg schema table in
  Postgres.getPostgresRowCount E schema table d
  = match pg_query E stmt d with
    | (inl err, d1) =>
        (Returned (destination_count (inl err)), d1,
         [PgQuery stmt (inl err); Console (FailedPgRowCount schema table (message err))])
    | (inr result, d1) =>
        match Postgres.count_of_result result with
        | inl err =>
            (Returned (destination_count (inr result)), d1,
             [PgQuery stmt (inr result);
              Console (FailedPgRowCount schema table (message err))])
        | inr n => (Returned (destination_count (inr result)), d1, [PgQuery stmt (inr result)])
        end
    end.
Proof.
  intros stmt. unfold Postgres.getPostgresRowCount, destination_count.
  rewrite try_catch_unfold, bind_unfold. unfold pg_await. fold stmt.
  destruct (pg_query E stmt d) as [[err | result] d1]; [reflexivity |].
  destruct (Postgres.count_of_result result); reflexivity.
Qed.

Lemma ensureTableExists_run (schema table : string) (columns : list Column)
    (primaryKeys : list string) (d : DB E) :
  let stmt := CreateTable schema table (Postgres.columnDefinitions_of columns) in
  Postgres.ensureTableExists E schema table columns primaryKeys d
  = match pg_query E stmt d with
    | (inl err, d1) =>
        (Thrown err, d1,
         [PgQuery stmt (inl err); Console (FailedEnsureTable schema table (message err))])
    | (inr result, d1) =>
        (Returned tt, d1, [PgQuery stmt (inr result); Console (TableEnsured schema table)])
    end.
Proof.
  intros stmt. unfold Postgres.ensureTableExists.
  rewrite try_catch_unfold, bind_unfold. unfold pg_await. fold stmt.
  destruct (pg_query E stmt d) as [[err | result] d1]; reflexivity.
Qed.

Lemma truncateTable_run (schema table : string) (d : DB E) :
  let stmt := Truncate schema table in
  Postgres.truncateTable E schema table d
  = match pg_query E stmt d with
    | (inl err, d1) =>
        (Thrown err, d1,
         [PgQuery stmt (inl err); Console (FailedTruncate schema table (message err))])
    | (inr result, d1) =>
        (Returned tt, d1, [PgQuery stmt (inr result); Console (TableTruncated schema table)])
    end.
Proof.
  intros stmt. unfold Postgres.truncateTable.
  rewrite try_catch_unfold, bind_unfold. unfold pg_await. fold stmt.
  destruct (pg_query E stmt d) as [[err | result] d1]; reflexivity.
Qed.

Lemma getViewDefinition_run (schema viewName : string) (d : DB E) :
  let stmt := SelectViewText schema viewName in
  Db2.getViewDefinition E schema viewName d
  = match db2_query E stmt d with
    | (inl err, d1) =>
        (Returned "", d1,
         [Console (ViewDefinitionQuery (Sql.db2_text stmt)); Db2Query stmt (inl err);
          Console (ErrorViewDefinition schema viewName (message err))])
    | (inr rows, d1) =>
        match Db2.view_text_of_rows rows with
        | inl err =>
            (Returned "", d1,
             [Console (ViewDefinitionQuery (Sql.db2_text stmt)); Db2Query stmt (inr rows);
              Console (ErrorViewDefinition schema viewName (message err))])
        | inr text =>
            (Returned text, d1,
             [Console (ViewDefinitionQuery (Sql.db2_text stmt)); Db2Query stmt (inr rows)])
        end
    end.
Proof.
  intros stmt. unfold Db2.getViewDefinition. fold stmt.
  rewrite try_catch_unfold, log_bind, bind_unfold, query_run.
  destruct (db2_query E stmt d) as [[err | rows] d1]; [reflexivity |].
  destruct (Db2.view_text_of_rows rows); reflexivity.
Qed.

End HelperRuns.

(** ** db2.js: getViewDefinition *)

(** What [getViewDefinition] returns, by the answer of the catalog: the
    empty string without a row, on an error, or for a text without "AS";
    otherwise the trimmed text after the first "AS" found by the
    case-blind substring search, with the known reference qualified. *)
Lemma getViewDefinition_returns (E : Env) (schema viewName : string) (d : DB E) :
  exists text d1 evs,
    Db2.getViewDefinition E schema viewName d = (Returned text, d1, evs)
    /\ (forall err, fst (db2_query E (SelectViewText schema viewName) d) = inl err -> text = "")
    /\ (fst (db2_query E (SelectViewText schema viewName) d) = inr [] -> text = "")
    /\ (forall ref s rest,
           fst (db2_query E (SelectViewText schema viewName) d)
           = inr (mkRow ref [("TEXT", JStr s)] :: rest) ->
           s <> "" ->
           text = Db2.select_of_view_text s
           /\ (JsString.indexOf (JsString.toUpperCase s) "AS" = -1 -> text = "")).
Proof.
  rewrite getViewDefinition_run.
  destruct (db2_query E (SelectViewText schema viewName) d) as [[err | rows] d1]; cbn [fst].
  - do 3 eexists. split; [reflexivity |]. repeat split; intros; congruence.
  - destruct (Db2.view_text_of_rows rows) as [err | text] eqn:Htext.
    + do 3 eexists. split; [reflexivity |]. split; [congruence |]. split.
      * intros Hrows. injection Hrows as ->. discriminate.
      * intros ref s rest Hrows Hs. injection Hrows as ->.
        cbn in Htext. apply String.eqb_neq in Hs. rewrite Hs in Htext. discriminate.
    + do 3 eexists. split; [reflexivity |]. split; [congruence |]. split.
      * intros Hrows. injection Hrows as ->. cbn in Htext. congruence.
      * intros ref s rest Hrows Hs. injection Hrows as ->.
        cbn in Htext. apply String.eqb_neq in Hs. rewrite Hs in Htext.
        injection Htext as <-. split; [reflexivity |].
        intros Hno. unfold Db2.select_of_view_text. now rewrite Hno.
Qed.

(** C5, at an input where the code departs from it.  The catalog text of
    the view SALES.BASE is CREATE VIEW SALES.BASE AS SELECT ID FROM
    SALES.ORDERS; the first "AS" the search finds lies inside the name
    BASE, so [getViewDefinition] returns E AS SELECT ID FROM SALES.ORDERS
    and not the text after the AS keyword. *)
Theorem getViewDefinition_AS_inside_name :
  fst (fst (Db2.getViewDefinition (Sim.env Scenario.shop) "SALES" "BASE" Sim.empty))
  = Returned "E AS SELECT ID FROM SALES.ORDERS"
  /\ fst (fst (Db2.getViewDefinition (Sim.env Scenario.shop) "SALES" "BASE" Sim.empty))
     <> Returned "SELECT ID FROM SALES.ORDERS".
Proof.
  split.
  - reflexivity.
  - discriminate.
Qed.

(** ** postgres.js: createView *)

Lemma replicateView_returns (E : Env) (schema viewName : string) (d : DB E) :
  exists d1 evs, Replicate.replicateView E schema viewName d = (Returned tt, d1, evs).
Proof.
  unfold Replicate.replicateView. rewrite log_bind, try_catch_unfold, bind_unfold.
  destruct (getViewDefinition_returns E (JsString.toUpperCase schema)
              (JsString.toUpperCase viewName) d) as (text & d1 & ev1 & -> & _).
  rewrite bind_unfold.
  unfold Postgres.createView. rewrite try_catch_unfold, log_bind, bind_unfold.
  unfold pg_await.
  destruct (pg_query E _ d1) as [[err | result] d2]; do 2 eexists; reflexivity.
Qed.

(** C8.  When the database refuses the CREATE OR REPLACE VIEW statement,
    [createView] throws ReferenceError for [query] and not the database
    error: it has printed the composed statement and the failure line, the
    Failing Query line is not printed.  [replicateView], which called it,
    catches this error, reports it and returns, so the loop over the views
    goes on with the next one. *)
Theorem createView_failure_is_ReferenceError :
  forall (E : Env) (schema viewName viewDefinition : string) (d d1 : DB E) (err : JsError),
    let query :=
      CreateOrReplaceView schema viewName
        (JsString.replaceFirst_ci viewDefinition "WITH UR" "") in
    let printed :=
      [Console (ComposedQuery (Sql.pg_text query));
       PgQuery query (inl err);
       Console (FailedCreateView schema viewName (message err))] in
    pg_query E query d = (inl err, d1) ->
    Postgres.createView E schema viewName viewDefinition d
    = (Thrown (ReferenceError "query"), d1, printed)
    /\ (forall text, ~ In (Console (FailingQuery text)) printed)
    /\ (forall (d0 : DB E) (ev0 : list Event),
           Db2.getViewDefinition E (JsString.toUpperCase schema)
             (JsString.toUpperCase viewName) d0
           = (Returned viewDefinition, d, ev0) ->
           let report :=
             (Console (CreatingView schema viewName) :: ev0 ++ printed
              ++ [Console (FailedCreateViewFor schema viewName "query is not defined")])%list in
           Replicate.replicateView E schema viewName d0 = (Returned tt, d1, report)
           /\ forall rest,
               Replicate.replicateViews E (mkTarget schema viewName :: rest) d0
               = match Replicate.replicateViews E rest d1 with
                 | (r, d2, evs) =>
                     (r, d2, (Console (ProcessingView schema viewName) :: report ++ evs)%list)
                 end).
Proof.
  intros E schema viewName viewDefinition d d1 err query printed Hfail.
  assert (Hcreate : Postgres.createView E schema viewName viewDefinition d
                    = (Thrown (ReferenceError "query"), d1, printed)).
  { unfold Postgres.createView. fold query.
    rewrite try_catch_unfold, log_bind, bind_unfold. unfold pg_await.
    rewrite Hfail. reflexivity. }
  split; [exact Hcreate | split].
  - intros text [H | [H | [H | []]]]; discriminate.
  - intros d0 ev0 Hdef report.
    assert (Hview : Replicate.replicateView E schema viewName d0 = (Returned tt, d1, report)).
    { unfold Replicate.replicateView.
      rewrite log_bind, try_catch_unfold, bind_unfold, Hdef, bind_unfold, Hcreate.
      cbn. unfold report. now rewrite <- !app_assoc. }
    split; [exact Hview |].
    intros rest. unfold Replicate.replicateViews. cbn [for_each tgt_schema tgt_table].
    rewrite bind_unfold, log_bind, Hview.
    fold (Replicate.replicateViews E rest).
    destruct (Replicate.replicateViews E rest d1) as [[r d2] evs]. reflexivity.
Qed.

Lemma createView_failure_witness :
  pg_query (Sim.env Scenario.views_refused)
    (CreateOrReplaceView "sales" "base" "SELECT ID FROM SALES.ORDERS ") Sim.empty
  = (inl (DbError "rejected"), Sim.empty)
  /\ Postgres.createView (Sim.env Scenario.views_refused) "sales" "base"
       "SELECT ID FROM SALES.ORDERS WITH UR" Sim.empty
     = (Thrown (ReferenceError "query"), Sim.empty,
        [Console (ComposedQuery
                    (Sql.pg_text (CreateOrReplaceView "sales" "base"
                                    "SELECT ID FROM SALES.ORDERS ")));
         PgQuery (CreateOrReplaceView "sales" "base" "SELECT ID FROM SALES.ORDERS ")
           (inl (DbError "rejected"));
         Console (FailedCreateView "sales" "base" "rejected")]).
Proof.
  split; [reflexivity |].
  apply (proj1 (createView_failure_is_ReferenceError (Sim.env Scenario.views_refused)
                  "sales" "base" "SELECT ID FROM SALES.ORDERS WITH UR"
                  Sim.empty Sim.empty (DbError "rejected") eq_refl)).
Defined.

(** ** replicate.js: replicateTable *)

Section TableRuns.
Variable E : Env.

Lemma catalog_read_is_harmless (e : Event) :
  is_catalog_read e = true ->
  is_create_table e = false /\ is_truncate e = false
  /\ is_chunk_fetch e = false /\ is_insert e = false.
Proof. destruct e as [| | [] | |]; cbn; intros; repeat split; congruence. Qed.

Lemma getColumnMetadata_total (schema table : string) (d : DB E) :
  exists columns evs,
    Db2.getColumnMetadata E schema table d
    = (Returned columns,
       snd (db2_query E (SelectColumns (JsString.toUpperCase schema)
                           (JsString.toUpperCase table)) d),
       evs)
    /\ Forall (fun e => is_catalog_read e = true) evs.
Proof.
  rewrite getColumnMetadata_run.
  destruct (db2_query E _ d) as [[err | rows] d1]; cbn [snd].
  - do 2 eexists. split; [reflexivity | repeat constructor].
  - destruct (map_or_throw Db2.column_of_row rows);
      do 2 eexists; (split; [reflexivity | repeat constructor]).
Qed.

Lemma getPrimaryKeys_total (schema table : string) (d : DB E) :
  exists keys evs,
    Db2.getPrimaryKeys E schema table d
    = (Returned keys,
       snd (db2_query E (SelectKeyColumns (JsString.toUpperCase schema)
                           (JsString.toUpperCase table)) d),
       evs)
    /\ Forall (fun e => is_catalog_read e = true) evs.
Proof.
  rewrite getPrimaryKeys_run.
  destruct (db2_query E _ d) as [[err | rows] d1]; cbn [snd].
  - do 2 eexists. split; [reflexivity | repeat constructor].
  - destruct (map_or_throw Db2.colname_trim rows);
      do 2 eexists; (split; [reflexivity | repeat constructor]).
Qed.

Lemma getDb2RowCount_total (schema table : string) (d : DB E) :
  exists count evs,
    Db2.getDb2RowCount E schema table d
    = (Returned count,
       snd (db2_query E (SelectCount (JsString.toUpperCase schema)
                           (JsString.toUpperCase table)) d),
       evs)
    /\ Forall (fun e => is_catalog_read e = true) evs.
Proof.
  rewrite getDb2RowCount_run.
  destruct (db2_query E _ d) as [[err | rows] d1]; cbn [snd];
    do 2 eexists; (split; [reflexivity | repeat constructor]).
Qed.

Lemma replicateTables_cons (config : Config) (fuel : nat) (schema table : string)
    (rest : list Target) (d : DB E) :
  Replicate.replicateTables E config fuel (mkTarget schema table :: rest) d
  = match Replicate.replicateTable E config fuel schema table d with
    | (Returned _, d1, ev1) =>
        match Replicate.replicateTables E config fuel rest d1 with
        | (r, d2, ev2) => (r, d2, (Console (ProcessingTable schema table) :: ev1 ++ ev2)%list)
        end
    | (Thrown err, d1, ev1) => (Thrown err, d1, Console (ProcessingTable schema table) :: ev1)
    | (Diverged, d1, ev1) => (Diverged, d1, Console (ProcessingTable schema table) :: ev1)
    end.
Proof.
  unfold Replicate.replicateTables. cbn [for_each tgt_schema tgt_table].
  rewrite bind_unfold, log_bind.
  destruct (Replicate.replicateTable E config fuel schema table d) as [[[[] | err |] d1] ev1];
    reflexivity.
Qed.

End TableRuns.

(** C4.  A failing catalog query makes [getColumnMetadata] return the
    empty list; and whenever it returns the empty list, [replicateTable]
    returns normally after the skip line, having sent no CREATE TABLE, no
    chunk fetch and no INSERT, and the loop over the tables goes on with
    the next one. *)
Theorem replicateTable_skips_without_columns :
  forall (E : Env) (config : Config) (fuel : nat) (schema table : string) (d : DB E),
    let db2Schema := JsString.toUpperCase schema in
    let db2Table := JsString.toUpperCase table in
    (forall err,
        fst (db2_query E (SelectColumns db2Schema db2Table) d) = inl err ->
        fst (fst (Db2.getColumnMetadata E db2Schema db2Table d)) = Returned [])
    /\ (fst (fst (Db2.getColumnMetadata E db2Schema db2Table d)) = Returned [] ->
        exists d1 evs,
          Replicate.replicateTable E config fuel schema table d = (Returned tt, d1, evs)
          /\ In (Console (SkippingNoColumns schema table)) evs
          /\ Forall (fun e => is_create_table e = false
                              /\ is_chunk_fetch e = false
                              /\ is_insert e = false) evs
          /\ forall rest,
              Replicate.replicateTables E config fuel (mkTarget schema table :: rest) d
              = match Replicate.replicateTables E config fuel rest d1 with
                | (r, d2, evs') =>
                    (r, d2, (Console (ProcessingTable schema table) :: evs ++ evs')%list)
                end).
Proof.
  intros E config fuel schema table d db2Schema db2Table. split.
  - intros err Herr. rewrite getColumnMetadata_run.
    unfold db2Schema, db2Table. rewrite !toUpperCase_idem.
    fold db2Schema db2Table.
    destruct (db2_query E (SelectColumns db2Schema db2Table) d) as [[err' | rows] d1];
      [reflexivity | discriminate Herr].
  - intros Hempty.
    destruct (getColumnMetadata_total E db2Schema db2Table d) as (columns & ev1 & Hcols & Hev1).
    rewrite Hcols in Hempty. cbn in Hempty. injection Hempty as ->.
    set (d1 := snd (db2_query E _ d)) in Hcols.
    destruct (getPrimaryKeys_total E db2Schema db2Table d1) as (keys & ev2 & Hkeys & Hev2).
    set (d2 := snd (db2_query E _ d1)) in Hkeys.
    assert (Hrun : Replicate.replicateTable E config fuel schema table d
                   = (Returned tt, d2,
                      (Console (ReplicatingTable schema table)
                       :: ev1 ++ ev2 ++ [Console (SkippingNoColumns schema table)])%list)).
    { unfold Replicate.replicateTable. fold db2Schema db2Table.
      rewrite log_bind, bind_unfold, Hcols, bind_unfold, Hkeys. reflexivity. }
    exists d2. eexists. split; [exact Hrun | split; [| split]].
    + right. apply in_or_app. right. apply in_or_app. right. left. reflexivity.
    + constructor; [repeat split |].
      apply Forall_app. split; [| apply Forall_app; split].
      * eapply Forall_impl; [| exact Hev1]. intros e He.
        destruct (catalog_read_is_harmless e He) as (? & ? & ? & ?). auto.
      * eapply Forall_impl; [| exact Hev2]. intros e He.
        destruct (catalog_read_is_harmless e He) as (? & ? & ? & ?). auto.
      * repeat constructor.
    + intros rest. rewrite replicateTables_cons, Hrun. reflexivity.
Qed.

Lemma replicateTable_skips_without_columns_witness :
  fst (fst (Db2.getColumnMetadata (Sim.env Scenario.catalog_down) "SALES" "ORDERS"
              Sim.empty))
  = Returned []
  /\ exists d1 evs,
      Replicate.replicateTable (Sim.env Scenario.catalog_down) Scenario.one_table 5
        "sales" "orders" Sim.empty
      = (Returned tt, d1, evs)
      /\ In (Console (SkippingNoColumns "sales" "orders")) evs
      /\ Forall (fun e => is_create_table e = false
                          /\ is_chunk_fetch e = false
                          /\ is_insert e = false) evs
      /\ forall rest,
          Replicate.replicateTables (Sim.env Scenario.catalog_down) Scenario.one_table 5
            (mkTarget "sales" "orders" :: rest) Sim.empty
          = match Replicate.replicateTables (Sim.env Scenario.catalog_down)
                    Scenario.one_table 5 rest d1 with
            | (r, d2, evs') =>
                (r, d2, (Console (ProcessingTable "sales" "orders") :: evs ++ evs')%list)
            end.
Proof.
  split; [reflexivity |].
  apply (proj2 (replicateTable_skips_without_columns (Sim.env Scenario.catalog_down)
                  Scenario.one_table 5 "sales" "orders" Sim.empty)).
  reflexivity.
Defined.

Section Reconciliation.
Variable E : Env.

Lemma catalog_reads_no_reload (evs : list Event) :
  Forall (fun e => is_catalog_read e = true) evs -> Forall no_reload evs.
Proof.
  apply Forall_impl. intros e He.
  destruct (catalog_read_is_harmless e He) as (? & ? & ? & ?). repeat split; auto.
Qed.

Lemma ensureTableExists_frame (schema table : string) (columns : list Column)
    (keys : list string) (d : DB E) :
  exists r evs,
    Postgres.ensureTableExists E schema table columns keys d
    = (r, snd (pg_query E (CreateTable schema table
                             (Postgres.columnDefinitions_of columns)) d), evs)
    /\ Forall no_reload evs.
Proof.
  rewrite ensureTableExists_run.
  destruct (pg_query E _ d) as [[err | result] d1]; cbn [snd];
    do 2 eexists; (split; [reflexivity | repeat constructor]).
Qed.

Lemma getPostgresRowCount_frame (schema table : string) (d : DB E) :
  exists count evs,
    Postgres.getPostgresRowCount E schema table d
    = (Returned count, snd (pg_query E (SelectCountPg schema table) d), evs)
    /\ Forall no_reload evs.
Proof.
  rewrite getPostgresRowCount_run.
  destruct (pg_query E _ d) as [[err | result] d1]; cbn [snd].
  - do 2 eexists. split; [reflexivity | repeat constructor].
  - destruct (Postgres.count_of_result result);
      do 2 eexists; (split; [reflexivity | repeat constructor]).
Qed.

End Reconciliation.

(** C3.  Without reset, when the processing of a table has found columns,
    ensured the destination table and counted the same number of rows on
    both sides, [replicateTable] prints the skip line and returns: it has
    sent no TRUNCATE, no chunk fetch and no INSERT, and whatever can be
    observed of the destination rows is as it was. *)
Theorem replicateTable_skips_when_counts_match :
  forall (E : Env) (config : Config) (fuel : nat) (schema table : string)
         (d d1 d2 d3 d4 d5 : DB E) (ev1 ev2 ev3 ev4 ev5 : list Event)
         (columns : list Column) (keys : list string) (db2Count postgresCount : Number),
    let db2Schema := JsString.toUpperCase schema in
    let db2Table := JsString.toUpperCase table in
    reset config = false ->
    Db2.getColumnMetadata E db2Schema db2Table d = (Returned columns, d1, ev1) ->
    Db2.getPrimaryKeys E db2Schema db2Table d1 = (Returned keys, d2, ev2) ->
    columns <> [] ->
    Postgres.ensureTableExists E schema table columns keys d2 = (Returned tt, d3, ev3) ->
    Db2.getDb2RowCount E db2Schema db2Table d3 = (Returned db2Count, d4, ev4) ->
    Postgres.getPostgresRowCount E schema table d4 = (Returned postgresCount, d5, ev5) ->
    strict_equal postgresCount db2Count = true ->
    exists evs,
      Replicate.replicateTable E config fuel schema table d = (Returned tt, d5, evs)
      /\ In (Console (SkippingCountsMatch schema table)) evs
      /\ Forall (fun e => is_truncate e = false
                          /\ is_chunk_fetch e = false
                          /\ is_insert e = false) evs
      /\ forall (X : Type) (obs : DB E -> X), rows_observation E obs -> obs d5 = obs d.
Proof.
  intros E config fuel schema table d d1 d2 d3 d4 d5 ev1 ev2 ev3 ev4 ev5
         columns keys db2Count postgresCount db2Schema db2Table
         Hreset Hcols Hkeys Hsome Hensure Hsrc Hdst Hequal.
  assert (Hrun : exists line,
             Replicate.replicateTable E config fuel schema table d
             = (Returned tt, d5,
                (Console (ReplicatingTable schema table)
                 :: ev1 ++ ev2 ++ ev3 ++ ev4 ++ Console line
                 :: ev5 ++ [Console (SkippingCountsMatch schema table)])%list)).
  { unfold Replicate.replicateTable. fold db2Schema db2Table.
    rewrite log_bind, bind_unfold, Hcols, bind_unfold, Hkeys.
    destruct columns as [| col columns']; [congruence |].
    rewrite bind_unfold, Hensure, bind_unfold, Hsrc.
    assert (Hrec : Replicate.reconcile E config schema table db2Count d4
                   = (Returned false, d5,
                      (ev5 ++ [Console (SkippingCountsMatch schema table)])%list)).
    { unfold Replicate.reconcile. rewrite Hreset. cbn [negb].
      rewrite bind_unfold, Hdst, Hequal. reflexivity. }
    destruct (positive db2Count); eexists;
      rewrite log_bind, bind_unfold, Hrec; cbn [ret app];
      rewrite app_nil_r; reflexivity. }
  destruct Hrun as [line Hrun]. eexists. split; [exact Hrun |].
  destruct (getColumnMetadata_total E db2Schema db2Table d) as (c' & e1 & H1 & Hev1).
  rewrite Hcols in H1. injection H1 as _ Hd1 <-.
  destruct (getPrimaryKeys_total E db2Schema db2Table d1) as (k' & e2 & H2 & Hev2).
  rewrite Hkeys in H2. injection H2 as _ Hd2 <-.
  destruct (ensureTableExists_frame E schema table columns keys d2) as (r' & e3 & H3 & Hev3).
  rewrite Hensure in H3. injection H3 as _ Hd3 <-.
  destruct (getDb2RowCount_total E db2Schema db2Table d3) as (n' & e4 & H4 & Hev4).
  rewrite Hsrc in H4. injection H4 as _ Hd4 <-.
  destruct (getPostgresRowCount_frame E schema table d4) as (m' & e5 & H5 & Hev5).
  rewrite Hdst in H5. injection H5 as _ Hd5 <-.
  split; [| split].
  - right. repeat (apply in_or_app; right). right.
    apply in_or_app. right. left. reflexivity.
  - change (Forall no_reload
              (Console (ReplicatingTable schema table)
               :: ev1 ++ ev2 ++ ev3 ++ ev4 ++ Console line
               :: ev5 ++ [Console (SkippingCountsMatch schema table)])%list).
    constructor; [repeat split |].
    repeat (apply Forall_app; split); auto using catalog_reads_no_reload.
    constructor; [repeat split |].
    apply Forall_app. split; [exact Hev5 | repeat constructor].
  - intros X obs [Hdb2 Hpg].
    rewrite Hd5, Hpg by reflexivity.
    rewrite Hd4, Hdb2. rewrite Hd3, Hpg by reflexivity.
    rewrite Hd2, Hdb2. rewrite Hd1, Hdb2. reflexivity.
Qed.

Lemma find_app {A : Type} (p : A -> bool) (l1 l2 : list A) :
  find p (l1 ++ l2) = match find p l1 with
                      | Some x => Some x
                      | None => find p l2
                      end.
Proof.
  induction l1 as [| x l1 IH]; [reflexivity |].
  cbn [app find]. destruct (p x); [reflexivity | exact IH].
Qed.

(** In the reference environment the rows of a destination table are such
    an observation. *)
Lemma sim_rows_observation (setup : Sim.Setup) (schema table : string) :
  rows_observation (Sim.env setup) (Sim.rows_of schema table).
Proof.
  split.
  - intros stmt d. reflexivity.
  - intros stmt d Hstmt. cbn [pg_query Sim.env].
    destruct (Sim.pg_rejects setup stmt); [reflexivity |].
    destruct stmt as [s | s | s t0 cols | s t0 names phs vals | s v def | s t0 | s t0];
      try discriminate Hstmt; cbn [Sim.dest_step snd].
    + reflexivity.
    + destruct (find (Sim.is_dest s t0) (Sim.dest_tables d)) eqn:Hfind; [reflexivity |].
      cbn [snd]. unfold Sim.rows_of. cbn [Sim.dest_tables]. rewrite find_app.
      destruct (find (Sim.is_dest schema table) (Sim.dest_tables d)); [reflexivity |].
      cbn [find]. destruct (Sim.is_dest schema table _); reflexivity.
    + reflexivity.
    + destruct (find (Sim.is_dest s t0) (Sim.dest_tables d)); reflexivity.
Qed.

Lemma replicateTable_skips_when_counts_match_witness :
  strict_equal (Finite 5) (Finite 5) = true
  /\ exists evs,
      Replicate.replicateTable (Sim.env Scenario.shop) Scenario.one_table 5 "sales" "orders"
        Scenario.in_sync
      = (Returned tt, Scenario.in_sync, evs)
      /\ In (Console (SkippingCountsMatch "sales" "orders")) evs
      /\ Forall (fun e => is_truncate e = false
                          /\ is_chunk_fetch e = false
                          /\ is_insert e = false) evs
      /\ forall (X : Type) (obs : Sim.State -> X),
          rows_observation (Sim.env Scenario.shop) obs ->
          obs Scenario.in_sync = obs Scenario.in_sync.
Proof.
  split; [reflexivity |].
  eapply (replicateTable_skips_when_counts_match (Sim.env Scenario.shop) Scenario.one_table 5
            "sales" "orders" Scenario.in_sync);
    [reflexivity | reflexivity | reflexivity | discriminate
     | reflexivity | reflexivity | reflexivity | reflexivity].
Defined.

(** ** replicate.js: what a failing table does to the run *)

Lemma insert_batches_terminates (E : Env) (schema table : string) (columns : list Column)
    (batches : list (list Row)) (totalInserted : Z) (d : DB E) :
  fst (fst (insert_batches E schema table columns batches totalInserted d)) <> Diverged.
Proof.
  destruct columns as [| col columns'].
  - destruct (insert_batches_no_columns E schema table batches totalInserted d)
      as (evs & -> & _). discriminate.
  - pose proof (insert_batches_run E schema table (col :: columns') ltac:(discriminate)
                  batches totalInserted d) as Hrun.
    destruct (insert_batches E schema table (col :: columns') batches totalInserted d)
      as [[r d1] evs].
    destruct Hrun as [(results & _ & _ & ->) | (k & results & err & _ & _ & _ & ->)];
      discriminate.
Qed.

Lemma insertIntoPostgres_terminates (E : Env) (schema table : string)
    (columns : list Column) (chunk : list Row) (d : DB E) :
  fst (fst (Postgres.insertIntoPostgres E schema table columns chunk d)) <> Diverged.
Proof.
  rewrite insertIntoPostgres_batches. destruct chunk; [discriminate |].
  apply insert_batches_terminates.
Qed.

Lemma fetchChunk_returns (E : Env) (schema table : string) (columns : list Column)
    (size offset : Z) (d : DB E) :
  exists chunk d1 evs,
    Db2.fetchChunk E schema table columns size offset d = (Returned chunk, d1, evs).
Proof.
  unfold Db2.fetchChunk. rewrite bind_unfold.
  destruct (getPrimaryKeys_total E (JsString.toUpperCase schema) (JsString.toUpperCase table) d)
    as (keys & ev1 & -> & _).
  rewrite try_catch_unfold, bind_unfold. unfold db2_call.
  destruct (db2_query E _ _) as [[err | rows] d2]; do 3 eexists; reflexivity.
Qed.

(** Inside the transfer loop every exception is caught: one pass returns,
    whatever the insert does. *)
Lemma transfer_step_returns (E : Env) (config : Config)
    (schema table db2Schema db2Table : string) (columns : list Column)
    (db2Count : Number) (totalFetched offset : Z) (d : DB E) :
  exists step d1 evs,
    Replicate.transfer_step E config schema table db2Schema db2Table columns db2Count
      totalFetched offset d
    = (Returned step, d1, evs).
Proof.
  unfold Replicate.transfer_step. rewrite try_catch_unfold, bind_unfold.
  destruct (fetchChunk_returns E db2Schema db2Table columns (chunkSize config) offset d)
    as (chunk & d1 & ev1 & ->).
  destruct chunk as [| row chunk]; [do 3 eexists; reflexivity |].
  rewrite try_catch_unfold, bind_unfold.
  pose proof (insertIntoPostgres_terminates E schema table columns (row :: chunk) d1) as Hterm.
  destruct (Postgres.insertIntoPostgres E schema table columns (row :: chunk) d1)
    as [[[n | err |] d2] ev2]; [| | now contradiction Hterm].
  - destruct (positive db2Count); do 3 eexists; reflexivity.
  - do 3 eexists; reflexivity.
Qed.

Lemma transfer_loop_never_throws (E : Env) (config : Config)
    (schema table db2Schema db2Table : string) (columns : list Column) (db2Count : Number) :
  forall fuel totalFetched offset d err,
    fst (fst (Replicate.transfer_loop E config fuel schema table db2Schema db2Table columns
                db2Count totalFetched offset d))
    <> Thrown err.
Proof.
  induction fuel as [| fuel IH]; intros total offset d err; [discriminate |].
  cbn [Replicate.transfer_loop]. rewrite bind_unfold.
  destruct (transfer_step_returns E config schema table db2Schema db2Table columns db2Count
              total offset d) as ([fetched [offset' |]] & d1 & ev1 & ->).
  - specialize (IH fetched offset' d1 err).
    destruct (Replicate.transfer_loop E config fuel schema table db2Schema db2Table columns
                db2Count fetched offset' d1) as [[r d2] ev2].
    exact IH.
  - discriminate.
Qed.

(** Outside the loop nothing catches: an error of [ensureTableExists]
    leaves [replicateTable], and an error leaving [replicateTable] ends the
    loop over the tables. *)
Lemma replicateTable_propagates_create_failure (E : Env) (config : Config) (fuel : nat)
    (schema table : string) (d d1 d2 d3 : DB E) (ev1 ev2 ev3 : list Event)
    (columns : list Column) (keys : list string) (err : JsError) :
  Db2.getColumnMetadata E (JsString.toUpperCase schema) (JsString.toUpperCase table) d
  = (Returned columns, d1, ev1) ->
  Db2.getPrimaryKeys E (JsString.toUpperCase schema) (JsString.toUpperCase table) d1
  = (Returned keys, d2, ev2) ->
  columns <> [] ->
  Postgres.ensureTableExists E schema table columns keys d2 = (Thrown err, d3, ev3) ->
  Replicate.replicateTable E config fuel schema table d
  = (Thrown err, d3, (Console (ReplicatingTable schema table) :: ev1 ++ ev2 ++ ev3)%list)
  /\ forall rest,
      Replicate.replicateTables E config fuel (mkTarget schema table :: rest) d
      = (Thrown err, d3,
         (Console (ProcessingTable schema table)
          :: Console (ReplicatingTable schema table) :: ev1 ++ ev2 ++ ev3)%list).
Proof.
  intros Hcols Hkeys Hsome Hensure.
  assert (Hrun : Replicate.replicateTable E config fuel schema table d
                 = (Thrown err, d3,
                    (Console (ReplicatingTable schema table) :: ev1 ++ ev2 ++ ev3)%list)).
  { unfold Replicate.replicateTable.
    rewrite log_bind, bind_unfold, Hcols, bind_unfold, Hkeys.
    destruct columns as [| col columns']; [congruence |].
    rewrite bind_unfold, Hensure. reflexivity. }
  split; [exact Hrun |].
  intros rest. rewrite replicateTables_cons, Hrun. reflexivity.
Qed.

(** C1, at inputs where the code departs from it.  With two tables and a
    view configured, a destination that refuses CREATE TABLE for the first
    table, or TRUNCATE for it, makes [replicateAll] itself throw the
    database error: the second table is never processed, the views are
    never started, the completion line is not printed and the source
    connection is not closed. *)
Theorem replicateAll_aborts_outside_the_loop :
  (let run := Replicate.replicateAll (Sim.env Scenario.create_refused) Scenario.two_tables 10
                Sim.empty in
   fst (fst run) = Thrown (DbError "rejected")
   /\ In (Console (FailedEnsureTable "sales" "orders" "rejected")) (snd run)
   /\ ~ In (Console (ProcessingTable "sales" "items")) (snd run)
   /\ ~ In (Console StartingViewReplication) (snd run)
   /\ ~ In (Console ReplicationComplete) (snd run)
   /\ ~ In Db2Close (snd run))
  /\ (let run := Replicate.replicateAll (Sim.env Scenario.truncate_refused) Scenario.two_tables
                   10 Scenario.stale in
      fst (fst run) = Thrown (DbError "rejected")
      /\ In (Console (FailedTruncate "sales" "orders" "rejected")) (snd run)
      /\ ~ In (Console (ProcessingTable "sales" "items")) (snd run)
      /\ ~ In (Console StartingViewReplication) (snd run)
      /\ ~ In (Console ReplicationComplete) (snd run)
      /\ ~ In Db2Close (snd run)).
Proof.
  split; vm_compute; repeat split; try tauto;
    try (intros H; repeat (destruct H as [H | H]; [discriminate H |]); exact H).
Qed.

(** By contrast an INSERT refused inside the loop is caught there: the
    table is reported as failed and the run goes on to the second table
    and the views. *)
Example replicateAll_survives_insert_failure :
  let run := Replicate.replicateAll (Sim.env Scenario.insert_refused) Scenario.two_tables 10
               Scenario.stale in
  fst (fst run) = Returned tt
  /\ In (Console (SpinnerFail "sales" "orders" "rejected")) (snd run)
  /\ In (Console (ProcessingTable "sales" "items")) (snd run)
  /\ In (Console (ViewReplicated "sales" "base")) (snd run)
  /\ In Db2Close (snd run).
Proof.
  vm_compute. repeat split; tauto.
Qed.

(** ** replicate.js: the transfer loop when every fetch and insert succeeds *)

Lemma fetched_chunks_app (a b : list Event) :
  fetched_chunks (a ++ b) = (fetched_chunks a ++ fetched_chunks b)%list.
Proof.
  induction a as [| e a IH]; [reflexivity |].
  destruct e as [| | [] | |]; cbn [app fetched_chunks]; rewrite IH; reflexivity.
Qed.

Lemma inserted_rows_app (a b : list Event) :
  inserted_rows (a ++ b) = inserted_rows a + inserted_rows b.
Proof.
  induction a as [| e a IH]; [reflexivity |].
  destruct e as [| | | [] [] |]; cbn [app inserted_rows]; rewrite IH; lia.
Qed.

Lemma catalog_reads_measure (evs : list Event) :
  Forall (fun e => is_catalog_read e = true) evs ->
  fetched_chunks evs = [] /\ inserted_rows evs = 0.
Proof.
  induction 1 as [| e evs He _ [IH1 IH2]]; [split; reflexivity |].
  destruct e as [| | [] | |]; cbn in He; try discriminate; cbn; auto.
Qed.

Lemma length_concat_slices {A : Type} (size : nat) (l : list A) :
  (0 < size)%nat ->
  fold_right (fun batch acc => Z.of_nat (length batch) + acc) 0 (slices size l)
  = Z.of_nat (length l).
Proof.
  intros Hsize. pattern l. apply (slices_ind size); [exact Hsize | reflexivity |].
  clear l. intros l Hl IH. rewrite slices_cons by auto.
  cbn [fold_right]. rewrite IH, length_firstn, length_skipn. lia.
Qed.

Section TransferSucceeds.
Variable E : Env.
Variable Inv : DB E -> Prop.
Variable config : Config.
Variables schema table db2Schema db2Table : string.
Variable columns : list Column.
Variable db2Count : Number.
Variable rows : list Row.

Hypothesis size_positive : 0 < chunkSize config.
Hypothesis some_column : columns <> [].
Hypothesis succeeds :
  transfer_succeeds E Inv schema table db2Schema db2Table (chunkSize config) rows.

Lemma insert_batches_succeed :
  forall batches totalInserted d,
    Inv d ->
    exists d1 evs,
      insert_batches E schema table columns batches totalInserted d
      = (Returned (totalInserted
                   + fold_right (fun batch acc => Z.of_nat (length batch) + acc) 0 batches),
         d1, evs)
      /\ Inv d1
      /\ fetched_chunks evs = []
      /\ inserted_rows evs
         = fold_right (fun batch acc => Z.of_nat (length batch) + acc) 0 batches.
Proof.
  induction batches as [| batch rest IH]; intros total d Hd.
  - exists d, []. cbn [insert_batches fold_right ret]. rewrite Z.add_0_r.
    repeat split; auto.
  - rewrite insert_batches_cons by exact some_column.
    rewrite bind_unfold, insert_one_run.
    destruct (insert_answers _ _ _ _ _ _ _ _ succeeds
                (map (fun col => Sql.qq (col_name col)) columns)
                (map (Postgres.placeholders_of columns batch) batch)
                (Postgres.values_of columns batch) d Hd)
      as (result & d1 & Hq & Hcount & Hd1).
    unfold insert_stmt at 1. rewrite Hq.
    destruct (IH (total + rowCount result) d1 Hd1) as (d2 & evs & -> & Hd2 & Hf & Hi).
    rewrite length_map in Hcount.
    exists d2. eexists. split; [| split; [exact Hd2 | split]].
    + cbn [fold_right]. rewrite Hcount. do 3 f_equal. lia.
    + cbn [app fetched_chunks]. exact Hf.
    + cbn [app inserted_rows fold_right]. unfold insert_stmt. cbn [inserted_rows].
      rewrite Hi, Hcount. reflexivity.
Qed.

Lemma insertIntoPostgres_succeeds (chunk : list Row) (d : DB E) :
  chunk <> [] -> Inv d ->
  exists d1 evs,
    Postgres.insertIntoPostgres E schema table columns chunk d
    = (Returned (Z.of_nat (length chunk)), d1, evs)
    /\ Inv d1
    /\ fetched_chunks evs = []
    /\ inserted_rows evs = Z.of_nat (length chunk).
Proof.
  intros Hchunk Hd. rewrite insertIntoPostgres_batches.
  destruct chunk as [| row chunk']; [congruence |].
  destruct (insert_batches_succeed (slices 1000 (row :: chunk')) 0 d Hd)
    as (d1 & evs & Hrun & Hd1 & Hf & Hi).
  rewrite length_concat_slices in * by lia.
  exists d1, evs. rewrite Hrun. repeat split; auto.
Qed.

Lemma fetchChunk_succeeds (offset : Z) (d : DB E) :
  0 <= offset -> Inv d ->
  exists d1 evs,
    Db2.fetchChunk E db2Schema db2Table columns (chunkSize config) offset d
    = (Returned (page rows offset (chunkSize config)), d1, evs)
    /\ Inv d1
    /\ fetched_chunks evs = [inr (page rows offset (chunkSize config))]
    /\ inserted_rows evs = 0.
Proof.
  intros Hoffset Hd. unfold Db2.fetchChunk. rewrite bind_unfold.
  destruct (getPrimaryKeys_total E (JsString.toUpperCase db2Schema)
              (JsString.toUpperCase db2Table) d) as (keys & ev1 & -> & Hev1).
  set (d1 := snd (db2_query E _ d)).
  assert (Hd1 : Inv d1) by (apply (source_keeps _ _ _ _ _ _ _ _ succeeds); exact Hd).
  rewrite try_catch_unfold, bind_unfold. unfold db2_call.
  pose proof (fetch_answers _ _ _ _ _ _ _ _ succeeds
                (Db2.orderByClause_of keys) offset d1 Hoffset Hd1) as Hfetch.
  pose proof (source_keeps _ _ _ _ _ _ _ _ succeeds
                (SelectChunk db2Schema db2Table (Db2.orderByClause_of keys) offset
                   (chunkSize config)) d1 Hd1) as Hd2.
  destruct (db2_query E _ d1) as [answer d2]. cbn [fst snd] in Hfetch, Hd2. subst answer.
  destruct (catalog_reads_measure ev1 Hev1) as [Hf Hi].
  exists d2. eexists. split; [reflexivity | split; [exact Hd2 | split]].
  - rewrite fetched_chunks_app, Hf. reflexivity.
  - rewrite inserted_rows_app, Hi. reflexivity.
Qed.

Lemma transfer_loop_succeeds :
  forall fuel totalFetched offset d,
    0 <= offset -> Inv d ->
    (length (slices (Z.to_nat (chunkSize config)) (skipn (Z.to_nat offset) rows)) < fuel)%nat ->
    exists d1 evs,
      Replicate.transfer_loop E config fuel schema table db2Schema db2Table columns
        db2Count totalFetched offset d
      = (Returned (totalFetched + Z.of_nat (length (skipn (Z.to_nat offset) rows))), d1, evs)
      /\ fetched_chunks evs
         = (map inr (slices (Z.to_nat (chunkSize config)) (skipn (Z.to_nat offset) rows))
            ++ [inr []])%list
      /\ inserted_rows evs = Z.of_nat (length (skipn (Z.to_nat offset) rows)).
Proof.
  induction fuel as [| fuel IH]; intros total offset d Hoffset Hd Hfuel; [lia |].
  cbn [Replicate.transfer_loop]. rewrite bind_unfold.
  unfold Replicate.transfer_step. rewrite try_catch_unfold, bind_unfold.
  destruct (fetchChunk_succeeds offset d Hoffset Hd) as (d1 & ev1 & -> & Hd1 & Hf1 & Hi1).
  unfold page in *.
  set (rest := skipn (Z.to_nat offset) rows) in *.
  destruct rest as [| row rest'] eqn:Hrest.
  - rewrite firstn_nil in *. cbn [ret app]. exists d1. eexists.
    split; [| split].
    + rewrite Z.add_0_r. reflexivity.
    + rewrite !app_nil_r. exact Hf1.
    + rewrite !app_nil_r. exact Hi1.
  - assert (Hsize : (0 < Z.to_nat (chunkSize config))%nat) by lia.
    set (chunk := firstn (Z.to_nat (chunkSize config)) (row :: rest')) in *.
    assert (Hchunk : chunk <> []).
    { unfold chunk. destruct (Z.to_nat (chunkSize config)); [lia | discriminate]. }
    destruct (insertIntoPostgres_succeeds chunk d1 Hchunk Hd1)
      as (d2 & ev2 & Hins & Hd2 & Hf2 & Hi2).
    destruct chunk as [| c0 chunk'] eqn:Hchunk_eq; [congruence |].
    rewrite try_catch_unfold, bind_unfold, Hins.
    rewrite (slices_cons _ (row :: rest')) in * by (auto; discriminate).
    fold chunk in Hfuel |- *. rewrite Hchunk_eq in *.
    assert (Hnext : skipn (Z.to_nat (chunkSize config)) (row :: rest')
                    = skipn (Z.to_nat (offset + chunkSize config)) rows).
    { rewrite <- Hrest. unfold rest. rewrite skipn_skipn. f_equal. lia. }
    rewrite Hnext in *.
    destruct (IH (total + Z.of_nat (length (c0 :: chunk'))) (offset + chunkSize config) d2
                ltac:(lia) Hd2 ltac:(cbn [length] in Hfuel; lia))
      as (d3 & ev3 & Hloop & Hf3 & Hi3).
    assert (Hlen : Z.of_nat (length (row :: rest'))
                   = Z.of_nat (length (c0 :: chunk'))
                     + Z.of_nat (length (skipn (Z.to_nat (offset + chunkSize config)) rows))).
    { rewrite <- Hnext, <- Hchunk_eq. unfold chunk.
      rewrite <- Nat2Z.inj_add, <- length_app, firstn_skipn. reflexivity. }
    destruct (positive db2Count); rewrite log_bind; cbn [ret app];
      rewrite Hloop; exists d3; eexists;
      (split; [rewrite Hlen; do 3 f_equal; lia | split]);
      rewrite ?fetched_chunks_app, ?inserted_rows_app, ?app_nil_r;
      cbn [fetched_chunks inserted_rows map app];
      rewrite ?fetched_chunks_app, ?inserted_rows_app, ?Hf1, ?Hf2, ?Hf3, ?Hi1, ?Hi2, ?Hi3;
      cbn [fetched_chunks inserted_rows map app]; try reflexivity; lia.
Qed.

End TransferSucceeds.

(** C2, as amended.  For a table of N rows and a positive chunk size C,
    when every fetch and insert succeeds and the loop has fuel for its
    passes, the transfer loop returns N as the number fetched; its chunk
    fetches are answered by the consecutive slices of the rows, each of 1
    to C rows and all but the last of C rows, followed by one empty answer
    that ends the loop, so it issues ceil(N/C) + 1 fetches; and the rows
    reported inserted add up to N. *)
Theorem transfer_loop_fetches_and_inserts :
  forall (E : Env) (Inv : DB E -> Prop) (config : Config)
         (schema table db2Schema db2Table : string) (columns : list Column)
         (db2Count : Number) (rows : list Row) (fuel : nat) (d : DB E),
    let C := chunkSize config in
    let N := Z.of_nat (length rows) in
    0 < C ->
    columns <> [] ->
    transfer_succeeds E Inv schema table db2Schema db2Table C rows ->
    Inv d ->
    ceil_div N C + 1 <= Z.of_nat fuel ->
    exists d1 evs,
      Replicate.transfer_loop E config fuel schema table db2Schema db2Table columns
        db2Count 0 0 d
      = (Returned N, d1, evs)
      /\ fetched_chunks evs = (map inr (slices (Z.to_nat C) rows) ++ [inr []])%list
      /\ Forall (fun chunk => 0 < Z.of_nat (length chunk) <= C) (slices (Z.to_nat C) rows)
      /\ (forall k, (S k < length (slices (Z.to_nat C) rows))%nat ->
                    Z.of_nat (length (nth k (slices (Z.to_nat C) rows) [])) = C)
      /\ Z.of_nat (length (fetched_chunks evs)) = ceil_div N C + 1
      /\ inserted_rows evs = N.
Proof.
  intros E Inv config schema table db2Schema db2Table columns db2Count rows fuel d C N
         HC Hcols Hsucc Hd Hfuel.
  assert (Hsize : (0 < Z.to_nat C)%nat) by lia.
  assert (Hcount : Z.of_nat (length (slices (Z.to_nat C) rows)) = ceil_div N C).
  { rewrite length_slices by exact Hsize. unfold ceil_div, N.
    rewrite Z2Nat.id by lia. reflexivity. }
  destruct (transfer_loop_succeeds E Inv config schema table db2Schema db2Table columns
              db2Count rows HC Hcols Hsucc fuel 0 0 d ltac:(lia) Hd)
    as (d1 & evs & Hrun & Hfetch & Hins).
  { change (Z.to_nat 0) with O. cbn [skipn]. fold C. lia. }
  change (Z.to_nat 0) with O in *. cbn [skipn] in *. fold C in Hfetch.
  exists d1, evs. split; [exact Hrun | split; [exact Hfetch | split; [| split; [| split]]]].
  - eapply Forall_impl; [| apply (slices_bounds _ rows Hsize)].
    intros chunk Hchunk. cbv beta in Hchunk. lia.
  - intros k Hk. rewrite slices_full; auto. lia.
  - rewrite Hfetch, length_app, length_map. cbn [length]. lia.
  - exact Hins.
Qed.

Lemma find_map_keeps {A : Type} (p : A -> bool) (f : A -> A) (l : list A) :
  (forall x, p (f x) = p x) ->
  forall t, find p l = Some t -> find p (map f l) = Some (f t).
Proof.
  intros Hp. induction l as [| x l IH]; intros t; cbn [find map]; [discriminate |].
  rewrite Hp. destruct (p x); [intros H; injection H as -> | apply IH]. reflexivity.
Qed.

(** The reference environment meets the success conditions for
    SALES.ORDERS once the destination table exists. *)
Lemma shop_transfer_succeeds :
  transfer_succeeds (Sim.env Scenario.shop)
    Scenario.has_orders
    "sales" "orders" "SALES" "ORDERS" 2 (map Sim.order_row (seq 0 5)).
Proof.
  constructor.
  - intros stmt d Hd. exact Hd.
  - intros orderBy offset d Hoffset _.
    cbn [db2_query Sim.env fst]. unfold Sim.source_answer.
    cbn [Sim.db2_rejects Scenario.shop Sim.nothing_rejected].
    change (find (Sim.is_table "SALES" "ORDERS") (Sim.source_tables Scenario.shop))
      with (Some (Sim.orders "SALES" 5)).
    cbv iota. replace (0 <=? offset) with true by (symmetry; apply Z.leb_le; exact Hoffset).
    reflexivity.
  - intros names placeholders values d [t Ht].
    cbn [pg_query Sim.env]. cbn [Sim.pg_rejects Scenario.shop Sim.nothing_rejected].
    unfold Sim.dest_step. rewrite Ht.
    eexists. eexists. split; [reflexivity | split; [reflexivity |]].
    cbn [Sim.dest_tables]. eexists.
    apply find_map_keeps; [| exact Ht].
    intros x. destruct (Sim.is_dest "sales" "orders" x) eqn:Hx; [reflexivity | exact Hx].
Qed.

(** C2 as stated fails: five rows in chunks of two take four fetches, one
    more than ceil(5/2) = 3; the fourth comes back empty and ends the
    loop.  An empty table already takes one fetch. *)
Lemma transfer_loop_fetch_count_counterexample :
  (let run := Replicate.transfer_loop (Sim.env Scenario.shop) Scenario.one_table 10
                "sales" "orders" "SALES" "ORDERS" Scenario.order_columns (Finite 5) 0 0
                Scenario.provisioned in
   fst (fst run) = Returned 5
   /\ inserted_rows (snd run) = 5
   /\ Z.of_nat (length (fetched_chunks (snd run))) = 4
   /\ Z.of_nat (length (fetched_chunks (snd run))) <> ceil_div 5 2)
  /\ (let run := Replicate.transfer_loop
                   (Sim.env Scenario.empty_shop)
                   Scenario.one_table 10
                   "sales" "orders" "SALES" "ORDERS" Scenario.order_columns (Finite 0) 0 0
                   Scenario.provisioned in
      fst (fst run) = Returned 0
      /\ inserted_rows (snd run) = 0
      /\ Z.of_nat (length (fetched_chunks (snd run))) = 1
      /\ Z.of_nat (length (fetched_chunks (snd run))) <> ceil_div 0 2).
Proof.
  split; vm_compute; repeat split; discriminate.
Qed.

Lemma transfer_loop_fetches_and_inserts_witness :
  exists d1 evs,
    Replicate.transfer_loop (Sim.env Scenario.shop) Scenario.one_table 10
      "sales" "orders" "SALES" "ORDERS" Scenario.order_columns (Finite 5) 0 0
      Scenario.provisioned
    = (Returned 5, d1, evs)
    /\ fetched_chunks evs
       = (map inr (slices 2 (map Sim.order_row (seq 0 5))) ++ [inr []])%list
    /\ Forall (fun chunk => 0 < Z.of_nat (length chunk) <= 2)
         (slices 2 (map Sim.order_row (seq 0 5)))
    /\ (forall k, (S k < length (slices 2 (map Sim.order_row (seq 0 5))))%nat ->
                  Z.of_nat (length (nth k (slices 2 (map Sim.order_row (seq 0 5))) [])) = 2)
    /\ Z.of_nat (length (fetched_chunks evs)) = ceil_div 5 2 + 1
    /\ inserted_rows evs = 5.
Proof.
  apply (transfer_loop_fetches_and_inserts (Sim.env Scenario.shop)
           Scenario.has_orders
           Scenario.one_table
           "sales" "orders" "SALES" "ORDERS" Scenario.order_columns (Finite 5)
           (map Sim.order_row (seq 0 5)) 10 Scenario.provisioned).
  - reflexivity.
  - discriminate.
  - exact shop_transfer_succeeds.
  - eexists. reflexivity.
  - vm_compute. discriminate.
Defined.

(** * Further properties of the code *)

(** ** Numbers: rendering and parsing *)

Module NumberFacts.
Import JsString.






End NumberFacts.

(** ** db2.js and postgres.js: the row counts *)





(** ** utils.js: the type translation and the literals built on it *)







(** ** utils.js: getLastPrimaryKeyFromChunk *)

Lemma get_set_prop (props : list (string * JsValue)) (key key' : string) (value : JsValue) :
  get_prop (UtilsRest.set_prop props key value) key'
  = if String.eqb key key' then value else get_prop props key'.
Proof.
  induction props as [| [k v] props IH]; cbn [UtilsRest.set_prop get_prop].
  - destruct (String.eqb key key'); reflexivity.
  - destruct (String.eqb k key) eqn:Hk; cbn [get_prop].
    + apply String.eqb_eq in Hk. subst k.
      destruct (String.eqb key key'); reflexivity.
    + rewrite IH. destruct (String.eqb k key') eqn:Hk'; [| reflexivity].
      apply String.eqb_eq in Hk'. subst k. now rewrite String.eqb_sym, Hk.
Qed.

Lemma get_reduce_keys (lastRow : Row) (primaryKeys : list string) :
  forall acc key,
    (In key primaryKeys ->
     get_prop (UtilsRest.reduce_keys lastRow primaryKeys acc) key = row_get lastRow key)
    /\ (~ In key primaryKeys ->
        get_prop (UtilsRest.reduce_keys lastRow primaryKeys acc) key = get_prop acc key).
Proof.
  induction primaryKeys as [| k rest IH]; intros acc key; cbn [UtilsRest.reduce_keys In].
  - split; [tauto | reflexivity].
  - destruct (IH (UtilsRest.set_prop acc k (row_get lastRow k)) key) as [IHin IHout].
    destruct (in_dec string_dec key rest) as [Hin | Hout].
    + split; intros; [auto | tauto].
    + split.
      * intros [-> | Hin]; [| tauto].
        rewrite IHout by exact Hout. rewrite get_set_prop. now rewrite String.eqb_refl.
      * intros Hnot. rewrite IHout by exact Hout. rewrite get_set_prop.
        destruct (String.eqb k key) eqn:Hk; [| reflexivity].
        apply String.eqb_eq in Hk. tauto.
Qed.

(** X5.  [getLastPrimaryKeyFromChunk] returns null for an empty chunk and
    for an empty key list; otherwise it returns an object that holds, for
    each primary key, the value the last row of the chunk has under that
    key, and nothing under any other name. *)
Theorem getLastPrimaryKeyFromChunk_reads_last_row :
  (forall primaryKeys, UtilsRest.getLastPrimaryKeyFromChunk [] primaryKeys = None)
  /\ (forall chunk, UtilsRest.getLastPrimaryKeyFromChunk chunk [] = None)
  /\ (forall front lastRow primaryKeys,
         primaryKeys <> [] ->
         exists object,
           UtilsRest.getLastPrimaryKeyFromChunk (front ++ [lastRow]) primaryKeys = Some object
           /\ (forall key, In key primaryKeys -> get_prop object key = row_get lastRow key)
           /\ (forall key, ~ In key primaryKeys -> get_prop object key = JUndefined)).
Proof.
  split; [| split].
  - reflexivity.
  - intros [| row chunk]; reflexivity.
  - intros front lastRow primaryKeys Hkeys.
    unfold UtilsRest.getLastPrimaryKeyFromChunk.
    destruct primaryKeys as [| k rest]; [congruence |].
    destruct (front ++ [lastRow])%list as [| first chunk] eqn:Hchunk;
      [destruct front; discriminate |].
    rewrite <- Hchunk, last_last.
    eexists. split; [reflexivity | split]; intros key Hkey.
    + now apply get_reduce_keys.
    + now rewrite (proj2 (get_reduce_keys lastRow (k :: rest) [] key)).
Qed.

Lemma getLastPrimaryKeyFromChunk_reads_last_row_witness :
  exists object,
    UtilsRest.getLastPrimaryKeyFromChunk ([Sim.order_row 0] ++ [Sim.order_row 1]) ["ID"]
    = Some object
    /\ (forall key, In key ["ID"] -> get_prop object key = row_get (Sim.order_row 1) key)
    /\ (forall key, ~ In key ["ID"] -> get_prop object key = JUndefined).
Proof.
  apply (proj2 (proj2 getLastPrimaryKeyFromChunk_reads_last_row)). discriminate.
Defined.

(** ** utils.js: formatTimestampForDB2 *)

Module TimestampFacts.
Import JsString UtilsRest.

Lemma number_eqb_eq (a b : Number) : UtilsRest.number_eqb a b = true -> a = b.
Proof.
  destruct a, b; cbn; try discriminate; [| reflexivity].
  intros H. apply Z.eqb_eq in H. now subst.
Qed.

Lemma range_check (f : Z -> bool) (lo : Z) (len : nat) :
  forallb (fun k => f (lo + Z.of_nat k)) (seq 0 len) = true ->
  forall n, lo <= n < lo + Z.of_nat len -> f n = true.
Proof.
  intros Hall n Hn. rewrite forallb_forall in Hall.
  replace n with (lo + Z.of_nat (Z.to_nat (n - lo))) by lia.
  apply Hall. apply in_seq. lia.
Qed.

Lemma pad_field (n : Z) : 0 <= n <= 99 -> UtilsRest.field_ok 2 (pad n) n = true.
Proof.
  intros Hn. apply (range_check (fun n => UtilsRest.field_ok 2 (pad n) n) 0 100); [| lia].
  vm_compute. reflexivity.
Qed.

Lemma year_field (n : Z) : 1000 <= n <= 9999 -> UtilsRest.field_ok 4 (of_Z n) n = true.
Proof.
  intros Hn.
  apply (range_check (fun n => UtilsRest.field_ok 4 (of_Z n) n) 1000 (Z.to_nat 9000)); [| lia].
  vm_compute. reflexivity.
Qed.

Lemma field_ok_spec (width : nat) (text : string) (n : Z) :
  UtilsRest.field_ok width text n = true ->
  String.length text = width /\ all_chars is_digit text = true
  /\ parseInt10 text = Finite n.
Proof.
  unfold UtilsRest.field_ok. rewrite !andb_true_iff, Nat.eqb_eq.
  intros [[H1 H2] H3]. auto using number_eqb_eq.
Qed.

Lemma two_chars (s : string) :
  String.length s = 2%nat -> exists a b, s = String a (String b EmptyString).
Proof.
  destruct s as [| a [| b [| c s]]]; cbn; try discriminate. eauto.
Qed.

Lemma four_chars (s : string) :
  String.length s = 4%nat ->
  exists a b c d, s = String a (String b (String c (String d EmptyString))).
Proof.
  destruct s as [| a [| b [| c [| d [| e s]]]]]; cbn; try discriminate. eauto 6.
Qed.

End TimestampFacts.

(** X6.  For a date in the years 1000 to 9999, [formatTimestampForDB2]
    gives 19 characters in the shape YYYY-MM-DD HH:MM:SS: the separators
    stand at fixed places and each field, read back as a number, is the
    year, the month counted from 1, the day, the hours, the minutes and the
    seconds of the date. *)
Theorem formatTimestampForDB2_shape :
  forall date : UtilsRest.JsDate,
    UtilsRest.four_digit_date date ->
    let text := UtilsRest.formatTimestampForDB2 date in
    String.length text = 19%nat
    /\ (String.get 4 text, String.get 7 text, String.get 10 text,
        String.get 13 text, String.get 16 text)
       = (Some "-"%char, Some "-"%char, Some " "%char, Some ":"%char, Some ":"%char)
    /\ JsString.parseInt10 (String.substring 0 4 text) = Finite (UtilsRest.getFullYear date)
    /\ JsString.parseInt10 (String.substring 5 2 text) = Finite (UtilsRest.getMonth date + 1)
    /\ JsString.parseInt10 (String.substring 8 2 text) = Finite (UtilsRest.getDate date)
    /\ JsString.parseInt10 (String.substring 11 2 text) = Finite (UtilsRest.getHours date)
    /\ JsString.parseInt10 (String.substring 14 2 text) = Finite (UtilsRest.getMinutes date)
    /\ JsString.parseInt10 (String.substring 17 2 text) = Finite (UtilsRest.getSeconds date).
Proof.
  intros [year month day hours minutes seconds] (Hy & Hmo & Hd & Hh & Hmi & Hs) text.
  cbn [UtilsRest.getFullYear UtilsRest.getMonth UtilsRest.getDate UtilsRest.getHours
       UtilsRest.getMinutes UtilsRest.getSeconds] in *.
  unfold text, UtilsRest.formatTimestampForDB2.
  cbn [UtilsRest.getFullYear UtilsRest.getMonth UtilsRest.getDate UtilsRest.getHours
       UtilsRest.getMinutes UtilsRest.getSeconds].
  destruct (TimestampFacts.field_ok_spec _ _ _ (TimestampFacts.year_field year Hy))
    as (Ly & _ & Py).
  destruct (TimestampFacts.field_ok_spec _ _ _
              (TimestampFacts.pad_field (month + 1) ltac:(lia))) as (Lmo & _ & Pmo).
  destruct (TimestampFacts.field_ok_spec _ _ _ (TimestampFacts.pad_field day ltac:(lia)))
    as (Ld & _ & Pd).
  destruct (TimestampFacts.field_ok_spec _ _ _ (TimestampFacts.pad_field hours ltac:(lia)))
    as (Lh & _ & Ph).
  destruct (TimestampFacts.field_ok_spec _ _ _ (TimestampFacts.pad_field minutes ltac:(lia)))
    as (Lmi & _ & Pmi).
  destruct (TimestampFacts.field_ok_spec _ _ _ (TimestampFacts.pad_field seconds ltac:(lia)))
    as (Ls & _ & Ps).
  destruct (TimestampFacts.four_chars _ Ly) as (y1 & y2 & y3 & y4 & Ey).
  destruct (TimestampFacts.two_chars _ Lmo) as (mo1 & mo2 & Emo).
  destruct (TimestampFacts.two_chars _ Ld) as (d1 & d2 & Ed).
  destruct (TimestampFacts.two_chars _ Lh) as (h1 & h2 & Eh).
  destruct (TimestampFacts.two_chars _ Lmi) as (mi1 & mi2 & Emi).
  destruct (TimestampFacts.two_chars _ Ls) as (s1 & s2 & Es).
  rewrite Ey, Emo, Ed, Eh, Emi, Es in *.
  cbn [String.append String.length String.get String.substring].
  repeat split; assumption.
Qed.

Lemma formatTimestampForDB2_shape_witness :
  UtilsRest.formatTimestampForDB2 (UtilsRest.mkDate 2024 1 29 7 5 0) = "2024-02-29 07:05:00"
  /\ String.length (UtilsRest.formatTimestampForDB2 (UtilsRest.mkDate 2024 1 29 7 5 0))
     = 19%nat.
Proof.
  split; [reflexivity |].
  apply (formatTimestampForDB2_shape (UtilsRest.mkDate 2024 1 29 7 5 0)).
  unfold UtilsRest.four_digit_date. cbn. lia.
Defined.

(** ** config.js: parseEnvList and the other settings *)

Module ConfigFacts.
Import JsString Configuration.

Lemma length_append (a b : string) :
  String.length (a ++ b) = (String.length a + String.length b)%nat.
Proof. induction a as [| x a IH]; [reflexivity |]. cbn. now rewrite IH. Qed.

Lemma split_plain (c : ascii) (s : string) : mem c s = false -> split c s = [s].
Proof.
  induction s as [| a s IH]; [reflexivity |].
  cbn [mem split]. intros H. apply orb_false_iff in H. destruct H as [Ha Hs].
  rewrite Ha, (IH Hs). reflexivity.
Qed.

Lemma split_app (c : ascii) (a b : string) :
  mem c a = false -> split c (a ++ String c b) = a :: split c b.
Proof.
  induction a as [| x a IH]; cbn [mem split String.append].
  - intros _. now rewrite Ascii.eqb_refl.
  - intros H. apply orb_false_iff in H. destruct H as [Hx Ha].
    rewrite Hx, (IH Ha). reflexivity.
Qed.

Lemma split_pieces (c c' : ascii) (s : string) :
  mem c' s = false \/ c' = c ->
  Forall (fun piece => mem c' piece = false) (split c s).
Proof.
  induction s as [| a s IH]; intros H.
  - repeat constructor.
  - cbn [split]. destruct (Ascii.eqb a c) eqn:Ha.
    + constructor; [reflexivity |]. apply IH.
      destruct H as [H | H]; [left | now right].
      cbn [mem] in H. now apply orb_false_iff in H.
    + assert (Hrest : mem c' s = false \/ c' = c).
      { destruct H as [H | H]; [left | now right].
        cbn [mem] in H. now apply orb_false_iff in H. }
      specialize (IH Hrest).
      destruct (split c s) as [| piece pieces].
      * repeat constructor. cbn [mem]. rewrite orb_false_r.
        destruct H as [H | ->]; [| exact Ha].
        cbn [mem] in H. now apply orb_false_iff in H.
      * inversion IH as [| ? ? Hpiece Hpieces]; subst.
        constructor; [| exact Hpieces].
        cbn [mem]. rewrite Hpiece, orb_false_r.
        destruct H as [H | ->]; [| exact Ha].
        cbn [mem] in H. now apply orb_false_iff in H.
Qed.

Lemma split_concat (c : ascii) (first : string) (others : list string) :
  Forall (fun e => mem c e = false) (first :: others) ->
  split c (String.concat (String c EmptyString) (first :: others)) = first :: others.
Proof.
  revert first. induction others as [| e others IH]; intros first Hall.
  - cbn [String.concat]. apply split_plain. now inversion Hall.
  - inversion Hall as [| ? ? Hfirst Hrest]; subst.
    change (String.concat (String c "") (first :: e :: others))
      with (first ++ String c (String.concat (String c "") (e :: others))).
    rewrite split_app by exact Hfirst. now rewrite IH.
Qed.

Lemma trimStart_app (a b : string) :
  a <> "" -> trimStart a = a -> trimStart (a ++ b) = a ++ b.
Proof.
  destruct a as [| x a]; [congruence |]. intros _ H.
  cbn [trimStart String.append] in *.
  destruct (is_whitespace x); [| reflexivity].
  exfalso.
  destruct (StringFacts.trimStart_split a) as [l [_ Hl]].
  apply (f_equal String.length) in H. apply (f_equal String.length) in Hl.
  rewrite length_append in Hl. cbn [String.length] in H. lia.
Qed.

Lemma trimEnd_app (a b : string) :
  b <> "" -> trimEnd b = b -> trimEnd (a ++ b) = a ++ b.
Proof.
  intros Hb H. induction a as [| x a IH]; [exact H |].
  cbn [trimEnd String.append]. rewrite IH.
  destruct (a ++ b) eqn:Hab; [| reflexivity].
  destruct a; [cbn in Hab; congruence | discriminate].
Qed.

Lemma mem_trim (c : ascii) (s : string) : mem c s = false -> mem c (trim s) = false.
Proof.
  intros H. destruct (proj1 (StringFacts.trim_spec s)) as (l & r & _ & _ & Hs).
  rewrite Hs in H. rewrite !StringFacts.mem_append in H.
  apply orb_false_iff in H. destruct H as [_ H].
  apply orb_false_iff in H. tauto.
Qed.

Lemma entry_plain (t : Target) :
  plain_target t ->
  mem "," (entry_of t) = false
  /\ trim (entry_of t) = entry_of t
  /\ parseEntry (entry_of t) = Some t.
Proof.
  intros ((Hs & Hsc & Hsd) & (Ht & Htc & Htd) & Hstart & Hend).
  unfold entry_of. destruct t as [schema table]. cbn [tgt_schema tgt_table] in *.
  split; [| split].
  - rewrite !StringFacts.mem_append, Hsc, Htc. reflexivity.
  - unfold trim. rewrite trimStart_app by assumption.
    rewrite <- StringFacts.append_assoc. apply trimEnd_app; assumption.
  - unfold parseEntry.
    change (schema ++ "." ++ table) with (schema ++ String "." table).
    rewrite split_app by exact Hsd. rewrite split_plain by exact Htd.
    apply String.eqb_neq in Hs. apply String.eqb_neq in Ht. now rewrite Hs, Ht.
Qed.

Lemma keep_some_map_Some {A : Type} (l : list A) : keep_some (map Some l) = l.
Proof. induction l as [| x l IH]; [reflexivity |]. cbn. now rewrite IH. Qed.

Lemma entries_of_plain (targets : list Target) :
  Forall plain_target targets ->
  filter (fun entry => negb (String.length entry =? 0)%nat)
    (map trim (map entry_of targets))
  = map entry_of targets.
Proof.
  induction 1 as [| t targets Ht _ IH]; [reflexivity |].
  destruct (entry_plain t Ht) as (_ & Htrim & _).
  cbn [map filter]. rewrite Htrim, IH.
  replace (String.length (entry_of t) =? 0)%nat with false; [reflexivity |].
  symmetry. apply Nat.eqb_neq. unfold entry_of.
  rewrite length_append. cbn [String.length String.append]. lia.
Qed.

Lemma parse_of_plain (targets : list Target) :
  Forall plain_target targets ->
  map parseEntry (map entry_of targets) = map Some targets
  /\ filter (fun entry => match parseEntry entry with None => true | Some _ => false end)
       (map entry_of targets) = [].
Proof.
  induction 1 as [| t targets Ht _ [IH1 IH2]]; [split; reflexivity |].
  destruct (entry_plain t Ht) as (_ & _ & Hparse).
  cbn [map filter]. rewrite Hparse, IH1, IH2. split; reflexivity.
Qed.

End ConfigFacts.

(** X7.  Round trip of the table list: writing targets as
    [schema.table], joined by commas, and parsing the result with
    [parseEnvList] gives the targets back in order, none reported invalid,
    provided each name is non-empty, has no comma or dot, and no
    whitespace stands before a schema or after a table. *)
Theorem parseEnvList_round_trip :
  forall targets : list Target,
    Forall Configuration.plain_target targets ->
    let value := Some (String.concat "," (map Configuration.entry_of targets)) in
    Configuration.parseEnvList value = targets
    /\ Configuration.invalidEntries value = [].
Proof.
  intros targets Hall value.
  assert (Hentries : Configuration.entries value = map Configuration.entry_of targets).
  { unfold Configuration.entries, value. destruct targets as [| t targets]; [reflexivity |].
    rewrite <- (ConfigFacts.entries_of_plain (t :: targets) Hall) at 2.
    do 2 f_equal. cbn [map]. apply ConfigFacts.split_concat.
    change (Forall (fun e => mem "," e = false) (map Configuration.entry_of (t :: targets))).
    apply Forall_map. eapply Forall_impl; [| exact Hall].
    intros t' Ht'. apply (ConfigFacts.entry_plain t' Ht'). }
  destruct (ConfigFacts.parse_of_plain targets Hall) as [Hparsed Hinvalid].
  split.
  - unfold Configuration.parseEnvList. rewrite Hentries, Hparsed.
    apply ConfigFacts.keep_some_map_Some.
  - unfold Configuration.invalidEntries. rewrite Hentries. exact Hinvalid.
Qed.

Lemma parseEnvList_round_trip_witness :
  Configuration.parseEnvList (Some "sales.orders,hr.staff")
  = [mkTarget "sales" "orders"; mkTarget "hr" "staff"]
  /\ Configuration.invalidEntries (Some "sales.orders,hr.staff") = [].
Proof.
  apply (parseEnvList_round_trip [mkTarget "sales" "orders"; mkTarget "hr" "staff"]).
  repeat constructor; discriminate.
Defined.

Lemma parseEntry_plain (entry : string) (t : Target) :
  mem "," entry = false ->
  Configuration.parseEntry entry = Some t ->
  Configuration.plain_name (tgt_schema t) /\ Configuration.plain_name (tgt_table t).
Proof.
  intros Hcomma. unfold Configuration.parseEntry.
  pose proof (ConfigFacts.split_pieces "." "." entry (or_intror eq_refl)) as Hdot.
  pose proof (ConfigFacts.split_pieces "." "," entry (or_introl Hcomma)) as Hcom.
  destruct (Configuration.split "." entry) as [| schema [| table rest]]; try discriminate.
  destruct (String.eqb schema "") eqn:Hs; [discriminate |].
  destruct (String.eqb table "") eqn:Ht; [discriminate |].
  intros H. injection H as <-. cbn [tgt_schema tgt_table orb].
  apply String.eqb_neq in Hs. apply String.eqb_neq in Ht.
  inversion Hdot as [| ? ? Hd1 Hd2]; subst. inversion Hd2; subst.
  inversion Hcom as [| ? ? Hc1 Hc2]; subst. inversion Hc2; subst.
  repeat split; assumption.
Qed.

(** X8.  Whatever the environment variable holds, every target
    [parseEnvList] yields has a non-empty schema and a non-empty table,
    neither containing a comma or a dot. *)
Theorem parseEnvList_targets_plain :
  forall value : option string,
    Forall (fun t => Configuration.plain_name (tgt_schema t)
                     /\ Configuration.plain_name (tgt_table t))
      (Configuration.parseEnvList value).
Proof.
  intros value. unfold Configuration.parseEnvList, Configuration.entries.
  set (raw := match value with Some s => s | None => "" end).
  pose proof (ConfigFacts.split_pieces "," "," raw (or_intror eq_refl)) as Hpieces.
  induction (Configuration.split "," raw) as [| piece pieces IH]; [constructor |].
  inversion Hpieces as [| ? ? Hpiece Hrest]; subst.
  cbn [map filter].
  destruct (negb (String.length (JsString.trim piece) =? 0)%nat); [| now apply IH].
  cbn [map Configuration.keep_some].
  destruct (Configuration.parseEntry (JsString.trim piece)) as [t |] eqn:Hparse;
    [| now apply IH].
  constructor; [| now apply IH].
  apply (parseEntry_plain (JsString.trim piece)); [| exact Hparse].
  now apply ConfigFacts.mem_trim.
Qed.

(** X9.  An entry with more than one dot keeps its first two segments and
    silently drops the rest; an entry without a dot, with nothing before
    the dot, or with nothing after it is invalid. *)
Theorem parseEntry_segments :
  (forall schema table rest,
      Configuration.plain_name schema -> Configuration.plain_name table ->
      Configuration.parseEntry (schema ++ "." ++ table ++ "." ++ rest)
      = Some (mkTarget schema table))
  /\ (forall entry, mem "." entry = false -> Configuration.parseEntry entry = None)
  /\ (forall table, Configuration.parseEntry ("." ++ table) = None)
  /\ (forall schema, mem "." schema = false -> Configuration.parseEntry (schema ++ ".") = None).
Proof.
  split; [| split; [| split]].
  - intros schema table rest (Hs & _ & Hsd) (Ht & _ & Htd).
    unfold Configuration.parseEntry.
    change (schema ++ "." ++ table ++ "." ++ rest)
      with (schema ++ String "." (table ++ String "." rest)).
    rewrite !ConfigFacts.split_app by assumption.
    apply String.eqb_neq in Hs. apply String.eqb_neq in Ht. now rewrite Hs, Ht.
  - intros entry Hdot. unfold Configuration.parseEntry.
    now rewrite ConfigFacts.split_plain.
  - intros table. unfold Configuration.parseEntry. cbn [String.append Configuration.split].
    change (Ascii.eqb "." ".") with true. cbv iota.
    destruct (Configuration.split "." table) as [| t rest]; reflexivity.
  - intros schema Hdot. unfold Configuration.parseEntry.
    change (schema ++ ".") with (schema ++ String "." "").
    rewrite ConfigFacts.split_app by exact Hdot. cbn [Configuration.split].
    destruct (String.eqb schema ""); reflexivity.
Qed.

Lemma parseEntry_segments_witness :
  Configuration.parseEntry "db.sales.orders" = Some (mkTarget "db" "sales")
  /\ Configuration.parseEntry "orders" = None
  /\ Configuration.parseEntry "sales." = None.
Proof.
  split; [| split].
  - apply (proj1 parseEntry_segments "db" "sales" "orders");
      repeat split; discriminate.
  - apply (proj1 (proj2 parseEntry_segments)). reflexivity.
  - apply (proj2 (proj2 (proj2 parseEntry_segments)) "sales"). reflexivity.
Defined.



(** ** db2.js: the catalog reads and the page query *)

Lemma pg_only_none (evs : list Event) :
  Forall (pg_only no_statement) evs <-> pg_issued evs = [].
Proof.
  induction evs as [| e evs IH]; [split; [reflexivity | constructor] |].
  split.
  - intros H. inversion H as [| ? ? He Hevs]; subst.
    destruct e; cbn in He |- *; try contradiction; now apply IH.
  - intros H. destruct e; cbn in H; try discriminate;
      (constructor; [exact I | now apply IH]).
Qed.

Lemma catalog_reads_pg_none (evs : list Event) :
  Forall (fun e => is_catalog_read e = true) evs -> Forall (pg_only no_statement) evs.
Proof.
  apply Forall_impl. intros [| | | stmt answer |]; cbn; auto. discriminate.
Qed.

(** X11.  Each call of [fetchChunk] sends exactly two statements to the
    source and none to the destination: the key lookup, then the page
    query ordered by the keys that lookup gave.  It never throws: when the
    key lookup fails the page is fetched without ORDER BY, and when the
    page query fails the chunk is empty. *)
Theorem fetchChunk_two_statements :
  forall (E : Env) (schema table : string) (columns : list Column) (size offset : Z)
         (d : DB E),
    let keyStmt :=
      SelectKeyColumns (JsString.toUpperCase schema) (JsString.toUpperCase table) in
    let keys := keys_of_answer (fst (db2_query E keyStmt d)) in
    let d1 := snd (db2_query E keyStmt d) in
    let pageStmt := SelectChunk schema table (Db2.orderByClause_of keys) offset size in
    exists evs,
      Db2.fetchChunk E schema table columns size offset d
      = (Returned (chunk_of_answer (fst (db2_query E pageStmt d1))),
         snd (db2_query E pageStmt d1), evs)
      /\ db2_issued evs = [keyStmt; pageStmt]
      /\ pg_issued evs = []
      /\ fetch_offsets evs = [offset]
      /\ Forall (fun e => is_spinner_fail e = false) evs
      /\ (forall err, fst (db2_query E keyStmt d) = inl err ->
                      Db2.orderByClause_of keys = "").
Proof.
  intros E schema table columns size offset d keyStmt keys d1 pageStmt.
  unfold Db2.fetchChunk. rewrite bind_unfold, getPrimaryKeys_run.
  rewrite !toUpperCase_idem. fold keyStmt.
  unfold pageStmt, keys, d1. clear pageStmt keys d1.
  destruct (db2_query E keyStmt d) as [[kerr | krows] dk]; cbn [fst snd keys_of_answer];
    [| destruct (map_or_throw Db2.colname_trim krows) as [terr | ks]];
    rewrite try_catch_unfold, bind_unfold; unfold db2_call;
    destruct (db2_query E _ dk) as [[perr | prows] dp];
    eexists; (split; [reflexivity |]); cbn;
    repeat split; try discriminate; repeat constructor.
Qed.

Lemma fetchChunk_two_statements_witness :
  let keys_down :=
    Sim.mkSetup [Sim.orders "SALES" 5] []
      (fun stmt => match stmt with SelectKeyColumns _ _ => true | _ => false end)
      Sim.nothing_rejected in
  Db2.orderByClause_of
    (keys_of_answer
       (fst (db2_query (Sim.env keys_down) (SelectKeyColumns "SALES" "ORDERS") Sim.empty)))
  = EmptyString.
Proof.
  intros keys_down.
  destruct (fetchChunk_two_statements (Sim.env keys_down) "SALES" "ORDERS"
              Scenario.order_columns 2 0 Sim.empty) as (evs & _ & _ & _ & _ & _ & Hkeys).
  apply (Hkeys (DbError "SQL0901N")). reflexivity.
Defined.

(** X12.  None of [getColumnMetadata], [getPrimaryKeys], [getDb2RowCount]
    and [getViewDefinition] ever throws or fails to return, whatever the
    source answers, and none of them sends a statement to the
    destination. *)
Theorem db2_reads_never_throw :
  forall (E : Env) (schema table : string) (d : DB E),
    (exists columns d1 evs,
        Db2.getColumnMetadata E schema table d = (Returned columns, d1, evs)
        /\ pg_issued evs = [])
    /\ (exists keys d1 evs,
           Db2.getPrimaryKeys E schema table d = (Returned keys, d1, evs)
           /\ pg_issued evs = [])
    /\ (exists count d1 evs,
           Db2.getDb2RowCount E schema table d = (Returned count, d1, evs)
           /\ pg_issued evs = [])
    /\ (exists text d1 evs,
           Db2.getViewDefinition E schema table d = (Returned text, d1, evs)
           /\ pg_issued evs = []).
Proof.
  intros E schema table d. split; [| split; [| split]].
  - destruct (getColumnMetadata_total E schema table d) as (columns & evs & Hrun & Hevs).
    do 3 eexists. split; [exact Hrun |].
    now apply pg_only_none, catalog_reads_pg_none.
  - destruct (getPrimaryKeys_total E schema table d) as (keys & evs & Hrun & Hevs).
    do 3 eexists. split; [exact Hrun |].
    now apply pg_only_none, catalog_reads_pg_none.
  - destruct (getDb2RowCount_total E schema table d) as (count & evs & Hrun & Hevs).
    do 3 eexists. split; [exact Hrun |].
    now apply pg_only_none, catalog_reads_pg_none.
  - rewrite getViewDefinition_run.
    destruct (db2_query E _ d) as [[err | rows] d1];
      [| destruct (Db2.view_text_of_rows rows)];
      do 3 eexists; split; reflexivity.
Qed.

Lemma map_or_throw_colnames (rows : list Row) :
  (Forall named_row rows ->
   exists names,
     Forall2 (fun row name => row_get row "COLNAME" = JStr name) rows names
     /\ map_or_throw Db2.colname_trim rows = inr (map JsString.trim names)
     /\ map_or_throw Db2.column_of_row rows
        = inr (map (fun p => column_named (snd p) (fst p)) (combine rows names)))
  /\ (~ Forall named_row rows ->
      exists err,
        map_or_throw Db2.colname_trim rows = inl err
        /\ map_or_throw Db2.column_of_row rows = inl err).
Proof.
  induction rows as [| row rows [IHok IHbad]].
  - split; [intros _; exists []; repeat split; constructor |].
    intros H. contradiction H. constructor.
  - split.
    + intros H. inversion H as [| ? ? [name Hname] Hrows]; subst.
      destruct (IHok Hrows) as (names & Hnames & Hkeys & Hcols).
      exists (name :: names). split; [now constructor |].
      assert (Htrim : Db2.colname_trim row = inr (JsString.trim name))
        by (unfold Db2.colname_trim; now rewrite Hname).
      split; cbn [map_or_throw]; unfold Db2.column_of_row;
        rewrite Htrim; [rewrite Hkeys | fold Db2.column_of_row; rewrite Hcols];
        reflexivity.
    + intros H. cbn [map_or_throw]. unfold Db2.column_of_row.
      fold Db2.column_of_row.
      destruct (Db2.colname_trim row) as [err | trimmed] eqn:Htrim;
        [exists err; split; reflexivity |].
      destruct IHbad as (err & Hkeys & Hcols).
      { intros Hrows. apply H. constructor; [| exact Hrows].
        unfold Db2.colname_trim in Htrim. unfold named_row.
        destruct (row_get row "COLNAME"); try discriminate. eauto. }
      exists err. rewrite Hkeys, Hcols. split; reflexivity.
Qed.

(** X13.  When every catalog row has a string COLNAME, [getColumnMetadata]
    returns one column per row, in the order of the rows, named by the
    trimmed COLNAME and typed by the translation of TYPENAME and LENGTH.
    When one row has anything else as COLNAME, the columns of all rows are
    lost: the result is the empty list, after one failure line. *)
Theorem getColumnMetadata_rows :
  forall (E : Env) (schema table : string) (d d1 : DB E) (rows : list Row),
    let stmt := SelectColumns (JsString.toUpperCase schema) (JsString.toUpperCase table) in
    db2_query E stmt d = (inr rows, d1) ->
    (Forall named_row rows ->
     exists names,
       Forall2 (fun row name => row_get row "COLNAME" = JStr name) rows names
       /\ Db2.getColumnMetadata E schema table d
          = (Returned (map (fun p => column_named (snd p) (fst p)) (combine rows names)),
             d1, [Db2Query stmt (inr rows)]))
    /\ (~ Forall named_row rows ->
        exists err,
          Db2.getColumnMetadata E schema table d
          = (Returned [], d1,
             [Db2Query stmt (inr rows);
              Console (FailedColumnMetadata schema table (message err))])).
Proof.
  intros E schema table d d1 rows stmt Hq.
  rewrite getColumnMetadata_run. fold stmt. rewrite Hq. split.
  - intros Hrows. destruct (proj1 (map_or_throw_colnames rows) Hrows)
      as (names & Hnames & _ & Hcols).
    exists names. split; [exact Hnames |]. now rewrite Hcols.
  - intros Hrows. destruct (proj2 (map_or_throw_colnames rows) Hrows) as (err & _ & Hcols).
    exists err. now rewrite Hcols.
Qed.

Lemma getColumnMetadata_rows_witness :
  Db2.getColumnMetadata (Sim.env Scenario.shop) "sales" "orders" Sim.empty
  = (Returned Scenario.order_columns, Sim.empty,
     [Db2Query (SelectColumns "SALES" "ORDERS")
        (inr [Sim.catalog_row "ID" "INTEGER" 4; Sim.catalog_row "NAME" "VARCHAR" 20])]).
Proof.
  destruct (proj1 (getColumnMetadata_rows (Sim.env Scenario.shop) "sales" "orders"
                     Sim.empty Sim.empty
                     [Sim.catalog_row "ID" "INTEGER" 4; Sim.catalog_row "NAME" "VARCHAR" 20]
                     eq_refl))
    as (names & Hnames & Hrun).
  - repeat constructor; eexists; reflexivity.
  - inversion Hnames as [| ? n1 ? ? H1 Hrest]; subst.
    inversion Hrest as [| ? n2 ? ? H2 Hnil]; subst. inversion Hnil; subst.
    injection H1 as <-. injection H2 as <-. exact Hrun.
Defined.

(** ** postgres.js: provisioning and the INSERT parameters *)

Lemma dropSchema_run (E : Env) (schema : string) (d : DB E) :
  Postgres.dropSchema E schema d
  = match pg_query E (DropSchema schema) d with
    | (inl err, d1) =>
        (Thrown err, d1,
         [PgQuery (DropSchema schema) (inl err);
          Console (FailedDropSchema schema (message err))])
    | (inr result, d1) =>
        (Returned tt, d1,
         [PgQuery (DropSchema schema) (inr result); Console (SchemaDropped schema)])
    end.
Proof.
  unfold Postgres.dropSchema. rewrite try_catch_unfold, bind_unfold. unfold pg_await.
  destruct (pg_query E _ d) as [[err | result] d1]; reflexivity.
Qed.

Lemma ensureSchemaExists_run (E : Env) (schema : string) (d : DB E) :
  Postgres.ensureSchemaExists E schema d
  = match pg_query E (CreateSchema schema) d with
    | (inl err, d1) =>
        (Thrown err, d1,
         [PgQuery (CreateSchema schema) (inl err);
          Console (FailedEnsureSchema schema (message err))])
    | (inr result, d1) =>
        (Returned tt, d1,
         [PgQuery (CreateSchema schema) (inr result); Console (SchemaEnsured schema)])
    end.
Proof.
  unfold Postgres.ensureSchemaExists. rewrite try_catch_unfold, bind_unfold. unfold pg_await.
  destruct (pg_query E _ d) as [[err | result] d1]; reflexivity.
Qed.

(** X14.  When the database refuses their statement, [dropSchema],
    [ensureSchemaExists], [ensureTableExists] and [truncateTable] each
    print one failure line and throw the database's own error again,
    having sent that one statement only. *)
Theorem provisioning_rethrows :
  forall (E : Env) (schema table : string) (columns : list Column) (keys : list string)
         (d d1 : DB E) (err : JsError),
    (pg_query E (DropSchema schema) d = (inl err, d1) ->
     Postgres.dropSchema E schema d
     = (Thrown err, d1,
        [PgQuery (DropSchema schema) (inl err);
         Console (FailedDropSchema schema (message err))]))
    /\ (pg_query E (CreateSchema schema) d = (inl err, d1) ->
        Postgres.ensureSchemaExists E schema d
        = (Thrown err, d1,
           [PgQuery (CreateSchema schema) (inl err);
            Console (FailedEnsureSchema schema (message err))]))
    /\ (pg_query E (CreateTable schema table (Postgres.columnDefinitions_of columns)) d
        = (inl err, d1) ->
        Postgres.ensureTableExists E schema table columns keys d
        = (Thrown err, d1,
           [PgQuery (CreateTable schema table (Postgres.columnDefinitions_of columns))
              (inl err);
            Console (FailedEnsureTable schema table (message err))]))
    /\ (pg_query E (Truncate schema table) d = (inl err, d1) ->
        Postgres.truncateTable E schema table d
        = (Thrown err, d1,
           [PgQuery (Truncate schema table) (inl err);
            Console (FailedTruncate schema table (message err))])).
Proof.
  intros E schema table columns keys d d1 err. split; [| split; [| split]]; intros Hq.
  - now rewrite dropSchema_run, Hq.
  - now rewrite ensureSchemaExists_run, Hq.
  - now rewrite ensureTableExists_run, Hq.
  - now rewrite truncateTable_run, Hq.
Qed.

Lemma provisioning_rethrows_witness :
  Postgres.ensureTableExists (Sim.env Scenario.create_refused) "sales" "orders"
    Scenario.order_columns ["ID"] Sim.empty
  = (Thrown (DbError "rejected"), Sim.empty,
     [PgQuery (CreateTable "sales" "orders"
                 (Postgres.columnDefinitions_of Scenario.order_columns))
        (inl (DbError "rejected"));
      Console (FailedEnsureTable "sales" "orders" "rejected")]).
Proof.
  apply (proj1 (proj2 (proj2 (provisioning_rethrows (Sim.env Scenario.create_refused)
                                "sales" "orders" Scenario.order_columns ["ID"]
                                Sim.empty Sim.empty (DbError "rejected"))))).
  reflexivity.
Defined.

Lemma row_indexOf_from_position (front back : list Row) (row : Row) (i : Z) :
  ~ In (row_ref row) (map row_ref front) ->
  row_indexOf_from (front ++ row :: back) row i = i + Z.of_nat (length front).
Proof.
  revert i. induction front as [| r front IH]; intros i Hnot.
  - cbn [app row_indexOf_from length]. rewrite Nat.eqb_refl. cbn. lia.
  - cbn [app row_indexOf_from]. cbn [map In] in Hnot.
    destruct (Nat.eqb (row_ref r) (row_ref row)) eqn:Href.
    + apply Nat.eqb_eq in Href. tauto.
    + rewrite IH by tauto. cbn [length]. lia.
Qed.

Lemma mapi_from_ext {A B : Type} (f g : A -> Z -> B) (l : list A) (i : Z) :
  (forall front x back, l = (front ++ x :: back)%list ->
                        f x (i + Z.of_nat (length front)) = g x (i + Z.of_nat (length front))) ->
  mapi_from f l i = mapi_from g l i.
Proof.
  revert i. induction l as [| x l IH]; intros i H; [reflexivity |].
  cbn [mapi_from]. f_equal.
  - specialize (H [] x l eq_refl). cbn [length] in H. now rewrite Z.add_0_r in H.
  - apply IH. intros front y back ->.
    specialize (H (x :: front) y back eq_refl). cbn [length] in H.
    replace (i + 1 + Z.of_nat (length front)) with (i + Z.of_nat (S (length front))) by lia.
    exact H.
Qed.

Lemma map_as_mapi {A B : Type} (f : A -> B) (l : list A) (i : Z) :
  map f l = mapi_from (fun x _ => f x) l i.
Proof. revert i. induction l as [| x l IH]; intros i; cbn; [| rewrite <- IH]; reflexivity. Qed.

Lemma nth_error_values (columns : list Column) (batch : list Row) :
  forall i k row col,
    nth_error batch i = Some row ->
    nth_error columns k = Some col ->
    nth_error (Postgres.values_of columns batch) (i * length columns + k)
    = Some (row_get row (col_name col)).
Proof.
  induction batch as [| r batch IH]; intros i k row col Hrow Hcol.
  - destruct i; discriminate.
  - unfold Postgres.values_of. cbn [flat_map].
    assert (Hk : (k < length columns)%nat) by (apply nth_error_Some; congruence).
    destruct i as [| i].
    + injection Hrow as ->. cbn [Nat.mul Nat.add].
      rewrite nth_error_app1 by (rewrite length_map; exact Hk).
      rewrite nth_error_map, Hcol. reflexivity.
    + cbn [nth_error] in Hrow.
      rewrite nth_error_app2 by (rewrite length_map; cbn [Nat.mul]; lia).
      rewrite length_map.
      replace (S i * length columns + k - length columns)%nat
        with (i * length columns + k)%nat by (cbn [Nat.mul]; lia).
      now apply IH.
Qed.

(** X15.  For a sub-batch of distinct row objects the placeholders of the
    INSERT are numbered through: the tuple of the row at position i is
    ($(i*m+1), ..., $(i*m+m)) for m columns; and the bound value at
    position i*m+k is the value of row i under column k, so placeholder
    number j stands for the j-th bound value. *)
Theorem insert_parameters_bound_in_order :
  forall (columns : list Column) (batch : list Row),
    NoDup (map row_ref batch) ->
    map (Postgres.placeholders_of columns batch) batch
    = mapi (fun _ i => numbered_placeholders columns i) batch
    /\ forall i k row col,
        nth_error batch i = Some row ->
        nth_error columns k = Some col ->
        nth_error (Postgres.values_of columns batch) (i * length columns + k)
        = Some (row_get row (col_name col)).
Proof.
  intros columns batch Hdistinct. split; [| apply nth_error_values].
  unfold mapi. rewrite (map_as_mapi _ batch 0).
  apply mapi_from_ext. intros front row back Hbatch.
  unfold Postgres.placeholders_of, numbered_placeholders, row_indexOf.
  rewrite Hbatch, row_indexOf_from_position; [reflexivity |].
  rewrite Hbatch, map_app in Hdistinct. cbn [map] in Hdistinct.
  apply NoDup_remove_2 in Hdistinct. intros Hin. apply Hdistinct.
  apply in_or_app. now left.
Qed.

Lemma insert_parameters_bound_in_order_witness :
  map (Postgres.placeholders_of Scenario.order_columns [Sim.order_row 0; Sim.order_row 1])
    [Sim.order_row 0; Sim.order_row 1]
  = ["($1,$2)"; "($3,$4)"].
Proof.
  apply (proj1 (insert_parameters_bound_in_order Scenario.order_columns
                  [Sim.order_row 0; Sim.order_row 1]
                  ltac:(repeat constructor; cbn; intuition discriminate))).
Defined.

(** ** replicate.js: the transfer loop *)

Lemma insert_event_transfer (schema table db2Schema db2Table : string) (evs : list Event) :
  Forall (insert_event schema table) evs ->
  Forall (transfer_event schema table db2Schema db2Table) evs.
Proof. apply Forall_impl. intros [| | | |]; cbn; tauto. Qed.

Lemma insert_event_no_fetch (schema table : string) (evs : list Event) :
  Forall (insert_event schema table) evs ->
  fetch_offsets evs = [] /\ fetched_chunks evs = [].
Proof.
  induction 1 as [| e evs He _ [IH1 IH2]]; [split; reflexivity |].
  destruct e as [| | stmt answer | stmt answer | line]; cbn in He; try contradiction;
    cbn [fetch_offsets fetched_chunks]; auto.
Qed.

Lemma fetch_offsets_app (a b : list Event) :
  fetch_offsets (a ++ b) = (fetch_offsets a ++ fetch_offsets b)%list.
Proof.
  induction a as [| e a IH]; [reflexivity |].
  destruct e as [| | [] | |]; cbn [app fetch_offsets]; rewrite IH; reflexivity.
Qed.

Lemma rows_fetched_app (a b : list Event) :
  rows_fetched (a ++ b) = rows_fetched a + rows_fetched b.
Proof.
  unfold rows_fetched. rewrite fetched_chunks_app.
  induction (fetched_chunks a) as [| x l IH]; cbn [app fold_right]; lia.
Qed.

(** The trace of [insertIntoPostgres]: console lines and INSERTs into the
    table; it returns when no INSERT was refused, and throws right after
    the first one refused and its two lines. *)
Lemma insert_batches_trace (E : Env) (schema table : string) (columns : list Column) :
  forall batches totalInserted d,
    match insert_batches E schema table columns batches totalInserted d with
    | (r, _, evs) =>
        Forall (insert_event schema table) evs
        /\ ((exists n, r = Returned n /\ Forall (fun e => is_failed_insert e = false) evs)
            \/ (exists front stmt err,
                   r = Thrown err
                   /\ evs = (front ++ [PgQuery stmt (inl err);
                                       Console (ErrorInsertingBatch schema table (message err));
                                       Console (FailingQuery (Sql.pg_text stmt))])%list
                   /\ Forall (fun e => is_failed_insert e = false) front))
    end.
Proof.
  destruct columns as [| col columns'].
  - intros batches total d.
    destruct (insert_batches_no_columns E schema table batches total d) as (evs & -> & _ & Hall).
    split.
    + eapply Forall_impl; [| exact Hall]. intros e ->. exact I.
    + left. eexists. split; [reflexivity |].
      eapply Forall_impl; [| exact Hall]. intros e ->. reflexivity.
  - set (columns := col :: columns').
    assert (Hcols : columns <> []) by discriminate.
    induction batches as [| batch rest IH]; intros total d.
    + split; [constructor |]. left. eexists. split; [reflexivity | constructor].
    + rewrite insert_batches_cons by exact Hcols.
      rewrite bind_unfold, insert_one_run.
      destruct (pg_query E _ d) as [[err | res] d1].
      * split; [repeat constructor |].
        right. exists [], (insert_stmt schema table columns batch), err.
        repeat split. constructor.
      * specialize (IH (total + rowCount res) d1).
        destruct (insert_batches E schema table columns rest _ d1) as [[r d2] evs].
        destruct IH as [Hall Hcases]. split; [constructor; [repeat split | exact Hall] |].
        destruct Hcases as [(n & -> & Hok) | (front & stmt & err & -> & -> & Hok)].
        -- left. eexists. split; [reflexivity |]. constructor; [reflexivity | exact Hok].
        -- right. exists (PgQuery (insert_stmt schema table columns batch) (inr res) :: front),
                    stmt, err.
           repeat split. constructor; [reflexivity | exact Hok].
Qed.

Lemma insertIntoPostgres_trace (E : Env) (schema table : string) (columns : list Column)
    (chunk : list Row) (d : DB E) :
  match Postgres.insertIntoPostgres E schema table columns chunk d with
  | (r, _, evs) =>
      Forall (insert_event schema table) evs
      /\ ((exists n, r = Returned n /\ Forall (fun e => is_failed_insert e = false) evs)
          \/ (exists front stmt err,
                 r = Thrown err
                 /\ evs = (front ++ [PgQuery stmt (inl err);
                                     Console (ErrorInsertingBatch schema table (message err));
                                     Console (FailingQuery (Sql.pg_text stmt))])%list
                 /\ Forall (fun e => is_failed_insert e = false) front))
  end.
Proof.
  rewrite insertIntoPostgres_batches. destruct chunk as [| row chunk].
  - split; [repeat constructor |]. left. eexists. split; [reflexivity | repeat constructor].
  - apply insert_batches_trace.
Qed.

(** The trace of [fetchChunk]: it returns the chunk its page query gave,
    having asked for the keys and for the page at [offset]. *)
Lemma fetchChunk_trace (E : Env) (schema table db2Schema db2Table : string)
    (columns : list Column) (size offset : Z) (d : DB E) :
  exists answer d1 evs,
    Db2.fetchChunk E db2Schema db2Table columns size offset d
    = (Returned (chunk_of_answer answer), d1, evs)
    /\ Forall (transfer_event schema table db2Schema db2Table) evs
    /\ Forall (fun e => is_failed_insert e = false) evs
    /\ fetch_offsets evs = [offset]
    /\ fetched_chunks evs = [answer].
Proof.
  unfold Db2.fetchChunk. rewrite bind_unfold, getPrimaryKeys_run.
  rewrite !toUpperCase_idem.
  destruct (db2_query E _ d) as [[kerr | krows] dk];
    [| destruct (map_or_throw Db2.colname_trim krows) as [terr | ks]];
    rewrite try_catch_unfold, bind_unfold; unfold db2_call;
    match goal with
    | |- context [db2_query E ?stmt dk] =>
        destruct (db2_query E stmt dk) as [[err | rows] d2] eqn:Hpage
    end;
    cbn [lift ret throw app];
    first [ exists (inl err) | exists (inr rows) ]; do 2 eexists;
    (split; [reflexivity |]); repeat split; repeat constructor.
Qed.

Lemma offsets_from_S (start step : Z) (n : nat) :
  offsets_from start step (S n) = start :: offsets_from (start + step) step n.
Proof.
  unfold offsets_from. cbn [seq map]. f_equal; [lia |].
  rewrite <- seq_shift, map_map. apply map_ext. intros i. lia.
Qed.

(** One pass of the loop: the fetch, then either the end of the data, or
    the insert and the next offset, or a refused INSERT and the report of
    the failure. *)
Lemma transfer_step_cases (E : Env) (config : Config)
    (schema table db2Schema db2Table : string) (columns : list Column)
    (db2Count : Number) (totalFetched offset : Z) (d : DB E) :
  exists answer ev1,
    Forall (transfer_event schema table db2Schema db2Table) ev1
    /\ Forall (fun e => is_failed_insert e = false) ev1
    /\ fetch_offsets ev1 = [offset]
    /\ fetched_chunks ev1 = [answer]
    /\ ((chunk_of_answer answer = []
         /\ exists d1,
             Replicate.transfer_step E config schema table db2Schema db2Table columns
               db2Count totalFetched offset d
             = (Returned (totalFetched, None), d1, ev1))
        \/ (exists d2 ev2 line,
               Forall (insert_event schema table) ev2
               /\ Forall (fun e => is_failed_insert e = false) ev2
               /\ Replicate.transfer_step E config schema table db2Schema db2Table columns
                    db2Count totalFetched offset d
                  = (Returned (totalFetched + Z.of_nat (length (chunk_of_answer answer)),
                               Some (offset + chunkSize config)),
                     d2, (ev1 ++ ev2 ++ [Console line])%list))
        \/ (exists d2 front stmt err,
               Forall (insert_event schema table) front
               /\ Forall (fun e => is_failed_insert e = false) front
               /\ insert_statement schema table stmt
               /\ Replicate.transfer_step E config schema table db2Schema db2Table columns
                    db2Count totalFetched offset d
                  = (Returned (totalFetched + Z.of_nat (length (chunk_of_answer answer)),
                               None),
                     d2, (ev1 ++ front ++ failure_report schema table stmt err)%list))).
Proof.
  unfold Replicate.transfer_step. rewrite try_catch_unfold, bind_unfold.
  destruct (fetchChunk_trace E schema table db2Schema db2Table columns (chunkSize config)
              offset d) as (answer & d1 & ev1 & -> & Hev & Hok & Hoff & Hchunks).
  exists answer, ev1. do 4 (split; [assumption |]).
  destruct (chunk_of_answer answer) as [| row chunk] eqn:Hchunk.
  - left. split; [reflexivity |]. exists d1. cbn [ret]. now rewrite app_nil_r.
  - right. rewrite try_catch_unfold, bind_unfold.
    pose proof (insertIntoPostgres_trace E schema table columns (row :: chunk) d1) as Htrace.
    destruct (Postgres.insertIntoPostgres E schema table columns (row :: chunk) d1)
      as [[r d2] ev2].
    destruct Htrace as [Hall [(n & -> & Hok2) | (front & stmt & err & -> & -> & Hok2)]].
    + left. exists d2, ev2.
      destruct (positive db2Count); eexists; (do 2 (split; [assumption |]));
        rewrite log_bind; cbn [ret]; reflexivity.
    + right. exists d2, front, stmt, err.
      apply Forall_app in Hall. destruct Hall as [Hfront Hlast].
      split; [exact Hfront | split; [exact Hok2 | split]].
      * inversion Hlast as [| ? ? Hstmt _]. exact Hstmt.
      * unfold Replicate.transfer_catch. rewrite !log_bind. cbn [ret].
        unfold failure_report. rewrite <- !app_assoc. reflexivity.
Qed.

(** X16.  The page queries of the transfer loop ask for the offsets
    [offset], [offset + chunkSize], [offset + 2 * chunkSize], ... in this
    order, one per pass, whatever the two databases answer; the loop sends
    no other page query. *)
Theorem transfer_loop_offsets :
  forall (E : Env) (config : Config) (schema table db2Schema db2Table : string)
         (columns : list Column) (db2Count : Number) (fuel : nat)
         (totalFetched offset : Z) (d : DB E),
  exists passes,
    (passes <= fuel)%nat
    /\ fetch_offsets
         (snd (Replicate.transfer_loop E config fuel schema table db2Schema db2Table
                 columns db2Count totalFetched offset d))
       = offsets_from offset (chunkSize config) passes.
Proof.
  intros E config schema table db2Schema db2Table columns db2Count.
  induction fuel as [| fuel IH]; intros total offset d.
  - exists 0%nat. split; [lia | reflexivity].
  - cbn [Replicate.transfer_loop]. rewrite bind_unfold.
    destruct (transfer_step_cases E config schema table db2Schema db2Table columns db2Count
                total offset d)
      as (answer & ev1 & _ & _ & Hoff & _ &
          [(_ & d1 & ->) | [(d2 & ev2 & line & Hins & _ & ->)
                           | (d2 & front & stmt & err & Hins & _ & _ & ->)]]).
    + exists 1%nat. split; [lia |]. cbn [ret snd]. rewrite app_nil_r, Hoff.
      rewrite offsets_from_S. reflexivity.
    + destruct (IH (total + Z.of_nat (length (chunk_of_answer answer)))
                  (offset + chunkSize config) d2) as (passes & Hle & Hrest).
      destruct (Replicate.transfer_loop E config fuel schema table db2Schema db2Table columns
                  db2Count _ _ d2) as [[r d3] ev3].
      cbn [snd] in Hrest |- *. exists (S passes). split; [lia |].
      rewrite !fetch_offsets_app, Hoff, Hrest, offsets_from_S.
      destruct (insert_event_no_fetch schema table ev2 Hins) as [-> _]. reflexivity.
    + exists 1%nat. split; [lia |]. cbn [ret snd]. rewrite app_nil_r.
      rewrite !fetch_offsets_app, Hoff, offsets_from_S.
      destruct (insert_event_no_fetch schema table front Hins) as [-> _]. reflexivity.
Qed.

(** X17.  The total the transfer loop returns is the total it started
    with plus the number of rows of all the chunks it fetched, whether or
    not their INSERTs succeeded: the rows of a chunk the destination
    refused are counted. *)
Theorem transfer_loop_counts_fetched_rows :
  forall (E : Env) (config : Config) (schema table db2Schema db2Table : string)
         (columns : list Column) (db2Count : Number) (fuel : nat)
         (totalFetched offset : Z) (d d1 : DB E) (total : Z) (evs : list Event),
    Replicate.transfer_loop E config fuel schema table db2Schema db2Table
      columns db2Count totalFetched offset d
    = (Returned total, d1, evs) ->
    total = totalFetched + rows_fetched evs.
Proof.
  intros E config schema table db2Schema db2Table columns db2Count.
  induction fuel as [| fuel IH]; intros total0 offset d dl total evs; [discriminate |].
  cbn [Replicate.transfer_loop]. rewrite bind_unfold.
  assert (Hone : forall answer ev1, fetched_chunks ev1 = [answer] ->
                   rows_fetched ev1 = Z.of_nat (length (chunk_of_answer answer))).
  { intros answer ev1 H. unfold rows_fetched. rewrite H. cbn. lia. }
  assert (Hnone : forall evs', Forall (insert_event schema table) evs' ->
                               rows_fetched evs' = 0).
  { intros evs' H. unfold rows_fetched.
    destruct (insert_event_no_fetch schema table evs' H) as [_ ->]. reflexivity. }
  destruct (transfer_step_cases E config schema table db2Schema db2Table columns db2Count
              total0 offset d)
    as (answer & ev1 & _ & _ & _ & Hchunks &
        [(Hempty & d1 & ->) | [(d2 & ev2 & line & Hins & _ & ->)
                              | (d2 & front & stmt & err & Hins & _ & _ & ->)]]).
  - cbn [ret]. intros Hrun. injection Hrun as <- _ <-.
    rewrite app_nil_r, (Hone answer ev1 Hchunks), Hempty. cbn. lia.
  - specialize (IH (total0 + Z.of_nat (length (chunk_of_answer answer)))
                  (offset + chunkSize config) d2).
    destruct (Replicate.transfer_loop E config fuel schema table db2Schema db2Table columns
                db2Count _ _ d2) as [[r d3] ev3].
    intros Hrun. injection Hrun as -> _ <-.
    rewrite (IH d3 total ev3 eq_refl).
    rewrite !rows_fetched_app, (Hone answer ev1 Hchunks), (Hnone ev2 Hins).
    change (rows_fetched [Console line]) with 0. lia.
  - cbn [ret]. intros Hrun. injection Hrun as <- _ <-.
    rewrite app_nil_r, !rows_fetched_app, (Hone answer ev1 Hchunks), (Hnone front Hins).
    change (rows_fetched (failure_report schema table stmt err)) with 0. lia.
Qed.

Lemma transfer_loop_counts_fetched_rows_witness :
  let run := Replicate.transfer_loop (Sim.env Scenario.insert_refused) Scenario.one_table 10
               "sales" "orders" "SALES" "ORDERS" Scenario.order_columns (Finite 5) 0 0
               Scenario.provisioned in
  fst (fst run) = Returned 2 /\ 2 = 0 + rows_fetched (snd run).
Proof.
  split; [reflexivity |].
  apply (transfer_loop_counts_fetched_rows (Sim.env Scenario.insert_refused)
           Scenario.one_table "sales" "orders" "SALES" "ORDERS" Scenario.order_columns
           (Finite 5) 10 0 0 Scenario.provisioned
           (snd (fst (Replicate.transfer_loop (Sim.env Scenario.insert_refused)
                        Scenario.one_table 10 "sales" "orders" "SALES" "ORDERS"
                        Scenario.order_columns (Finite 5) 0 0 Scenario.provisioned)))).
  reflexivity.
Defined.

(** ** replicate.js: one table *)

Ltac before_loop_events :=
  repeat (apply Forall_cons || apply Forall_nil);
  unfold before_loop; cbn; intuition (auto; congruence).

Lemma getColumnMetadata_before_loop (E : Env) (config : Config) (schema table : string)
    (d : DB E) :
  exists columns d1 evs,
    Db2.getColumnMetadata E (JsString.toUpperCase schema) (JsString.toUpperCase table) d
    = (Returned columns, d1, evs)
    /\ Forall (before_loop config schema table) evs.
Proof.
  rewrite getColumnMetadata_run, !toUpperCase_idem.
  destruct (db2_query E _ d) as [[err | rows] d1];
    [| destruct (map_or_throw Db2.column_of_row rows)];
    do 3 eexists; (split; [reflexivity | before_loop_events]).
Qed.

Lemma getPrimaryKeys_before_loop (E : Env) (config : Config) (schema table : string)
    (d : DB E) :
  exists keys d1 evs,
    Db2.getPrimaryKeys E (JsString.toUpperCase schema) (JsString.toUpperCase table) d
    = (Returned keys, d1, evs)
    /\ Forall (before_loop config schema table) evs.
Proof.
  rewrite getPrimaryKeys_run, !toUpperCase_idem.
  destruct (db2_query E _ d) as [[err | rows] d1];
    [| destruct (map_or_throw Db2.colname_trim rows)];
    do 3 eexists; (split; [reflexivity | before_loop_events]).
Qed.

Lemma getDb2RowCount_before_loop (E : Env) (config : Config) (schema table : string)
    (d : DB E) :
  exists count d1 evs,
    Db2.getDb2RowCount E (JsString.toUpperCase schema) (JsString.toUpperCase table) d
    = (Returned count, d1, evs)
    /\ Forall (before_loop config schema table) evs.
Proof.
  rewrite getDb2RowCount_run, !toUpperCase_idem.
  destruct (db2_query E _ d) as [[err | rows] d1];
    do 3 eexists; (split; [reflexivity | before_loop_events]).
Qed.

Lemma ensureTableExists_before_loop (E : Env) (config : Config) (schema table : string)
    (columns : list Column) (keys : list string) (d : DB E) :
  exists r d1 evs,
    Postgres.ensureTableExists E schema table columns keys d = (r, d1, evs)
    /\ r <> Diverged
    /\ Forall (before_loop config schema table) evs.
Proof.
  rewrite ensureTableExists_run.
  destruct (pg_query E _ d) as [[err | result] d1];
    do 3 eexists; (split; [reflexivity | split; [discriminate | before_loop_events]]).
Qed.

Lemma reconcile_before_loop (E : Env) (config : Config) (schema table : string)
    (db2Count : Number) (d : DB E) :
  exists r d1 evs,
    Replicate.reconcile E config schema table db2Count d = (r, d1, evs)
    /\ r <> Diverged
    /\ Forall (before_loop config schema table) evs.
Proof.
  unfold Replicate.reconcile. destruct (reset config) eqn:Hreset; cbn [negb].
  - do 3 eexists. split; [reflexivity | split; [discriminate | constructor]].
  - rewrite bind_unfold, getPostgresRowCount_run.
    destruct (pg_query E _ d) as [[err | result] d1];
      [| destruct (Postgres.count_of_result result)];
      (destruct (strict_equal _ db2Count);
       [| rewrite log_bind, bind_unfold, truncateTable_run;
          destruct (pg_query E _ d1) as [[terr | tres] d2]]);
      do 3 eexists; (split; [reflexivity | split; [discriminate | before_loop_events]]).
Qed.

(** The two ways through [replicateTable]: it ends before the loop, or it
    runs the loop from offset 0 and closes the spinner. *)
Lemma replicateTable_shape (E : Env) (config : Config) (fuel : nat) (schema table : string)
    (d : DB E) :
  (exists r d1 prelude,
      Replicate.replicateTable E config fuel schema table d = (r, d1, prelude)
      /\ r <> Diverged
      /\ Forall (before_loop config schema table) prelude)
  \/ (exists columns db2Count dl prelude,
         Forall (before_loop config schema table) prelude
         /\ Replicate.replicateTable E config fuel schema table d
            = match Replicate.transfer_loop E config fuel schema table
                      (JsString.toUpperCase schema) (JsString.toUpperCase table)
                      columns db2Count 0 0 dl with
              | (Returned total, d2, evs) =>
                  (Returned tt, d2,
                   (prelude ++ evs ++ [Console (SpinnerSucceed schema table total)])%list)
              | (Thrown err, d2, evs) => (Thrown err, d2, (prelude ++ evs)%list)
              | (Diverged, d2, evs) => (Diverged, d2, (prelude ++ evs)%list)
              end).
Proof.
  unfold Replicate.replicateTable. rewrite log_bind, bind_unfold.
  destruct (getColumnMetadata_before_loop E config schema table d)
    as (columns & d1 & ev1 & -> & H1).
  rewrite bind_unfold.
  destruct (getPrimaryKeys_before_loop E config schema table d1)
    as (keys & d2 & ev2 & -> & H2).
  assert (H0 : before_loop config schema table (Console (ReplicatingTable schema table)))
    by (unfold before_loop; cbn; intuition congruence).
  destruct columns as [| col columns'].
  - left. do 3 eexists. split; [reflexivity | split; [discriminate |]].
    constructor; [exact H0 |]. repeat (apply Forall_app; split); auto.
  - set (columns := col :: columns'). rewrite bind_unfold.
    destruct (ensureTableExists_before_loop E config schema table columns keys d2)
      as (r3 & d3 & ev3 & -> & Hr3 & H3).
    destruct r3 as [[] | err |]; [| | congruence].
    2:{ left. do 3 eexists. split; [reflexivity | split; [discriminate |]].
        constructor; [exact H0 |]. repeat (apply Forall_app; split); auto. }
    rewrite bind_unfold.
    destruct (getDb2RowCount_before_loop E config schema table d3)
      as (db2Count & d4 & ev4 & -> & H4).
    assert (Hline : exists line,
               ((if positive db2Count
                 then log (TotalRows schema table db2Count)
                 else log (UnknownTotalRows schema table)) : M E unit)
               = log line)
      by (destruct (positive db2Count); eexists; reflexivity).
    destruct Hline as [line ->].
    rewrite log_bind, bind_unfold.
    destruct (reconcile_before_loop E config schema table db2Count d4)
      as (r5 & d5 & ev5 & -> & Hr5 & H5).
    assert (Hpre : Forall (before_loop config schema table)
                     (Console (ReplicatingTable schema table)
                      :: ev1 ++ ev2 ++ ev3 ++ ev4 ++ Console line :: ev5)%list).
    { constructor; [exact H0 |]. repeat (apply Forall_app; split); auto. }
    destruct r5 as [[|] | err |]; [| | | congruence].
    + right. exists columns, db2Count, d5.
      exists (Console (ReplicatingTable schema table)
              :: ev1 ++ ev2 ++ ev3 ++ ev4 ++ Console line
              :: ev5 ++ [Console (SpinnerStart schema table)])%list.
      split.
      * constructor; [exact H0 |]. repeat (apply Forall_app; split); auto.
        constructor; [unfold before_loop; cbn; intuition congruence |].
        apply Forall_app. split; [exact H5 | before_loop_events].
      * rewrite log_bind, bind_unfold.
        destruct (Replicate.transfer_loop E config fuel schema table _ _ columns db2Count
                    0 0 d5) as [[[total | err |] d6] ev6];
          cbn [log app]; repeat (rewrite <- app_assoc; cbn [app]); reflexivity.
    + left. do 3 eexists. split; [reflexivity | split; [discriminate |]].
      cbn [ret app]. rewrite !app_nil_r. exact Hpre.
    + left. do 3 eexists. split; [reflexivity | split; [discriminate |]]. exact Hpre.
Qed.

Lemma transfer_loop_events (E : Env) (config : Config)
    (schema table db2Schema db2Table : string) (columns : list Column) (db2Count : Number) :
  forall fuel totalFetched offset d,
    Forall (transfer_event schema table db2Schema db2Table)
      (snd (Replicate.transfer_loop E config fuel schema table db2Schema db2Table columns
              db2Count totalFetched offset d)).
Proof.
  induction fuel as [| fuel IH]; intros total offset d; [constructor |].
  cbn [Replicate.transfer_loop]. rewrite bind_unfold.
  destruct (transfer_step_cases E config schema table db2Schema db2Table columns db2Count
              total offset d)
    as (answer & ev1 & Hev1 & _ & _ & _ &
        [(_ & d1 & ->) | [(d2 & ev2 & line & Hins & _ & ->)
                         | (d2 & front & stmt & err & Hins & _ & Hstmt & ->)]]).
  - cbn [ret snd]. rewrite app_nil_r. exact Hev1.
  - specialize (IH (total + Z.of_nat (length (chunk_of_answer answer)))
                  (offset + chunkSize config) d2).
    destruct (Replicate.transfer_loop E config fuel schema table db2Schema db2Table columns
                db2Count _ _ d2) as [[r d3] ev3].
    cbn [snd] in IH |- *.
    repeat (apply Forall_app; split); auto using insert_event_transfer.
    repeat constructor.
  - cbn [ret snd]. rewrite app_nil_r.
    repeat (apply Forall_app; split); auto using insert_event_transfer.
    unfold failure_report. repeat constructor. exact Hstmt.
Qed.

(** After a refused INSERT the loop sends nothing more: its events end
    with the report of that failure, and no other INSERT was refused. *)
Lemma transfer_loop_failure (E : Env) (config : Config)
    (schema table db2Schema db2Table : string) (columns : list Column) (db2Count : Number) :
  forall fuel totalFetched offset d,
    match Replicate.transfer_loop E config fuel schema table db2Schema db2Table columns
            db2Count totalFetched offset d with
    | (r, _, evs) =>
        Forall (fun e => is_failed_insert e = false) evs
        \/ (exists total front stmt err,
               r = Returned total
               /\ evs = (front ++ failure_report schema table stmt err)%list
               /\ Forall (fun e => is_failed_insert e = false) front
               /\ insert_statement schema table stmt)
    end.
Proof.
  induction fuel as [| fuel IH]; intros total offset d; [left; constructor |].
  cbn [Replicate.transfer_loop]. rewrite bind_unfold.
  destruct (transfer_step_cases E config schema table db2Schema db2Table columns db2Count
              total offset d)
    as (answer & ev1 & _ & Hok1 & _ & _ &
        [(_ & d1 & ->) | [(d2 & ev2 & line & _ & Hok2 & ->)
                         | (d2 & front & stmt & err & _ & Hok2 & Hstmt & ->)]]).
  - left. cbn [ret]. rewrite app_nil_r. exact Hok1.
  - specialize (IH (total + Z.of_nat (length (chunk_of_answer answer)))
                  (offset + chunkSize config) d2).
    destruct (Replicate.transfer_loop E config fuel schema table db2Schema db2Table columns
                db2Count _ _ d2) as [[r d3] ev3].
    assert (Hpass : Forall (fun e => is_failed_insert e = false)
                      (ev1 ++ ev2 ++ [Console line])%list).
    { repeat (apply Forall_app; split); auto. }
    destruct IH as [Hok3 | (total' & front & stmt & err & -> & -> & Hfront & Hstmt)].
    + left. apply Forall_app. split; assumption.
    + right. exists total', ((ev1 ++ ev2 ++ [Console line]) ++ front)%list, stmt, err.
      split; [reflexivity | split; [now rewrite app_assoc | split; [| exact Hstmt]]].
      apply Forall_app. split; assumption.
  - right. cbn [ret]. rewrite app_nil_r.
    exists (total + Z.of_nat (length (chunk_of_answer answer))), (ev1 ++ front)%list, stmt, err.
    split; [reflexivity | split; [now rewrite app_assoc | split; [| exact Hstmt]]].
    apply Forall_app. split; assumption.
Qed.

Lemma transfer_event_table (schema table : string) (evs : list Event) :
  Forall (transfer_event schema table (JsString.toUpperCase schema)
            (JsString.toUpperCase table)) evs ->
  Forall (table_event schema table) evs.
Proof.
  apply Forall_impl. intros [| | [] | [] |]; cbn; rewrite ?toUpperCase_idem; tauto.
Qed.

Lemma transfer_event_no_reconciliation (schema table db2Schema db2Table : string)
    (evs : list Event) :
  Forall (transfer_event schema table db2Schema db2Table) evs ->
  Forall (fun e => is_pg_count e = false /\ is_truncate e = false) evs.
Proof.
  apply Forall_impl. intros [| | [] | [] |]; cbn; tauto.
Qed.

Lemma before_loop_table (config : Config) (schema table : string) (evs : list Event) :
  Forall (before_loop config schema table) evs -> Forall (table_event schema table) evs.
Proof. apply Forall_impl. intros e He. apply He. Qed.

Lemma no_failed_insert (evs : list Event) :
  Forall (fun e => is_failed_insert e = false) evs -> existsb is_failed_insert evs = false.
Proof.
  induction 1 as [| e evs He _ IH]; [reflexivity |]. cbn [existsb]. now rewrite He, IH.
Qed.

(** X18.  With reset on, the replication of a table neither counts nor
    truncates the destination table: it goes from CREATE TABLE straight to
    the reload. *)
Theorem replicateTable_reset_skips_reconciliation :
  forall (E : Env) (config : Config) (fuel : nat) (schema table : string) (d : DB E),
    reset config = true ->
    Forall (fun e => is_pg_count e = false /\ is_truncate e = false)
      (snd (Replicate.replicateTable E config fuel schema table d)).
Proof.
  intros E config fuel schema table d Hreset.
  assert (Hweaken : forall evs, Forall (before_loop config schema table) evs ->
                      Forall (fun e => is_pg_count e = false /\ is_truncate e = false) evs).
  { intros evs. apply Forall_impl. intros e He. now apply He. }
  destruct (replicateTable_shape E config fuel schema table d)
    as [(r & d1 & prelude & -> & _ & Hpre)
       | (columns & db2Count & dl & prelude & Hpre & ->)].
  - cbn [snd]. apply Hweaken, Hpre.
  - pose proof (transfer_loop_events E config schema table (JsString.toUpperCase schema)
                  (JsString.toUpperCase table) columns db2Count fuel 0 0 dl) as Hloop.
    apply transfer_event_no_reconciliation in Hloop. apply Hweaken in Hpre.
    destruct (Replicate.transfer_loop E config fuel schema table _ _ columns db2Count 0 0 dl)
      as [[[total | err |] d2] evs]; cbn [snd] in Hloop |- *;
      repeat (apply Forall_app; split); auto; repeat constructor.
Qed.

Lemma replicateTable_reset_skips_reconciliation_witness :
  Forall (fun e => is_pg_count e = false /\ is_truncate e = false)
    (snd (Replicate.replicateTable (Sim.env Scenario.shop)
            (mkConfig [mkTarget "sales" "orders"] [] 2 true) 10 "sales" "orders"
            Scenario.stale)).
Proof.
  apply (replicateTable_reset_skips_reconciliation (Sim.env Scenario.shop)
           (mkConfig [mkTarget "sales" "orders"] [] 2 true) 10 "sales" "orders"
           Scenario.stale).
  reflexivity.
Defined.

(** X19.  When the destination refuses an INSERT while a table is
    replicated, that is the last statement sent for the table: the events
    end with the refused INSERT, the two lines of [insertIntoPostgres],
    the spinner's failure line, the error itself, and then the line that
    reports the table as finished; [replicateTable] returns normally and
    no other INSERT was refused. *)
Theorem replicateTable_reports_refused_insert :
  forall (E : Env) (config : Config) (fuel : nat) (schema table : string)
         (d d1 : DB E) (r : Completion unit) (evs : list Event),
    Replicate.replicateTable E config fuel schema table d = (r, d1, evs) ->
    existsb is_failed_insert evs = true ->
    r = Returned tt
    /\ exists front stmt err total,
        evs = (front ++ failure_report schema table stmt err
                 ++ [Console (SpinnerSucceed schema table total)])%list
        /\ Forall (fun e => is_failed_insert e = false) front
        /\ insert_statement schema table stmt.
Proof.
  intros E config fuel schema table d d1 r evs Hrun Hfailed.
  assert (Hweaken : forall l, Forall (before_loop config schema table) l ->
                      Forall (fun e => is_failed_insert e = false) l).
  { intros l. apply Forall_impl. intros e He. apply He. }
  destruct (replicateTable_shape E config fuel schema table d)
    as [(r' & d' & prelude & Hshape & _ & Hpre)
       | (columns & db2Count & dl & prelude & Hpre & Hshape)];
    rewrite Hshape in Hrun.
  - injection Hrun as _ _ <-.
    rewrite (no_failed_insert prelude (Hweaken prelude Hpre)) in Hfailed. discriminate.
  - pose proof (transfer_loop_failure E config schema table (JsString.toUpperCase schema)
                  (JsString.toUpperCase table) columns db2Count fuel 0 0 dl) as Hloop.
    apply Hweaken in Hpre.
    destruct (Replicate.transfer_loop E config fuel schema table _ _ columns db2Count 0 0 dl)
      as [[r2 d2] ev2].
    destruct Hloop as [Hok | (total & front & stmt & err & -> & -> & Hfront & Hstmt)].
    + exfalso.
      assert (Hall : Forall (fun e => is_failed_insert e = false) evs).
      { destruct r2 as [total | err |]; injection Hrun as _ _ <-;
          repeat (apply Forall_app; split); auto; repeat constructor. }
      rewrite (no_failed_insert evs Hall) in Hfailed. discriminate.
    + injection Hrun as <- _ <-. split; [reflexivity |].
      exists (prelude ++ front)%list, stmt, err, total.
      split; [now rewrite <- !app_assoc | split; [| exact Hstmt]].
      apply Forall_app. split; assumption.
Qed.

Lemma replicateTable_reports_refused_insert_witness :
  let run := Replicate.replicateTable (Sim.env Scenario.insert_refused) Scenario.two_tables 10
               "sales" "orders" Scenario.stale in
  fst (fst run) = Returned tt
  /\ exists front stmt err total,
      snd run = (front ++ failure_report "sales" "orders" stmt err
                   ++ [Console (SpinnerSucceed "sales" "orders" total)])%list
      /\ Forall (fun e => is_failed_insert e = false) front
      /\ insert_statement "sales" "orders" stmt.
Proof.
  apply (replicateTable_reports_refused_insert (Sim.env Scenario.insert_refused)
           Scenario.two_tables 10 "sales" "orders" Scenario.stale
           (snd (fst (Replicate.replicateTable (Sim.env Scenario.insert_refused)
                        Scenario.two_tables 10 "sales" "orders" Scenario.stale)))).
  - vm_compute. reflexivity.
  - vm_compute. reflexivity.
Defined.

(** ** replicate.js: the views *)

Lemma db2_issued_app (a b : list Event) :
  db2_issued (a ++ b) = (db2_issued a ++ db2_issued b)%list.
Proof.
  induction a as [| e a IH]; [reflexivity |].
  destruct e; cbn [app db2_issued]; rewrite IH; reflexivity.
Qed.

Lemma replicateView_trace (E : Env) (schema viewName : string) (d : DB E) :
  exists text d0 ev0 answer d1 evs,
    Db2.getViewDefinition E (JsString.toUpperCase schema) (JsString.toUpperCase viewName) d
    = (Returned text, d0, ev0)
    /\ Replicate.replicateView E schema viewName d = (Returned tt, d1, evs)
    /\ Forall view_event evs
    /\ db2_issued evs = [view_read (mkTarget schema viewName)]
    /\ pg_issued evs
       = [(CreateOrReplaceView schema viewName
             (JsString.replaceFirst_ci text "WITH UR" EmptyString), answer)].
Proof.
  unfold Replicate.replicateView. rewrite log_bind, try_catch_unfold, bind_unfold.
  rewrite getViewDefinition_run.
  destruct (db2_query E _ d) as [[err | rows] d0];
    [| destruct (Db2.view_text_of_rows rows) as [terr | text]];
    rewrite bind_unfold;
    unfold Postgres.createView; rewrite try_catch_unfold, log_bind, bind_unfold;
    unfold pg_await;
    match goal with
    | |- context [pg_query E ?stmt d0] =>
        destruct (pg_query E stmt d0) as [[perr | result] d2]
    end;
    do 6 eexists; (split; [reflexivity |]); (split; [reflexivity |]);
    (split; [repeat constructor |]); split; reflexivity.
Qed.

Lemma for_each_cons {E : Env} {A : Type} (x : A) (l : list A) (body : A -> M E unit)
    (d : DB E) :
  for_each (x :: l) body d
  = match body x d with
    | (Returned _, d1, ev1) =>
        match for_each l body d1 with
        | (r, d2, ev2) => (r, d2, (ev1 ++ ev2)%list)
        end
    | (Thrown err, d1, ev1) => (Thrown err, d1, ev1)
    | (Diverged, d1, ev1) => (Diverged, d1, ev1)
    end.
Proof. cbn [for_each]. rewrite bind_unfold. reflexivity. Qed.

Lemma replicateViews_trace (E : Env) (views : list Target) (d : DB E) :
  exists d1 evs,
    Replicate.replicateViews E views d = (Returned tt, d1, evs)
    /\ Forall view_event evs.
Proof.
  revert d. unfold Replicate.replicateViews.
  induction views as [| [schema viewName] views IH]; intros d.
  - do 2 eexists. split; [reflexivity | constructor].
  - rewrite for_each_cons, log_bind. cbn [tgt_schema tgt_table].
    destruct (replicateView_trace E schema viewName d)
      as (text & d0 & ev0 & answer & d1 & ev1 & _ & -> & Hev & _).
    destruct (IH d1) as (d2 & ev2 & -> & Hev2).
    do 2 eexists. split; [reflexivity |].
    constructor; [exact I |]. apply Forall_app. split; assumption.
Qed.

(** X20.  No view stops the others: [replicateViews] returns normally
    whatever the databases answer, having read the catalog once for each
    configured view, under the upper-cased names and in order, and having
    sent one CREATE OR REPLACE VIEW for each view, in order, and nothing
    else. *)
Theorem replicateViews_attempts_every_view :
  forall (E : Env) (views : list Target) (d : DB E),
  exists d1 evs,
    Replicate.replicateViews E views d = (Returned tt, d1, evs)
    /\ Forall view_event evs
    /\ db2_issued evs = map view_read views
    /\ map (fun sent => view_created (fst sent)) (pg_issued evs) = map Some views.
Proof.
  intros E views. unfold Replicate.replicateViews.
  induction views as [| [schema viewName] views IH]; intros d.
  - do 2 eexists. repeat split. constructor.
  - rewrite for_each_cons, log_bind. cbn [tgt_schema tgt_table].
    destruct (replicateView_trace E schema viewName d)
      as (text & d0 & ev0 & answer & d1 & ev1 & _ & -> & Hev & Hdb2 & Hpg).
    destruct (IH d1) as (d2 & ev2 & -> & Hev2 & Hdb2' & Hpg').
    do 2 eexists. split; [reflexivity |]. split; [| split].
    + constructor; [exact I |]. apply Forall_app. split; assumption.
    + cbn [app db2_issued map]. rewrite db2_issued_app, Hdb2, Hdb2'. reflexivity.
    + cbn [app pg_issued map]. rewrite pg_issued_app, map_app, Hpg, Hpg'. reflexivity.
Qed.

(** X21.  When the catalog has no row for a view, and when the catalog
    query fails, [replicateView] still sends a CREATE OR REPLACE VIEW for
    it, with an empty definition after AS, and returns normally whatever
    the destination answers. *)
Theorem replicateView_without_definition :
  forall (E : Env) (schema viewName : string) (d d0 : DB E) (found : JsError + list Row),
    db2_query E (view_read (mkTarget schema viewName)) d = (found, d0) ->
    found = inr [] \/ (exists err, found = inl err) ->
    exists d1 evs,
      Replicate.replicateView E schema viewName d = (Returned tt, d1, evs)
      /\ pg_issued evs
         = [(CreateOrReplaceView schema viewName EmptyString,
             fst (pg_query E (CreateOrReplaceView schema viewName EmptyString) d0))].
Proof.
  intros E schema viewName d d0 found Hq Hfound.
  unfold view_read in Hq. cbn [tgt_schema tgt_table] in Hq.
  unfold Replicate.replicateView. rewrite log_bind, try_catch_unfold, bind_unfold.
  rewrite getViewDefinition_run, Hq.
  assert (Hrun : match found with
                 | inl err => True
                 | inr rows => Db2.view_text_of_rows rows = inr EmptyString
                 end).
  { destruct Hfound as [-> | [err ->]]; [reflexivity | exact I]. }
  destruct found as [err | rows]; [| rewrite Hrun];
    rewrite bind_unfold;
    unfold Postgres.createView; rewrite try_catch_unfold, log_bind, bind_unfold;
    unfold pg_await;
    change (JsString.replaceFirst_ci EmptyString "WITH UR" EmptyString) with EmptyString;
    destruct (pg_query E (CreateOrReplaceView schema viewName EmptyString) d0)
      as [[perr | result] d2];
    do 2 eexists; split; reflexivity.
Qed.

Lemma replicateView_without_definition_witness :
  exists d1 evs,
    Replicate.replicateView (Sim.env Scenario.empty_shop) "sales" "base" Sim.empty
    = (Returned tt, d1, evs)
    /\ pg_issued evs
       = [(CreateOrReplaceView "sales" "base" EmptyString,
           fst (pg_query (Sim.env Scenario.empty_shop)
                  (CreateOrReplaceView "sales" "base" EmptyString) Sim.empty))].
Proof.
  apply (replicateView_without_definition (Sim.env Scenario.empty_shop) "sales" "base"
           Sim.empty Sim.empty (inr [])).
  - reflexivity.
  - left. reflexivity.
Defined.

(** ** replicate.js: the whole run *)




Lemma bind_events {E : Env} {A B : Type} (P : Event -> Prop) (m : M E A) (k : A -> M E B)
    (d : DB E) :
  Forall P (snd (m d)) ->
  (forall a d1, Forall P (snd (k a d1))) ->
  Forall P (snd (bind m k d)).
Proof.
  intros Hm Hk. rewrite bind_unfold.
  destruct (m d) as [[[a | err |] d1] ev1]; cbn [snd] in Hm |- *; try exact Hm.
  specialize (Hk a d1). destruct (k a d1) as [[r d2] ev2]. cbn [snd] in Hk |- *.
  apply Forall_app. split; assumption.
Qed.

Lemma for_each_events {E : Env} {A : Type} (P : Event -> Prop) (body : A -> M E unit)
    (l : list A) :
  (forall x, In x l -> forall d, Forall P (snd (body x d))) ->
  forall d, Forall P (snd (for_each l body d)).
Proof.
  induction l as [| x l IH]; intros Hbody d; [constructor |].
  cbn [for_each]. apply bind_events.
  - apply Hbody. now left.
  - intros _ d1. apply IH. intros y Hy. apply Hbody. now right.
Qed.

Lemma replicateTable_events (E : Env) (config : Config) (fuel : nat) (schema table : string)
    (d : DB E) :
  Forall (table_event schema table)
    (snd (Replicate.replicateTable E config fuel schema table d)).
Proof.
  destruct (replicateTable_shape E config fuel schema table d)
    as [(r & d1 & prelude & -> & _ & Hpre)
       | (columns & db2Count & dl & prelude & Hpre & ->)].
  - cbn [snd]. eapply before_loop_table, Hpre.
  - pose proof (transfer_loop_events E config schema table (JsString.toUpperCase schema)
                  (JsString.toUpperCase table) columns db2Count fuel 0 0 dl) as Hloop.
    apply transfer_event_table in Hloop. apply before_loop_table in Hpre.
    destruct (Replicate.transfer_loop E config fuel schema table _ _ columns db2Count 0 0 dl)
      as [[[total | err |] d2] evs]; cbn [snd] in Hloop |- *;
      repeat (apply Forall_app; split); auto; repeat constructor.
Qed.

Lemma replicateTables_events_of (E : Env) (config : Config) (fuel : nat)
    (tables : list Target) (d : DB E) :
  Forall (tables_event tables) (snd (Replicate.replicateTables E config fuel tables d)).
Proof.
  revert d. unfold Replicate.replicateTables.
  apply for_each_events. intros t Ht d.
  apply bind_events; [repeat constructor |]. intros _ d1.
  eapply Forall_impl; [| apply replicateTable_events].
  intros e He. destruct e; cbn; try exact I; exists t; split; assumption.
Qed.

(** X23.  Whatever the two databases answer, the replication of a table
    sends nothing about anything else: its reads of the source are about
    the upper-cased schema and table, its destination statements are the
    CREATE TABLE, the count, the TRUNCATE and the INSERTs of that table;
    it drops or creates no schema, creates no view, and neither opens nor
    closes the source connection.  So the replication of the configured
    tables touches these tables only. *)
Theorem replicateTables_touch_only_their_tables :
  forall (E : Env) (config : Config) (fuel : nat) (tables : list Target) (d : DB E),
    Forall (tables_event tables) (snd (Replicate.replicateTables E config fuel tables d))
    /\ forall schema table,
        Forall (table_event schema table)
          (snd (Replicate.replicateTable E config fuel schema table d)).
Proof.
  intros E config fuel tables d. split.
  - apply replicateTables_events_of.
  - intros schema table. apply replicateTable_events.
Qed.

Lemma replicateAll_phases (E : Env) (config : Config) (fuel : nat) :
  Replicate.replicateAll E config fuel
  = (log StartingReplication ;;
     Db2.connectDB2 E ;;
     drop_schemas E config ;;
     ensure_schemas E config ;;
     replicate_targets E config fuel).
Proof. reflexivity. Qed.

(** X24.  When the source connection cannot be opened, [replicateAll]
    throws the connection error after its two console lines and the
    error line: no statement is sent to either database and the
    connection is not closed. *)
Theorem replicateAll_connect_failure :
  forall (E : Env) (config : Config) (fuel : nat) (d d1 : DB E) (err : JsError),
    db2_open E d = (Some err, d1) ->
    Replicate.replicateAll E config fuel d
    = (Thrown err, d1,
       [Console StartingReplication; Console Db2Connecting; Db2Open (Some err);
        Console (Db2ConnectionError (message err))]).
Proof.
  intros E config fuel d d1 err Hopen.
  rewrite replicateAll_phases, log_bind, bind_unfold.
  unfold Db2.connectDB2. rewrite log_bind, Hopen. reflexivity.
Qed.

Lemma replicateAll_connect_failure_witness :
  Replicate.replicateAll (unreachable Scenario.shop) Scenario.one_table 10 Sim.empty
  = (Thrown (DbError "SQL30081N"), Sim.empty,
     [Console StartingReplication; Console Db2Connecting;
      Db2Open (Some (DbError "SQL30081N"));
      Console (Db2ConnectionError "SQL30081N")]).
Proof.
  apply (replicateAll_connect_failure (unreachable Scenario.shop) Scenario.one_table 10
           Sim.empty Sim.empty (DbError "SQL30081N")).
  reflexivity.
Defined.

Lemma provision_loop (E : Env) (body : string -> M E unit) :
  (forall schema d, provision_outcome (body schema d)) ->
  forall schemas d, provision_outcome (for_each schemas body d).
Proof.
  intros Hbody. induction schemas as [| schema schemas IH]; intros d.
  - left. split; [reflexivity | constructor].
  - rewrite for_each_cons. specialize (Hbody schema d).
    destruct (body schema d) as [[r1 d1] ev1].
    destruct Hbody as [[-> H1] | (front & stmt & err & line & -> & -> & Hfront)].
    + specialize (IH d1). destruct (for_each schemas body d1) as [[r2 d2] ev2].
      destruct IH as [[-> H2] | (front & stmt & err & line & -> & -> & Hfront)].
      * left. split; [reflexivity |]. apply Forall_app. split; assumption.
      * right. exists (ev1 ++ front)%list, stmt, err, line.
        split; [reflexivity | split; [now rewrite app_assoc |]].
        apply Forall_app. split; assumption.
    + right. exists front, stmt, err, line. repeat split. exact Hfront.
Qed.

Lemma drop_schemas_outcome (E : Env) (config : Config) (d : DB E) :
  provision_outcome (drop_schemas E config d).
Proof.
  unfold drop_schemas. destruct (reset config).
  - apply provision_loop. intros schema d0. rewrite log_bind, dropSchema_run.
    destruct (pg_query E _ d0) as [[err | result] d1].
    + right. exists [Console (DroppingSchema schema)]. do 3 eexists.
      split; [reflexivity | split; [reflexivity | repeat constructor]].
    + left. split; [reflexivity | repeat constructor].
  - left. split; [reflexivity | constructor].
Qed.

Lemma ensure_schemas_outcome (E : Env) (config : Config) (d : DB E) :
  provision_outcome (ensure_schemas E config d).
Proof.
  unfold ensure_schemas. apply provision_loop. intros schema d0.
  rewrite ensureSchemaExists_run.
  destruct (pg_query E _ d0) as [[err | result] d1].
  - right. exists []. do 3 eexists.
    split; [reflexivity | split; [reflexivity | constructor]].
  - left. split; [reflexivity | repeat constructor].
Qed.

Lemma replicate_targets_events (E : Env) (config : Config) (fuel : nat) (d : DB E) :
  Forall (fun e => is_failed_provisioning e = false)
    (snd (replicate_targets E config fuel d)).
Proof.
  unfold replicate_targets. apply bind_events; [| intros _ d1; apply bind_events].
  - destruct (cfg_tables config) as [| t tables]; [repeat constructor |].
    apply bind_events; [repeat constructor |]. intros _ d1.
    eapply Forall_impl;
      [| apply (replicateTables_events_of E config fuel (t :: tables) d1)].
    intros e He. destruct e as [| | | [] |]; cbn in He |- *; try reflexivity;
      destruct He as (x & _ & Hx); cbn in Hx; contradiction.
  - destruct (cfg_views config) as [| v views]; [repeat constructor |].
    apply bind_events; [repeat constructor |]. intros _ d2.
    destruct (replicateViews_trace E (v :: views) d2) as (d3 & evs & -> & Hev).
    cbn [snd]. eapply Forall_impl; [| exact Hev].
    intros e He. destruct e as [| | | [] |]; cbn in He |- *; try reflexivity; contradiction.
  - intros _ d2. apply bind_events; [repeat constructor |]. intros _ d3. repeat constructor.
Qed.

Lemma provisioning_not_failed (evs : list Event) :
  Forall provisioning_event evs -> Forall (fun e => is_failed_provisioning e = false) evs.
Proof.
  apply Forall_impl. intros [[] | | | [] [] |]; cbn; intros; try reflexivity; contradiction.
Qed.

Lemma no_failed_provisioning (evs : list Event) :
  Forall (fun e => is_failed_provisioning e = false) evs ->
  existsb is_failed_provisioning evs = false.
Proof.
  induction 1 as [| e evs He _ IH]; [reflexivity |]. cbn [existsb]. now rewrite He, IH.
Qed.

(** X25.  A DROP SCHEMA or CREATE SCHEMA the destination refuses ends the
    run: it is the last statement [replicateAll] sends, after it comes the
    failure line only, and the database's error leaves [replicateAll].
    Before it the source connection was opened and schemas were dropped
    and created; nothing was sent for any table or view, and the
    connection is not closed. *)
Theorem replicateAll_provisioning_failure_is_fatal :
  forall (E : Env) (config : Config) (fuel : nat) (d d1 : DB E)
         (r : Completion unit) (evs : list Event),
    Replicate.replicateAll E config fuel d = (r, d1, evs) ->
    existsb is_failed_provisioning evs = true ->
    exists front stmt err line,
      r = Thrown err
      /\ evs = (front ++ [PgQuery stmt (inl err); Console line])%list
      /\ Forall provisioning_event front.
Proof.
  intros E config fuel d dl r evs Hrun Hfailed.
  rewrite replicateAll_phases, log_bind, bind_unfold in Hrun.
  unfold Db2.connectDB2 in Hrun. rewrite log_bind in Hrun.
  destruct (db2_open E d) as [[oerr |] d0].
  { injection Hrun as _ _ <-. discriminate. }
  rewrite bind_unfold in Hrun.
  pose proof (drop_schemas_outcome E config d0) as Hdrops.
  destruct (drop_schemas E config d0) as [[r1 d1] ev1].
  destruct Hdrops as [[-> H1] | (front & stmt & err & line & -> & -> & Hfront)].
  2:{ injection Hrun as <- _ <-.
      exists (Console StartingReplication :: Console Db2Connecting :: Db2Open None
              :: Console Db2Connected :: front), stmt, err, line.
      split; [reflexivity | split; [reflexivity |]]. repeat constructor. exact Hfront. }
  rewrite bind_unfold in Hrun.
  pose proof (ensure_schemas_outcome E config d1) as Hensure.
  destruct (ensure_schemas E config d1) as [[r2 d2] ev2].
  destruct Hensure as [[-> H2] | (front & stmt & err & line & -> & -> & Hfront)].
  2:{ injection Hrun as <- _ <-.
      exists (Console StartingReplication :: Console Db2Connecting :: Db2Open None
              :: Console Db2Connected :: ev1 ++ front)%list, stmt, err, line.
      split; [reflexivity | split; [cbn [app]; now rewrite <- !app_assoc |]].
      repeat constructor. apply Forall_app. split; assumption. }
  exfalso.
  pose proof (replicate_targets_events E config fuel d2) as Htargets.
  destruct (replicate_targets E config fuel d2) as [[r3 d3] ev3]. cbn [snd] in Htargets.
  injection Hrun as _ _ <-.
  rewrite no_failed_provisioning in Hfailed; [discriminate |].
  repeat constructor.
  repeat (apply Forall_app; split); auto using provisioning_not_failed.
Qed.

Lemma replicateAll_provisioning_failure_is_fatal_witness :
  let refused :=
    Sim.mkSetup Scenario.source_tables Scenario.source_views Sim.nothing_rejected
      (fun stmt => match stmt with CreateSchema _ => true | _ => false end) in
  let run := Replicate.replicateAll (Sim.env refused) Scenario.two_tables 10 Sim.empty in
  exists front stmt err line,
    fst (fst run) = Thrown err
    /\ snd run = (front ++ [PgQuery stmt (inl err); Console line])%list
    /\ Forall provisioning_event front.
Proof.
  intros refused run.
  apply (replicateAll_provisioning_failure_is_fatal (Sim.env refused) Scenario.two_tables 10
           Sim.empty (snd (fst run))).
  - vm_compute. reflexivity.
  - vm_compute. reflexivity.
Defined.
